(** * auto_copilot_pipeline: a shallow embedding and its properties

    The development follows [tools/auto_copilot_pipeline.py]: the [gh]
    command wrapper with its bounded retry ([GitHubClient._run_gh]), the
    tracker operations built on it, the completion-signal detector
    ([check_copilot_signal]), the stage scanner ([iter_work_items]) and
    the orchestrator ([Pipeline.run], [_ensure_issue], [_wait_and_merge],
    [_reset_issue]) together with the loop of [main].

    Modelling choices, all in one place:
    - The outside world is a stream of subprocess outcomes, indexed by the
      number of [subprocess.run] calls made so far.  Every outcome carries
      the wall-clock seconds the call took.
    - [time.time()] reads a clock that advances by the duration of every
      subprocess call and of every [time.sleep]; seconds are integers.
      [time.sleep] raises on a negative length, on one too long to be
      converted ([SLEEP_MAX]) and on one the platform refuses; every
      length up to [SLEEP_SURE] is slept.
    - Exceptions are values of [exn]; a message is a constructor carrying
      the data the Python f-string interpolates.
    - Text is a string of bytes, UTF-8 for a character outside ASCII.
      Where Python classifies characters ([str.strip], [str.lower], [\s],
      [\d], [int]) the definitions follow it on ASCII; the statements
      about the scanner that depend on the classification are made for
      ASCII text.  [json.loads] is a parameter of the development (a
      Section variable); the two patterns of the scanner are matched by
      functions written out for them.
    - Loosely typed JSON values keep Python's behaviour of [.get], [in],
      indexing, iteration and truthiness, including the exceptions these
      raise on a value of the wrong shape.  JSON numbers are integers.
    - Log lines of level WARNING and ERROR are part of the trace; INFO and
      DEBUG lines are not modelled, except where a statement needs them.
    - Every [gh] command carries [--repo owner/repo]; the repository
      reference is fixed for a client and is left out of the trace. *)

From Stdlib Require Import ZArith List String Ascii Bool Lia Arith DecimalString.
From Stdlib Require Import Sorted Permutation.
Import ListNotations.

Set Warnings "-register-all".

Local Open Scope string_scope.
Local Open Scope Z_scope.

(* ================================================================== *)
(** ** Python strings *)

Module PyStr.

Definition lower_ascii (c : ascii) : ascii :=
  let n := nat_of_ascii c in
  if ((65 <=? n)%nat && (n <=? 90)%nat)%bool then ascii_of_nat (n + 32) else c.

(** [s.lower()] on the ASCII range. *)
Fixpoint lower (s : string) : string :=
  match s with
  | EmptyString => EmptyString
  | String c t => String (lower_ascii c) (lower t)
  end.

(** [needle in hay] for two strings. *)
Fixpoint contains (needle hay : string) : bool :=
  (String.prefix needle hay ||
   match hay with
   | EmptyString => false
   | String _ t => contains needle t
   end)%bool.

(** [str.isspace] on the ASCII range: TAB..CR, FS..US and SPACE. *)
Definition is_space (c : ascii) : bool :=
  let n := nat_of_ascii c in
  (((9 <=? n)%nat && (n <=? 13)%nat) || ((28 <=? n)%nat && (n <=? 32)%nat))%bool.

Fixpoint lstrip (s : string) : string :=
  match s with
  | EmptyString => EmptyString
  | String c t => if is_space c then lstrip t else s
  end.

Fixpoint rstrip (s : string) : string :=
  match s with
  | EmptyString => EmptyString
  | String c t =>
      match rstrip t with
      | EmptyString => if is_space c then EmptyString else String c EmptyString
      | t' => String c t'
      end
  end.

(** [s.strip()]. *)
Definition strip (s : string) : string := rstrip (lstrip s).

Definition is_empty (s : string) : bool :=
  match s with EmptyString => true | _ => false end.

(** [s.split(sep)] for a one-character separator: never an empty list. *)
Fixpoint split (sep : ascii) (s : string) : list string :=
  match s with
  | EmptyString => [EmptyString]
  | String c t =>
      if Ascii.eqb c sep then EmptyString :: split sep t
      else match split sep t with
           | [] => [String c EmptyString]
           | h :: r => String c h :: r
           end
  end.

Definition is_digit (c : ascii) : bool :=
  let n := nat_of_ascii c in ((48 <=? n)%nat && (n <=? 57)%nat)%bool.

Definition digit_val (c : ascii) : Z := Z.of_nat (nat_of_ascii c - 48).

(** Digits with single underscores between them, as [int()] accepts. *)
Fixpoint digits (acc : Z) (prev_digit : bool) (s : string) : option Z :=
  match s with
  | EmptyString => if prev_digit then Some acc else None
  | String c t =>
      if is_digit c then digits (acc * 10 + digit_val c) true t
      else if (Ascii.eqb c "_" && prev_digit)%bool then
             match t with
             | String d _ => if is_digit d then digits acc false t else None
             | EmptyString => None
             end
           else None
  end.

(** [int(s)] for a decimal literal: surrounding white space, an optional
    sign, digits.  [None] stands for [ValueError]. *)
Definition to_int (s : string) : option Z :=
  match strip s with
  | String "-" t => option_map Z.opp (digits 0 false t)
  | String "+" t => digits 0 false t
  | t => digits 0 false t
  end.

(** [s.isascii()]. *)
Fixpoint is_ascii (s : string) : bool :=
  match s with
  | EmptyString => true
  | String c t => ((nat_of_ascii c <? 128)%nat && is_ascii t)%bool
  end.

End PyStr.

(* ================================================================== *)
(** ** JSON values as Python sees them *)

Inductive json : Type :=
| JNull
| JBool (b : bool)
| JNum (n : Z)
| JStr (s : string)
| JArr (items : list json)
| JObj (fields : list (string * json)).

(** Exceptions.  [RuntimeError] carries the message the program builds;
    the other classes are the ones Python's own operations raise. *)
Inductive exn : Type :=
| RuntimeError (m : msg)
| ValueError
| IndexError
| AttributeError
| TypeError
| KeyError
| JSONDecodeError
| OSError
| OverflowError
with msg : Type :=
| MsgGhTimeout                                  (* gh command timed out *)
| MsgGhFailed (stderr : string)                 (* gh command failed *)
| MsgGhFatal (stderr : string)                  (* gh command error, not retried *)
| MsgGhUnknown (retries : nat)                  (* fall-through after the loop *)
| MsgParseIssueNumber (output : string)
| MsgParseIssueData
| MsgParsePRData
| MsgAssignAllFailed (issue : Z) (tried : nat) (last : exn)
| MsgAssignTrigger (issue : Z) (cause : exn)
| MsgNoGithub
| MsgNoGhCli
| MsgNoRepo
| MsgIssueTimeout (issue : Z) (max_wait : Z)
| MsgNoPRResetLimit (issue : Z)
| MsgPRClosedResetLimit (issue : Z)
| MsgMergeResetLimit (issue : Z) (cause : exn)
| MsgPRTimeoutResetLimit (issue : Z).

Inductive result (A : Type) : Type :=
| Success (a : A)
| Failure (e : exn).
Arguments Success {A} a.
Arguments Failure {A} e.

Definition rbind {A B} (r : result A) (k : A -> result B) : result B :=
  match r with
  | Success a => k a
  | Failure e => Failure e
  end.

Module Py.

Fixpoint assoc (k : string) (l : list (string * json)) : option json :=
  match l with
  | [] => None
  | (k', v) :: r => if String.eqb k k' then Some v else assoc k r
  end.

Fixpoint remove_key (k : string) (l : list (string * json)) : list (string * json) :=
  match l with
  | [] => []
  | (k', v) :: r => if String.eqb k k' then remove_key k r else (k', v) :: remove_key k r
  end.

(** [d[k] = v] on a dict: the key keeps its place when present. *)
Fixpoint set_key (k : string) (v : json) (l : list (string * json)) : list (string * json) :=
  match l with
  | [] => [(k, v)]
  | (k', v') :: r => if String.eqb k k' then (k, v) :: r else (k', v') :: set_key k v r
  end.

(** [x.get(k, default)]: only a dict has [get]. *)
Definition get (x : json) (k : string) (default : json) : result json :=
  match x with
  | JObj l => Success (match assoc k l with Some v => v | None => default end)
  | _ => Failure AttributeError
  end.

(** [x == "literal"]. *)
Definition eq_str (x : json) (s : string) : bool :=
  match x with
  | JStr t => String.eqb t s
  | _ => false
  end.

(** [x == y] on JSON values, structurally. *)
Fixpoint eqb (a b : json) {struct a} : bool :=
  match a, b with
  | JNull, JNull => true
  | JBool x, JBool y => Bool.eqb x y
  | JNum x, JNum y => Z.eqb x y
  | JStr x, JStr y => String.eqb x y
  | JArr l, JArr m =>
      (fix go (l m : list json) : bool :=
         match l, m with
         | [], [] => true
         | x :: l', y :: m' => eqb x y && go l' m'
         | _, _ => false
         end) l m
  | JObj l, JObj m =>
      (fix go (l m : list (string * json)) : bool :=
         match l, m with
         | [], [] => true
         | (k, x) :: l', (k', y) :: m' => String.eqb k k' && eqb x y && go l' m'
         | _, _ => false
         end) l m
  | _, _ => false
  end.

(** [bool(x)]. *)
Definition truthy (x : json) : bool :=
  match x with
  | JNull => false
  | JBool b => b
  | JNum n => negb (n =? 0)
  | JStr s => negb (PyStr.is_empty s)
  | JArr l => match l with [] => false | _ => true end
  | JObj l => match l with [] => false | _ => true end
  end.

(** ["k" in x]. *)
Definition contains_str (k : string) (x : json) : result bool :=
  match x with
  | JObj l => Success (match assoc k l with Some _ => true | None => false end)
  | JStr s => Success (PyStr.contains k s)
  | JArr l => Success (existsb (fun y => eq_str y k) l)
  | _ => Failure TypeError
  end.

(** [x["k"]]. *)
Definition getitem (x : json) (k : string) : result json :=
  match x with
  | JObj l => match assoc k l with Some v => Success v | None => Failure KeyError end
  | _ => Failure TypeError
  end.

Fixpoint chars (s : string) : list json :=
  match s with
  | EmptyString => []
  | String c t => JStr (String c EmptyString) :: chars t
  end.

(** [for y in x]: the elements the loop visits. *)
Definition iter (x : json) : result (list json) :=
  match x with
  | JArr l => Success l
  | JObj l => Success (map (fun kv => JStr (fst kv)) l)
  | JStr s => Success (chars s)
  | _ => Failure TypeError
  end.

Definition is_list (x : json) : bool :=
  match x with JArr _ => true | _ => false end.

Definition is_dict (x : json) : bool :=
  match x with JObj _ => true | _ => false end.

End Py.

(* ================================================================== *)
(** ** Constants of the module *)

Definition COPILOT_ASSIGNEES : list string :=
  ["@copilot"; "copilot"; "Copilot"; "github-copilot"; "github-copilot[bot]"].
Definition COPILOT_USERNAME : string := "copilot".

Definition DEFAULT_POLL_INTERVAL : Z := 60.
Definition DEFAULT_MAX_WAIT : Z := 36000.
Definition DEFAULT_BATCH_SIZE : Z := 1.
Definition DEFAULT_TASK_MAX_RETRIES : Z := 3.
Definition DEFAULT_TASK_RETRY_WAIT : Z := 300.
Definition DEFAULT_MAX_PR_RESETS : Z := 3.
Definition PR_TIMEOUT : Z := 10800.
Definition PR_WAIT_TIMEOUT : Z := 1800.
Definition RESET_WAIT_TIME : Z := 30.
Definition HEARTBEAT_INTERVAL : Z := 300.
Definition GH_TIMEOUT : Z := 180.
Definition RETRY_SLEEP_SHORT : Z := 5.
Definition NETWORK_ERROR_BASE_WAIT : Z := 10.
Definition NETWORK_ERROR_MAX_WAIT : Z := 120.
Definition PR_READY_WAIT : Z := 2.
Definition MAIN_ERROR_WAIT : Z := 30.
Definition TIMELINE_ACCEPT_HEADER : string :=
  "Accept: application/vnd.github.mockingbird-preview+json".

(* ================================================================== *)
(** ** Data model *)

Record TodoItem : Type := mkTodoItem {
  todo_id_full : string;
  todo_stage_number : Z;
  todo_title : string;
  todo_meta_lines : list string;
  todo_file_path : string
}.

Record WorkItem : Type := mkWorkItem {
  id_full : string;
  stage_number : Z;
  title : string;
  file_path : string;
  todos : list TodoItem;
  batch_index : option Z;
  batch_total : option Z
}.

(** [WorkItem.is_batch]. *)
Definition is_batch (item : WorkItem) : bool := (1 <? Z.of_nat (List.length (todos item))).

(* ================================================================== *)
(** ** The world: subprocess outcomes, clock and trace *)

(** What one [subprocess.run(cmd, check=True, timeout=GH_TIMEOUT)] does:
    it returns, or raises one of three exceptions.  [dur] is the time the
    call took, in seconds. *)
Inductive proc_outcome : Type :=
| Completed (dur : nat) (stdout : string)
| TimeoutExpired (dur : nat)
| CalledProcessError (dur : nat) (stderr : string)
| SpawnFailed (dur : nat).

Definition duration (o : proc_outcome) : nat :=
  match o with
  | Completed d _ | TimeoutExpired d | CalledProcessError d _ | SpawnFailed d => d
  end.

(** Texts the orchestrator posts; bodies are kept symbolic. *)
Inductive issue_text : Type :=
| FullIssueBody (item : WorkItem)                       (* _build_full_issue_body *)
| MergeFailComment (issue : Z) (cause : exn) (nth : Z)  (* merge_fail_comment *)
| TimeoutComment (issue : Z) (nth : Z).                 (* timeout_comment *)

(** Paths of the REST API the client requests. *)
Inductive api_path : Type :=
| IssueTimeline (num : json).     (* /repos/{repo}/issues/{num}/timeline *)

(** The argument vectors handed to [gh]. *)
Inductive gh_cmd : Type :=
| GhApi (path : api_path) (method : string) (headers : list string)
| GhIssueCreate (title : string) (body : issue_text)
| GhIssueAddAssignee (issue : Z) (assignee : string)
| GhIssueRemoveAssignee (issue : Z) (assignee : string)
| GhIssueComment (num : json) (body : issue_text)
| GhIssueView (issue : Z)
| GhPrView (pr : json)
| GhPrMerge (pr : json)
| GhPrClose (pr : json) (delete_branch : bool)
| GhPrReady (pr : json)
| GhIssueListClosed (limit : Z)
| GhIssueListOpen (search : string).

Inductive level : Type := INFO | WARNING | ERROR.

Inductive log_msg : Type :=
(* _run_gh *)
| LogGhTimeoutFinal (retries : nat)
| LogGhTimeoutRetry (wait : Z) (attempt retries : nat)
| LogGhFinalFail (network : bool) (retries : nat) (stderr : string)
| LogGhFatal (stderr : string)
| LogGhRateLimit (wait : Z) (attempt retries : nat)
| LogGhNetworkRetry (wait : Z) (attempt retries : nat) (stderr : string)
| LogGhRetry (wait : Z) (attempt retries : nat) (stderr : string)
(* api_request, find_issue_by_todo, mark_pr_ready, completed scan *)
| LogApiFailed (e : exn)
| LogFindIssueFailed (e : exn)
| LogFindIssueNotList
| LogFindIssueParse
| LogMarkReadyFailed (pr : json) (e : exn)
| LogCompletedFailed (e : exn)
(* Pipeline.run *)
| LogItemFailed (i total : Z) (id : string) (attempt max_attempts : Z) (e : exn)
| LogRetryWait (wait : Z)
| LogItemFinalFail (i total : Z) (id : string)
| LogItemException (e : exn)
| LogFailedCount (n : nat)
| LogFailedItem (id : string) (e : exn)
| LogManualHint
(* _ensure_issue *)
| LogIssueNotOpen (issue : Z) (state : json)
| LogIssueDetailsFailed (issue : Z) (e : exn)
| LogAssignFailed (issue : Z) (e : exn)
| LogAssignFailedHint
(* _wait_and_merge *)
| LogIssueClosed (issue : Z)
| LogClosedNoPR (issue : Z)
| LogIssueStateFailed (e : exn)
| LogGetPRFailed (e : exn)
| LogNoPRReset (nth : Z)
| LogPRStateFailed (e : exn)
| LogPRClosedUnmerged (pr : json)
| LogResetFlow (nth : Z)
| LogMergeFailed (pr : json) (e : exn)
| LogMergeReset (nth : Z)
| LogPRTimeoutLimit (pr : json)
| LogPRTimeoutReset (pr : json) (nth : Z)
| LogClosePRFailed (e : exn)
(* _reset_issue *)
| LogResetSkipClosed (issue : Z)
| LogResetFailed (e : exn)
(* main *)
| LogBadPollInterval
| LogBadIssueMaxWait
| LogBadBatchSize
| LogBadMaxRetries
| LogBadRepoFormat
| LogDryRunNoRepo (e : exn)
| LogPipelineError (iteration : nat) (e : exn)
| LogFatal (e : exn).

Inductive event : Type :=
| EvGh (cmd : gh_cmd)          (* one subprocess.run of gh *)
| EvSleep (secs : Z)           (* one time.sleep *)
| EvLog (lvl : level) (m : log_msg).

(** [trace] holds the newest event first.  [sleep_cap t] is the longest
    length the platform's own sleep takes when the clock reads [t]. *)
Record world : Type := mkWorld {
  env : nat -> proc_outcome;
  ncalls : nat;
  now : Z;
  trace : list event;
  sleep_cap : Z -> Z
}.

(** The events of a run in the order they happened. *)
Definition history (w : world) : list event := rev (trace w).

(* ================================================================== *)
(** ** The monad of the program: state, exceptions, fuel *)

Inductive outcome (A : Type) : Type :=
| Ok (a : A)        (* the call returned *)
| Raise (e : exn)   (* the call raised an Exception *)
| Diverge.          (* a [while True] loop ran out of fuel *)
Arguments Ok {A} a.
Arguments Raise {A} e.
Arguments Diverge {A}.

Definition M (A : Type) : Type := world -> outcome A * world.

Definition ret {A} (a : A) : M A := fun w => (Ok a, w).

Definition bind {A B} (m : M A) (k : A -> M B) : M B :=
  fun w =>
    match m w with
    | (Ok a, w') => k a w'
    | (Raise e, w') => (Raise e, w')
    | (Diverge, w') => (Diverge, w')
    end.

Definition raise {A} (e : exn) : M A := fun w => (Raise e, w).

(** [try: m  except Exception as e: h e]. *)
Definition try_except {A} (m : M A) (h : exn -> M A) : M A :=
  fun w =>
    match m w with
    | (Raise e, w') => h e w'
    | r => r
    end.

Definition lift {A} (r : result A) : M A :=
  match r with
  | Success a => ret a
  | Failure e => raise e
  end.

Declare Scope pipeline_scope.
Delimit Scope pipeline_scope with pipeline.
Notation "x <- m ;; k" := (bind m (fun x => k))
  (at level 100, m at next level, right associativity) : pipeline_scope.
Notation "m ;; k" := (bind m (fun _ => k))
  (at level 100, right associativity) : pipeline_scope.
Local Open Scope pipeline_scope.

Definition emit (e : event) : M unit :=
  fun w => (Ok tt, mkWorld (env w) (ncalls w) (now w) (e :: trace w) (sleep_cap w)).

Definition log (lvl : level) (m : log_msg) : M unit := emit (EvLog lvl m).

(** [time.time()]. *)
Definition time : M Z := fun w => (Ok (now w), w).

(** The longest length [time.sleep] converts: CPython keeps it as a
    signed 64-bit count of nanoseconds, and a whole number of seconds above
    [(2^63 - 1) // 10^9] does not fit. *)
Definition SLEEP_MAX : Z := 9223372036.

(** Python 3.11 turns an integer into text, in an f-string for one, and
    text into an integer, only up to 4300 digits ([ValueError] beyond).
    The numbers of the command line are below this bound; the statements
    about numbers the program computes are made below it. *)
Definition INT_STR_MAX : Z := 10 ^ 4300.

(** A length every platform sleeps: the system calls behind [time.sleep]
    have limits of their own (a deadline within the kernel's clock on
    Linux, 10^8 seconds for [select] on others), all beyond this one. *)
Definition SLEEP_SURE : Z := 100000000.

(** [time.sleep(secs)] for an [int]: a negative length is a [ValueError];
    a length above [SLEEP_MAX] an [OverflowError]; a length up to
    [SLEEP_SURE] is slept; in between the platform decides, and the system
    call that refuses the length is an [OSError].  A refused call does not
    wait. *)
Definition sleep (secs : Z) : M unit :=
  fun w =>
    if secs <? 0 then (Raise ValueError, w)
    else if SLEEP_MAX <? secs then (Raise OverflowError, w)
    else if ((SLEEP_SURE <? secs) && (sleep_cap w (now w) <? secs))%bool
         then (Raise OSError, w)
    else (Ok tt, mkWorld (env w) (ncalls w) (now w + secs) (EvSleep secs :: trace w)
                   (sleep_cap w)).

(** [subprocess.run(["gh"] + args, ...)]: the next outcome of the world. *)
Definition spawn (cmd : gh_cmd) : M proc_outcome :=
  fun w =>
    let o := env w (ncalls w) in
    (Ok o, mkWorld (env w) (S (ncalls w)) (now w + Z.of_nat (duration o)) (EvGh cmd :: trace w)
             (sleep_cap w)).

(* ================================================================== *)
(** ** GitHubClient._run_gh *)

Definition NETWORK_ERRORS : list string :=
  ["tls handshake"; "bad gateway"; "connection reset"; "connection refused";
   "network"; "timeout"; "eof"; "502"; "503"; "504"].

Definition is_network_error (stderr : string) : bool :=
  existsb (fun keyword => PyStr.contains keyword (PyStr.lower stderr)) NETWORK_ERRORS.

(** ["not found" in stderr.lower() or "unknown" in stderr.lower()]. *)
Definition is_fatal_error (stderr : string) : bool :=
  (PyStr.contains "not found" (PyStr.lower stderr) ||
   PyStr.contains "unknown" (PyStr.lower stderr))%bool.

(** ["rate limit" in stderr.lower() or "abuse" in stderr.lower()]. *)
Definition is_rate_limit_error (stderr : string) : bool :=
  (PyStr.contains "rate limit" (PyStr.lower stderr) ||
   PyStr.contains "abuse" (PyStr.lower stderr))%bool.

(** The three wait schedules, by attempt number. *)
Definition rate_limit_wait (attempt : nat) : Z := Z.min (300 * Z.of_nat attempt) 1800.
Definition network_wait (attempt : nat) : Z :=
  Z.min (2 ^ Z.of_nat attempt * NETWORK_ERROR_BASE_WAIT) NETWORK_ERROR_MAX_WAIT.
Definition generic_wait (attempt : nat) : Z := Z.min (2 ^ Z.of_nat attempt) 30.

(** The text used when the failed process wrote nothing to stderr. *)
Definition NO_STDERR : string := "无错误信息".

(** [exc.stderr.strip() if exc.stderr else ...]. *)
Definition stderr_text (raw : string) : string :=
  if PyStr.is_empty raw then NO_STDERR else PyStr.strip raw.

(** The body of [for attempt in range(1, retries + 1)], from [attempt]
    on, with [remaining] iterations left. *)
Fixpoint run_gh_loop (cmd : gh_cmd) (retries : nat) (remaining : nat) (attempt : nat)
  : M string :=
  match remaining with
  | O => raise (RuntimeError (MsgGhUnknown retries))
  | S remaining' =>
      r <- spawn cmd ;;
      match r with
      | Completed _ stdout => ret (PyStr.strip stdout)
      | SpawnFailed _ => raise OSError
      | TimeoutExpired _ =>
          if (attempt =? retries)%nat then
            log ERROR (LogGhTimeoutFinal retries) ;;
            raise (RuntimeError MsgGhTimeout)
          else
            let wait_time := network_wait attempt in
            log WARNING (LogGhTimeoutRetry wait_time attempt retries) ;;
            sleep wait_time ;;
            run_gh_loop cmd retries remaining' (S attempt)
      | CalledProcessError _ raw =>
          let stderr := stderr_text raw in
          let network := is_network_error stderr in
          if (attempt =? retries)%nat then
            log ERROR (LogGhFinalFail network retries stderr) ;;
            raise (RuntimeError (MsgGhFailed stderr))
          else if is_fatal_error stderr then
            log ERROR (LogGhFatal stderr) ;;
            raise (RuntimeError (MsgGhFatal stderr))
          else if is_rate_limit_error stderr then
            let wait_time := rate_limit_wait attempt in
            log WARNING (LogGhRateLimit wait_time attempt retries) ;;
            sleep wait_time ;;
            run_gh_loop cmd retries remaining' (S attempt)
          else if network then
            let wait_time := network_wait attempt in
            log WARNING (LogGhNetworkRetry wait_time attempt retries stderr) ;;
            sleep wait_time ;;
            run_gh_loop cmd retries remaining' (S attempt)
          else
            let wait_time := generic_wait attempt in
            log WARNING (LogGhRetry wait_time attempt retries stderr) ;;
            sleep wait_time ;;
            run_gh_loop cmd retries remaining' (S attempt)
      end
  end.

Definition _run_gh (cmd : gh_cmd) (retries : nat) : M string :=
  run_gh_loop cmd retries retries 1%nat.


(* ================================================================== *)
(** ** The tracker client *)

(** [try: m  except Exception as e: ...] with the exception in hand. *)
Definition attempt {A} (m : M A) : M (result A) :=
  fun w =>
    match m w with
    | (Ok a, w') => (Ok (Success a), w')
    | (Raise e, w') => (Ok (Failure e), w')
    | (Diverge, w') => (Diverge, w')
    end.

Section WithJson.

(** [json.loads]: [None] stands for [json.JSONDecodeError]. *)
Variable json_loads : string -> option json.

Definition loads (output : string) : M json :=
  match json_loads output with
  | Some j => ret j
  | None => raise JSONDecodeError
  end.

(** [json.loads(output) if output else default]. *)
Definition loads_or (default : json) (output : string) : M json :=
  if PyStr.is_empty output then ret default else loads output.

Definition is_json_decode_error (e : exn) : bool :=
  match e with JSONDecodeError => true | _ => false end.

(** [GitHubClient.api_request]. *)
Definition api_request (method : string) (path : api_path) (headers : list string)
    (silent_fail : bool) : M json :=
  try_except
    (output <- _run_gh (GhApi path method headers) 3 ;;
     loads_or (JObj []) output)
    (fun exc =>
       if silent_fail then ret (JObj [])
       else (log WARNING (LogApiFailed exc) ;; raise exc)).

(** [GitHubClient.create_issue]: the number is the last segment of the
    URL that [gh issue create] prints. *)
Definition create_issue (title : string) (body : issue_text) : M Z :=
  output <- _run_gh (GhIssueCreate title body) 3 ;;
  match PyStr.to_int (last (PyStr.split "/" (PyStr.strip output)) EmptyString) with
  | Some issue_num =>
      if issue_num <=? 0 then raise (RuntimeError (MsgParseIssueNumber output))
      else ret issue_num
  | None => raise (RuntimeError (MsgParseIssueNumber output))
  end.

(** [GitHubClient.add_assignees]: the candidates in order, stopping at the
    first that succeeds. *)
Fixpoint add_assignees_from (issue_number : Z) (tried : nat) (assignees : list string)
    (last_error : option exn) : M unit :=
  match assignees with
  | [] =>
      match last_error with
      | Some e => raise (RuntimeError (MsgAssignAllFailed issue_number tried e))
      | None => ret tt
      end
  | assignee :: rest =>
      r <- attempt (_run_gh (GhIssueAddAssignee issue_number assignee) 3) ;;
      match r with
      | Success _ => ret tt
      | Failure e => add_assignees_from issue_number tried rest (Some e)
      end
  end.

Definition add_assignees (issue_number : Z) (assignees : list string) : M unit :=
  add_assignees_from issue_number (List.length assignees) assignees None.

(** [GitHubClient.remove_assignees]: every candidate, failures ignored. *)
Fixpoint remove_assignees (issue_number : Z) (assignees : list string) : M unit :=
  match assignees with
  | [] => ret tt
  | assignee :: rest =>
      _ <- attempt (_run_gh (GhIssueRemoveAssignee issue_number assignee) 3) ;;
      remove_assignees issue_number rest
  end.

Definition comment_issue (num : json) (body : issue_text) : M unit :=
  _ <- _run_gh (GhIssueComment num body) 3 ;; ret tt.

(** [GitHubClient.get_issue]. *)
Definition get_issue (issue_number : Z) : M json :=
  output <- _run_gh (GhIssueView issue_number) 3 ;;
  try_except (loads_or (JObj []) output)
    (fun e => if is_json_decode_error e then raise (RuntimeError MsgParseIssueData)
              else raise e).

(** [if old in data: data[new] = data.pop(old)]. *)
Definition rename_key (old new : string) (data : json) : result json :=
  rbind (Py.contains_str old data) (fun present =>
    if present then
      match data with
      | JObj l =>
          match Py.assoc old l with
          | Some v => Success (JObj (Py.set_key new v (Py.remove_key old l)))
          | None => Failure KeyError
          end
      | JStr _ => Failure AttributeError
      | _ => Failure TypeError
      end
    else Success data).

(** [GitHubClient.get_pull]. *)
Definition get_pull (pr_number : json) : M json :=
  output <- _run_gh (GhPrView pr_number) 3 ;;
  data <- try_except (loads_or (JObj []) output)
            (fun e => if is_json_decode_error e then raise (RuntimeError MsgParsePRData)
                      else raise e) ;;
  data <- lift (rename_key "mergedAt" "merged_at" data) ;;
  lift (rename_key "isDraft" "draft" data).

Definition merge_pull (pr_number : json) : M json :=
  _ <- _run_gh (GhPrMerge pr_number) 3 ;;
  ret (JObj [("merged", JBool true)]).

Definition close_pr (pr_number : json) (delete_branch : bool) : M unit :=
  _ <- _run_gh (GhPrClose pr_number delete_branch) 3 ;; ret tt.

(** [GitHubClient.list_closed_issues]. *)
Definition list_closed_issues (limit : Z) : M (list json) :=
  output <- _run_gh (GhIssueListClosed limit) 3 ;;
  try_except
    (issues <- loads_or (JArr []) output ;;
     ret (match issues with JArr l => l | _ => [] end))
    (fun e => if is_json_decode_error e then ret [] else raise e).

(** The loop of [find_issue_by_todo] over the listed issues.  Ticket
    numbers are in [Z]: an entry whose number is a JSON boolean, which
    Python's [isinstance(_, int)] accepts and [gh] never prints, is passed
    over here. *)
Fixpoint find_issue_scan (tag : string) (issues : list json) : result (option Z) :=
  match issues with
  | [] => Success None
  | issue :: rest =>
      if negb (Py.is_dict issue) then find_issue_scan tag rest
      else
        rbind (Py.get issue "title" (JStr "")) (fun title =>
        rbind (Py.get issue "number" JNull) (fun issue_num =>
        rbind (Py.contains_str tag title) (fun hit =>
          match hit, issue_num with
          | true, JNum n => Success (Some n)
          | _, _ => find_issue_scan tag rest
          end)))
  end.

(** [GitHubClient.find_issue_by_todo]. *)
Definition find_issue_by_todo (todo_id : string) : M (option Z) :=
  if (PyStr.is_empty todo_id || PyStr.is_empty (PyStr.strip todo_id))%bool then ret None
  else
    let tag := ("[" ++ todo_id ++ "]")%string in
    r <- attempt (_run_gh (GhIssueListOpen tag) 2) ;;
    match r with
    | Failure e => log WARNING (LogFindIssueFailed e) ;; ret None
    | Success output =>
        p <- attempt (loads_or (JArr []) output) ;;
        match p with
        | Failure JSONDecodeError => log WARNING LogFindIssueParse ;; ret None
        | Failure e => raise e
        | Success (JArr issues) => lift (find_issue_scan tag issues)
        | Success _ => log WARNING LogFindIssueNotList ;; ret None
        end
    end.

(** The loop of [latest_pr_from_timeline], newest event first. *)
Fixpoint latest_pr_scan (events : list json) : result json :=
  match events with
  | [] => Success JNull
  | event :: rest =>
      rbind (Py.get event "event" JNull) (fun kind =>
        if Py.eq_str kind "cross-referenced" then
          rbind (Py.get event "source" (JObj [])) (fun src =>
          rbind (Py.get src "issue" (JObj [])) (fun source =>
          rbind (Py.contains_str "pull_request" source) (fun linked =>
            if linked then Py.getitem source "number"
            else latest_pr_scan rest)))
        else latest_pr_scan rest)
  end.

(** [GitHubClient.latest_pr_from_timeline]; [JNull] is Python's [None]. *)
Definition latest_pr_from_timeline (issue_number : Z) : M json :=
  events <- api_request "GET" (IssueTimeline (JNum issue_number))
              [TIMELINE_ACCEPT_HEADER] true ;;
  match events with
  | JArr l => lift (latest_pr_scan (rev l))
  | _ => ret JNull
  end.

(** The text of an exception as far as [mark_pr_ready] looks into it:
    the stderr a failed command reported.  The message of a time-out holds
    the arguments of the command, the repository name among them, which
    the model does not carry; its text is taken as empty. *)
Definition exn_text (e : exn) : string :=
  match e with
  | RuntimeError (MsgGhFailed stderr) => stderr
  | RuntimeError (MsgGhFatal stderr) => stderr
  | _ => EmptyString
  end.

(** [GitHubClient.mark_pr_ready]: never raises. *)
Definition mark_pr_ready (pr_number : json) : M unit :=
  r <- attempt (_run_gh (GhPrReady pr_number) 3) ;;
  match r with
  | Success _ => ret tt
  | Failure e =>
      let error_msg := PyStr.lower (exn_text e) in
      if (PyStr.contains "already" error_msg || PyStr.contains "not a draft" error_msg)%bool
      then ret tt
      else log WARNING (LogMarkReadyFailed pr_number e)
  end.

(* ------------------------------------------------------------------ *)
(** ** check_copilot_signal *)

(** The loop over the events, newest first. *)
Fixpoint signal_scan (events : list json) : result bool :=
  match events with
  | [] => Success false
  | event :: rest =>
      rbind (Py.get event "event" JNull) (fun kind =>
        if Py.eq_str kind "copilot_work_finished" then Success true
        else signal_scan rest)
  end.

Definition check_copilot_signal (pr_number : json) : M bool :=
  events <- api_request "GET" (IssueTimeline pr_number) [TIMELINE_ACCEPT_HEADER] true ;;
  match events with
  | JArr l => lift (signal_scan (rev l))
  | _ => ret false
  end.

(* ================================================================== *)
(** ** Pipeline *)

(** The [argparse.Namespace] the pipeline reads. *)
Record Args : Type := mkArgs {
  poll_interval : Z;
  issue_max_wait : Z;
  issue_batch_size : Z;
  task_max_retries : Z;
  task_retry_wait : Z;
  dry_run : bool;
  from_beginning : bool
}.

(** [Pipeline(github, args)]; [github] tells whether a client is present. *)
Record Pipeline : Type := mkPipeline {
  github : bool;
  args : Args
}.

(** [Pipeline._require_github]. *)
Definition _require_github (self : Pipeline) : M unit :=
  if github self then ret tt else raise (RuntimeError MsgNoGithub).

(** [(assignee.get("login") or "").lower()]. *)
Definition login_of (assignee : json) : result string :=
  rbind (Py.get assignee "login" JNull) (fun v =>
    if Py.truthy v then
      match v with
      | JStr s => Success (PyStr.lower s)
      | _ => Failure AttributeError
      end
    else Success EmptyString).

Fixpoint logins_of (assignees : list json) : result (list string) :=
  match assignees with
  | [] => Success []
  | assignee :: rest =>
      if Py.truthy assignee then
        rbind (login_of assignee) (fun s =>
        rbind (logins_of rest) (fun t => Success (s :: t)))
      else logins_of rest
  end.

(** The set comprehension over [issue_data.get("assignees", [])]. *)
Definition assignee_logins (issue_data : json) : result (list string) :=
  rbind (Py.get issue_data "assignees" (JArr [])) (fun v =>
  rbind (Py.iter v) logins_of).

Definition mem_string (s : string) (l : list string) : bool :=
  existsb (String.eqb s) l.

(** [f"[{item.id_full}] {item.title}"]. *)
Definition issue_title (item : WorkItem) : string :=
  ("[" ++ id_full item ++ "] " ++ title item)%string.

(** The [try] block of [_ensure_issue] for an issue found on line:
    [Some n] when the block returns [n], [None] when it falls through. *)
Definition reuse_issue (existing : Z) : M (option Z) :=
  issue_data <- get_issue existing ;;
  state <- lift (Py.get issue_data "state" JNull) ;;
  if Py.eq_str state "open" then
    assignees <- lift (assignee_logins issue_data) ;;
    (if negb (mem_string COPILOT_USERNAME assignees)
     then add_assignees existing COPILOT_ASSIGNEES
     else ret tt) ;;
    ret (Some existing)
  else
    log WARNING (LogIssueNotOpen existing state) ;;
    ret None.

(** The tail of [_ensure_issue]: create a ticket and assign the agent. *)
Definition create_and_assign (item : WorkItem) : M Z :=
  issue_num <- create_issue (issue_title item) (FullIssueBody item) ;;
  try_except (add_assignees issue_num COPILOT_ASSIGNEES)
    (fun e =>
       log ERROR (LogAssignFailed issue_num e) ;;
       log ERROR LogAssignFailedHint ;;
       raise (RuntimeError (MsgAssignTrigger issue_num e))) ;;
  ret issue_num.

(** [Pipeline._ensure_issue]. *)
Definition _ensure_issue (self : Pipeline) (item : WorkItem) : M Z :=
  if dry_run (args self) then ret 0
  else
    _require_github self ;;
    existing <- find_issue_by_todo (id_full item) ;;
    match existing with
    | Some n =>
        if n =? 0 then create_and_assign item
        else
          r <- attempt (reuse_issue n) ;;
          match r with
          | Success (Some issue_num) => ret issue_num
          | Success None => create_and_assign item
          | Failure e =>
              log WARNING (LogIssueDetailsFailed n e) ;;
              create_and_assign item
          end
    | None => create_and_assign item
    end.

(** [Pipeline._reset_issue]. *)
Definition _reset_issue (issue_num : Z) : M unit :=
  try_except
    (issue_data <- get_issue issue_num ;;
     state <- lift (Py.get issue_data "state" JNull) ;;
     if Py.eq_str state "closed" then
       log WARNING (LogResetSkipClosed issue_num)
     else
       assignees <- lift (assignee_logins issue_data) ;;
       (if mem_string COPILOT_USERNAME assignees then
          remove_assignees issue_num COPILOT_ASSIGNEES ;;
          sleep 2
        else ret tt) ;;
       add_assignees issue_num COPILOT_ASSIGNEES)
    (fun e => log ERROR (LogResetFailed e) ;; raise e).

(* ------------------------------------------------------------------ *)
(** *** _wait_and_merge *)

(** The local variables of [_wait_and_merge]. *)
Record attempt_state : Type := mkAttempt {
  reset_count : Z;
  issue_start_time : Z;
  wait_start_time : Z;
  pr_create_time : option Z;
  current_pr : json;
  last_heartbeat : Z
}.

(** How one pass through the body of [while True] ends. *)
Inductive loop_ctl : Type :=
| Continue (st : attempt_state)   (* [continue], or the end of the body *)
| Return.                         (* [return] *)

Section Monitor.

(** [DEFAULT_MAX_PR_RESETS], kept as a variable of the loop. *)
Variable max_pr_resets : Z.
Variable self : Pipeline.
Variable issue_num : Z.

(** The four places of the loop that reset the ticket. *)
Definition after_reset (st : attempt_state) (keep_pr : bool) : M loop_ctl :=
  t <- time ;;
  sleep RESET_WAIT_TIME ;;
  ret (Continue
         (mkAttempt (reset_count st + 1) (issue_start_time st) t
            (if keep_pr then pr_create_time st else None)
            (if keep_pr then current_pr st else JNull)
            (last_heartbeat st))).

(** The heartbeat and the sleep that end a pass. *)
Definition end_of_pass (st : attempt_state) : M loop_ctl :=
  current_time <- time ;;
  let st' :=
    if current_time - last_heartbeat st >=? HEARTBEAT_INTERVAL
    then mkAttempt (reset_count st) (issue_start_time st) (wait_start_time st)
           (pr_create_time st) (current_pr st) current_time
    else st in
  sleep (poll_interval (args self)) ;;
  ret (Continue st').

(** [if pr_create_time:] on an optional time stamp. *)
Definition time_truthy (t : option Z) : bool :=
  match t with
  | Some v => negb (v =? 0)
  | None => false
  end.

(** The time stamp behind [pr_create_time] once it is known to be set. *)
Definition stamp (t : option Z) : Z :=
  match t with
  | Some c => c
  | None => 0
  end.

(** Condition 2 of the loop: the change-request has aged past
    [PR_TIMEOUT]. *)
Definition pr_timeout_check (st : attempt_state) (pr_num : json) : M loop_ctl :=
  if time_truthy (pr_create_time st) then
    t <- time ;;
    let elapsed := t - stamp (pr_create_time st) in
    if elapsed >? PR_TIMEOUT then
      if reset_count st >=? max_pr_resets then
        log ERROR (LogPRTimeoutLimit pr_num) ;;
        raise (RuntimeError (MsgPRTimeoutResetLimit issue_num))
      else
        log WARNING (LogPRTimeoutReset pr_num (reset_count st + 1)) ;;
        try_except
          (comment_issue pr_num (TimeoutComment issue_num (reset_count st + 1)) ;;
           close_pr pr_num true)
          (fun e => log WARNING (LogClosePRFailed e)) ;;
        _reset_issue issue_num ;;
        after_reset st false
    else end_of_pass st
  else end_of_pass st.

(** Condition 1 of the loop, once the signal has been seen: promote the
    change-request and merge it. *)
Definition promote (pr_num : json) : M unit :=
  try_except (mark_pr_ready pr_num ;; sleep PR_READY_WAIT) (fun _ => ret tt).

(** The second look after a failed merge: [true] when the change-request
    turns out merged; a failure of the look counts as not merged. *)
Definition recheck_merged (pr_num : json) : M bool :=
  try_except
    (pr_status <- get_pull pr_num ;;
     m <- lift (Py.get pr_status "merged_at" JNull) ;;
     ret (Py.truthy m))
    (fun _ => ret false).

Definition signal_path (st : attempt_state) (pr_num : json) : M loop_ctl :=
  promote pr_num ;;
  r <- attempt (merge_pull pr_num) ;;
  match r with
  | Success _ => ret Return
  | Failure e =>
      merged <- recheck_merged pr_num ;;
      if merged then ret Return
      else
        log ERROR (LogMergeFailed pr_num e) ;;
        if reset_count st >=? max_pr_resets then
          raise (RuntimeError (MsgMergeResetLimit issue_num e))
        else
          log WARNING (LogMergeReset (reset_count st + 1)) ;;
          try_except
            (comment_issue pr_num (MergeFailComment issue_num e (reset_count st + 1)) ;;
             close_pr pr_num true)
            (fun _ => ret tt) ;;
          _reset_issue issue_num ;;
          after_reset st false
  end.

(** [if current_pr != pr_num: current_pr = pr_num; pr_create_time = time.time()]. *)
Definition track_pr (st : attempt_state) (pr_num : json) (t : Z) : attempt_state :=
  if negb (Py.eqb (current_pr st) pr_num)
  then mkAttempt (reset_count st) (issue_start_time st) (wait_start_time st)
         (Some t) pr_num (last_heartbeat st)
  else st.

(** The [if pr_num:] block. *)
Definition pr_block (st : attempt_state) (pr_num : json) : M loop_ctl :=
  t <- time ;;
  let st := track_pr st pr_num t in
  r <- attempt (get_pull pr_num) ;;
  match r with
  | Failure e =>
      log WARNING (LogPRStateFailed e) ;;
      sleep RETRY_SLEEP_SHORT ;;
      ret (Continue st)
  | Success pr =>
      merged_at <- lift (Py.get pr "merged_at" JNull) ;;
      if Py.truthy merged_at then ret Return
      else
        state <- lift (Py.get pr "state" JNull) ;;
        if Py.eq_str state "closed" then
          log WARNING (LogPRClosedUnmerged pr_num) ;;
          if reset_count st >=? max_pr_resets then
            raise (RuntimeError (MsgPRClosedResetLimit issue_num))
          else
            log WARNING (LogResetFlow (reset_count st + 1)) ;;
            _reset_issue issue_num ;;
            after_reset st false
        else
          signaled <- check_copilot_signal pr_num ;;
          if signaled then signal_path st pr_num
          else pr_timeout_check st pr_num
  end.

(** The [if not pr_num:] block: no change-request is linked yet. *)
Definition no_pr_block (st : attempt_state) : M loop_ctl :=
  t <- time ;;
  let elapsed_since_start := t - wait_start_time st in
  if elapsed_since_start >? PR_WAIT_TIMEOUT then
    if reset_count st >=? max_pr_resets then
      raise (RuntimeError (MsgNoPRResetLimit issue_num))
    else
      log WARNING (LogNoPRReset (reset_count st + 1)) ;;
      _reset_issue issue_num ;;
      after_reset st true
  else end_of_pass st.

(** The [try] block that reads the ticket: [true] when it returns. *)
Definition issue_closed_check (st : attempt_state) : M bool :=
  issue_data <- get_issue issue_num ;;
  issue_state <- lift (Py.get issue_data "state" JNull) ;;
  if Py.eq_str issue_state "closed" then
    log INFO (LogIssueClosed issue_num) ;;
    (if negb (Py.truthy (current_pr st))
     then log WARNING (LogClosedNoPR issue_num)
     else ret tt) ;;
    ret true
  else ret false.

(** One pass through the body of [while True]. *)
Definition tick (st : attempt_state) : M loop_ctl :=
  t <- time ;;
  let elapsed_total := t - issue_start_time st in
  if elapsed_total >=? issue_max_wait (args self) then
    raise (RuntimeError (MsgIssueTimeout issue_num (issue_max_wait (args self))))
  else
    r <- attempt (issue_closed_check st) ;;
    match r with
    | Failure e =>
        log WARNING (LogIssueStateFailed e) ;;
        sleep RETRY_SLEEP_SHORT ;;
        ret (Continue st)
    | Success true => ret Return
    | Success false =>
        r <- attempt (latest_pr_from_timeline issue_num) ;;
        match r with
        | Failure e =>
            log WARNING (LogGetPRFailed e) ;;
            sleep RETRY_SLEEP_SHORT ;;
            ret (Continue st)
        | Success pr_num =>
            if negb (Py.truthy pr_num) then no_pr_block st
            else pr_block st pr_num
        end
    end.

(** [while True: ...], with [fuel] passes at most.  The final state is
    returned for the statements below; Python returns [None]. *)
Fixpoint wait_loop (fuel : nat) (st : attempt_state) : M attempt_state :=
  match fuel with
  | O => fun w => (Diverge, w)
  | S fuel' =>
      c <- tick st ;;
      match c with
      | Return => ret st
      | Continue st' => wait_loop fuel' st'
      end
  end.

(** The state [_wait_and_merge] starts its loop in. *)
Definition initial_state (t : Z) : attempt_state :=
  mkAttempt 0 t t None JNull t.

Definition monitor (fuel : nat) : M attempt_state :=
  if dry_run (args self) then
    t <- time ;; ret (initial_state t)
  else
    _require_github self ;;
    t <- time ;;
    wait_loop fuel (initial_state t).

End Monitor.

(** [Pipeline._wait_and_merge]. *)
Definition _wait_and_merge (fuel : nat) (self : Pipeline) (item : WorkItem)
    (issue_num : Z) : M unit :=
  _ <- monitor DEFAULT_MAX_PR_RESETS self issue_num fuel ;; ret tt.


(* ------------------------------------------------------------------ *)
(** *** Pipeline.run *)

Section Run.

(** Passes allowed to each monitoring loop. *)
Variable fuel : nat.
Variable self : Pipeline.

Definition max_task_retries : Z := Z.max 1 (task_max_retries (args self)).
Definition base_retry_wait : Z := Z.max 1 (task_retry_wait (args self)).

(** [base_retry_wait * (2 ** (attempt - 1))]. *)
Definition retry_wait_time (attempt_no : Z) : Z := base_retry_wait * 2 ^ (attempt_no - 1).

(** The wait before the last attempt, the longest of a retry loop; with
    one attempt nothing is waited. *)
Definition longest_retry_wait : Z :=
  if max_task_retries <=? 1 then 0 else retry_wait_time (max_task_retries - 1).

(** The [try] block of the retry loop: one whole attempt at an item. *)
Definition attempt_item (item : WorkItem) : M unit :=
  issue_num <- _ensure_issue self item ;;
  if negb (dry_run (args self)) then _wait_and_merge fuel self item issue_num
  else ret tt.

(** [for attempt in range(1, max_task_retries + 1)], from [attempt_no]
    on: [Some (id, e)] when the item is given up, [None] when an attempt
    succeeded. *)
Fixpoint retry_loop (i total : Z) (item : WorkItem) (remaining : nat) (attempt_no : Z)
  : M (option (string * exn)) :=
  match remaining with
  | O => ret None
  | S remaining' =>
      r <- attempt (attempt_item item) ;;
      match r with
      | Success _ => ret None
      | Failure e =>
          log ERROR (LogItemFailed i total (id_full item) attempt_no max_task_retries e) ;;
          if attempt_no <? max_task_retries then
            let wait_time := retry_wait_time attempt_no in
            log WARNING (LogRetryWait wait_time) ;;
            sleep wait_time ;;
            retry_loop i total item remaining' (attempt_no + 1)
          else
            log ERROR (LogItemFinalFail i total (id_full item)) ;;
            log ERROR (LogItemException e) ;;
            ret (Some (id_full item, e))
      end
  end.

(** [for i, item in enumerate(items_list, 1)]; [failed_items] grows at its
    end. *)
Fixpoint process_items (i total : Z) (items : list WorkItem)
    (failed_items : list (string * exn)) : M (list (string * exn)) :=
  match items with
  | [] => ret failed_items
  | item :: rest =>
      r <- retry_loop i total item (Z.to_nat max_task_retries) 1 ;;
      process_items (i + 1) total rest
        (match r with
         | Some f => failed_items ++ [f]
         | None => failed_items
         end)
  end.

Fixpoint report_items (failed_items : list (string * exn)) : M unit :=
  match failed_items with
  | [] => ret tt
  | (task_id, error) :: rest =>
      log ERROR (LogFailedItem task_id error) ;;
      report_items rest
  end.

(** The report that ends [run]. *)
Definition report_failures (failed_items : list (string * exn)) : M unit :=
  match failed_items with
  | [] => ret tt
  | _ =>
      log ERROR (LogFailedCount (List.length failed_items)) ;;
      report_items failed_items ;;
      log ERROR LogManualHint
  end.

(** [Pipeline.run].  Python returns [None]; the list of failures the
    function has built is returned here. *)
Definition run (items : list WorkItem) : M (list (string * exn)) :=
  let total := Z.of_nat (List.length items) in
  if total =? 0 then ret []
  else
    failed_items <- process_items 1 total items [] ;;
    report_failures failed_items ;;
    ret failed_items.

End Run.

(* ================================================================== *)
(** ** The stage scanner *)

(** The scanner reads text: file names and the lines of the files.  A
    string holds the bytes of the text, in UTF-8 for a character outside
    ASCII.  Where Python classifies characters ([str.strip], [\s], [\d],
    [int]) the definitions below follow it on ASCII, and the statements
    that depend on the classification are made for ASCII text. *)

(** What [path.read_text()] finds. *)
Inductive file_state : Type :=
| FileMissing                         (* not path.exists() *)
| NotAFile                            (* not path.is_file() *)
| Unreadable                          (* read_text raised *)
| FileLines (lines : list string).    (* read_text(...).splitlines() *)

Record stage_file : Type := mkStageFile {
  sf_name : string;
  sf_state : file_state
}.

(** What [todo_root] is; [Dir] lists [todo_root.glob("Stage-*.todos.md")]. *)
Inductive dir_state : Type :=
| DirMissing
| NotADir
| Dir (files : list stage_file).

Fixpoint strip_prefix (p s : string) : option string :=
  match p, s with
  | EmptyString, _ => Some s
  | String a p', String b s' => if Ascii.eqb a b then strip_prefix p' s' else None
  | _, EmptyString => None
  end.

Fixpoint span_chars (f : ascii -> bool) (s : string) : string * string :=
  match s with
  | EmptyString => (EmptyString, EmptyString)
  | String c t =>
      if f c then let (a, b) := span_chars f t in (String c a, b)
      else (EmptyString, s)
  end.

Definition ends_with (suffix s : string) : bool :=
  let n := String.length s in
  let k := String.length suffix in
  ((k <=? n)%nat && String.eqb (String.substring (n - k) k s) suffix)%bool.

(** The line feed, the one character [.] does not match. *)
Definition LF : ascii := "010"%char.

Fixpoint has_newline (s : string) : bool :=
  match s with
  | EmptyString => false
  | String c t => (Ascii.eqb c LF || has_newline t)%bool
  end.

(** What [$] leaves between the match and the end of the text: nothing,
    or one final line feed. *)
Fixpoint chop_newline (s : string) : string :=
  match s with
  | EmptyString => EmptyString
  | String c t =>
      match t with
      | EmptyString => if Ascii.eqb c LF then EmptyString else s
      | _ => String c (chop_newline t)
      end
  end.

(** [(.+)$] from the start of [s]: the group. *)
Definition dot_plus_end (s : string) : option string :=
  let t := chop_newline s in
  if (PyStr.is_empty t || has_newline t)%bool then None else Some t.

(** [STAGE_FILE_PATTERN.match(name)] followed by [int(match.group(1))]:
    [^Stage-(\d+)_(.+)\.todos\.md$]. *)
Definition stage_file_match (name : string) : option Z :=
  match strip_prefix "Stage-" name with
  | None => None
  | Some r =>
      let (ds, rest) := span_chars PyStr.is_digit r in
      match ds, rest with
      | String _ _, String "_" tail =>
          let tail' := chop_newline tail in
          if (ends_with ".todos.md" tail' && (9 <? String.length tail')%nat
              && negb (has_newline tail'))%bool
          then PyStr.digits 0 false ds
          else None
      | _, _ => None
      end
  end.

Definition extract_stage_number_from_filename (name : string) : result Z :=
  match stage_file_match name with
  | Some n => Success n
  | None => Failure ValueError
  end.

(** The leading [\s], one or more ([plus]) or any number. *)
Definition skip_spaces (plus : bool) (s : string) : option string :=
  let (sp, rest) := span_chars PyStr.is_space s in
  if (plus && PyStr.is_empty sp)%bool then None else Some rest.

Fixpoint until_close (s : string) : option (string * string) :=
  match s with
  | EmptyString => None
  | String c t =>
      if Ascii.eqb c "]" then Some (EmptyString, t)
      else match until_close t with
           | Some (a, b) => Some (String c a, b)
           | None => None
           end
  end.

(** [\s*(.+)$]: the greedy run of white space gives characters back
    until [(.+)$] matches. *)
Fixpoint spaces_title (s : string) : option string :=
  match s with
  | EmptyString => None
  | String c t =>
      if PyStr.is_space c then
        match spaces_title t with
        | Some ttl => Some ttl
        | None => dot_plus_end s
        end
      else dot_plus_end s
  end.

(** [\s+(.+)$]. *)
Definition spaces_plus_title (s : string) : option string :=
  match s with
  | EmptyString => None
  | String c t => if PyStr.is_space c then spaces_title t else None
  end.

(** [TODO_LINE_PATTERN.match(line)]: the groups status, todo_id and
    title of
    [^###\s+-\s*\[([ xX])\]\s+\[([^\]]+?)\]\s+(.+)$]. *)
Definition todo_line_match (line : string) : option (ascii * string * string) :=
  match strip_prefix "###" line with
  | None => None
  | Some r =>
  match skip_spaces true r with
  | Some (String "-" r) =>
  match skip_spaces false r with
  | Some (String "[" (String status (String "]" r))) =>
      if (Ascii.eqb status " " || Ascii.eqb status "x" || Ascii.eqb status "X")%bool then
        match skip_spaces true r with
        | Some (String "[" r) =>
            match until_close r with
            | Some (String c todo_id, r) =>
                match spaces_plus_title r with
                | Some ttl => Some (status, String c todo_id, ttl)
                | None => None
                end
            | _ => None
            end
        | _ => None
        end
      else None
  | _ => None
  end
  | _ => None
  end
  end.

Definition is_todo_line (line : string) : bool :=
  match todo_line_match line with Some _ => true | None => false end.

(** A line that ends the block of a TODO: the next TODO, or a group
    header. *)
Definition is_boundary (line : string) : bool :=
  (is_todo_line line ||
   (String.prefix "##" (PyStr.strip line) && PyStr.contains "Group" line))%bool.

Fixpoint span_meta (lines : list string) : list string * list string :=
  match lines with
  | [] => ([], [])
  | l :: r =>
      if is_boundary l then ([], lines)
      else let (m, rest) := span_meta r in (l :: m, rest)
  end.

Definition is_filler (line : string) : bool :=
  (PyStr.is_empty (PyStr.strip line) || String.eqb (PyStr.strip line) "---")%bool.

Fixpoint drop_filler (rev_meta : list string) : list string :=
  match rev_meta with
  | [] => []
  | l :: r => if is_filler l then drop_filler r else rev_meta
  end.

(** [while meta and (...): meta.pop()]. *)
Definition trim_meta (meta : list string) : list string := rev (drop_filler (rev meta)).

(** The [while idx < total_lines] loop over the lines from [idx] on. *)
Fixpoint parse_loop (fuel : nat) (stage_num : Z) (path : string) (lines : list string)
  : list TodoItem :=
  match fuel with
  | O => []
  | S fuel' =>
      match lines with
      | [] => []
      | line :: rest =>
          match todo_line_match line with
          | None => parse_loop fuel' stage_num path rest
          | Some (status, todo_id, ttl) =>
              let (meta, rest') := span_meta rest in
              if Ascii.eqb (PyStr.lower_ascii status) "x" then
                parse_loop fuel' stage_num path rest'
              else
                mkTodoItem (PyStr.strip todo_id) stage_num (PyStr.strip ttl)
                  (trim_meta meta) path
                :: parse_loop fuel' stage_num path rest'
          end
      end
  end.

(** [parse_stage_structure]. *)
Definition parse_stage_structure (f : stage_file) : result (Z * list TodoItem) :=
  rbind (extract_stage_number_from_filename (sf_name f)) (fun stage_num =>
    match sf_state f with
    | FileLines lines =>
        Success (stage_num, parse_loop (List.length lines) stage_num (sf_name f) lines)
    | _ => Success (stage_num, [])
    end).

(** [stage_file_sort_key], and the order of its tuples. *)
Definition key_leb (a b : Z * string) : bool :=
  ((fst a <? fst b) || ((fst a =? fst b) && String.leb (snd a) (snd b)))%bool.

Fixpoint insert_by_key (x : (Z * string) * stage_file) (l : list ((Z * string) * stage_file))
  : list ((Z * string) * stage_file) :=
  match l with
  | [] => [x]
  | y :: r => if key_leb (fst x) (fst y) then x :: l else y :: insert_by_key x r
  end.

Fixpoint keyed (files : list stage_file) : result (list ((Z * string) * stage_file)) :=
  match files with
  | [] => Success []
  | f :: r =>
      rbind (extract_stage_number_from_filename (sf_name f)) (fun n =>
      rbind (keyed r) (fun t => Success (((n, sf_name f), f) :: t)))
  end.

(** [sorted(files, key=stage_file_sort_key)]: stable, and a [ValueError]
    when a name does not parse. *)
Definition sorted_files (files : list stage_file) : result (list stage_file) :=
  rbind (keyed files) (fun ks =>
    Success (map snd (fold_right insert_by_key [] ks))).

(** [[todos[i:i + n] for i in range(0, len(todos), n)]]. *)
Fixpoint chunks {A} (fuel : nat) (n : nat) (l : list A) : list (list A) :=
  match fuel with
  | O => []
  | S fuel' =>
      match l with
      | [] => []
      | _ => firstn n l :: chunks fuel' n (skipn n l)
      end
  end.

Definition dec (n : Z) : string := NilZero.string_of_int (Z.to_int n).

(** [f"{n:02d}"]. *)
Definition dec2 (n : Z) : string :=
  let s := dec n in
  if (String.length s <? 2)%nat then ("0" ++ s)%string else s.

(** [path.stem] of a name that ends in [.md]. *)
Definition stem (name : string) : string :=
  String.substring 0 (String.length name - 3) name.

(** The longest name a file has, in bytes. *)
Definition NAME_MAX : nat := 255.

(** A stage file of ASCII text: its name, which is a file name, and,
    where the file is read, its lines. *)
Definition ascii_file (f : stage_file) : bool :=
  (PyStr.is_ascii (sf_name f) && (String.length (sf_name f) <=? NAME_MAX)%nat &&
   match sf_state f with
   | FileLines lines => forallb PyStr.is_ascii lines
   | _ => true
   end)%bool.

(** The work items of the batches, numbered from [i]. *)
Fixpoint stage_items_from (stage_num : Z) (path : string) (nbatches : nat) (i : Z)
    (batches : list (list TodoItem)) : list WorkItem :=
  match batches with
  | [] => []
  | batch :: rest =>
      (match batch with
       | [t] => mkWorkItem (todo_id_full t) stage_num (todo_title t) path batch None None
       | _ =>
           let wid := ("S" ++ dec2 stage_num ++ "-BATCH-" ++ dec2 i)%string in
           let ttl := (stem path ++ " 批次 " ++ dec i ++ "/" ++ dec (Z.of_nat nbatches))%string in
           mkWorkItem wid stage_num ttl path batch (Some i) (Some (Z.of_nat nbatches))
       end) :: stage_items_from stage_num path nbatches (i + 1) rest
  end.

(** Whether the filter of [iter_work_items] keeps the item. *)
Definition pending (completed_ids : list string) (item : WorkItem) : bool :=
  if mem_string (id_full item) completed_ids then false
  else if (is_batch item &&
           forallb (fun todo => mem_string (todo_id_full todo) completed_ids) (todos item))%bool
       then false
       else true.

Definition stage_work_items (batch_size : nat) (stage_num : Z) (path : string)
    (todo_list : list TodoItem) : list WorkItem :=
  let batches := chunks (List.length todo_list) batch_size todo_list in
  stage_items_from stage_num path (List.length batches) 1 batches.

(** [for path in files], the files already in order. *)
Fixpoint scan_files (batch_size : nat) (completed_ids : list string) (files : list stage_file)
  : result (list WorkItem) :=
  match files with
  | [] => Success []
  | f :: rest =>
      rbind (parse_stage_structure f) (fun p =>
        let (stage_num, todo_list) := p in
        match todo_list with
        | [] => scan_files batch_size completed_ids rest
        | _ =>
            let filtered_items :=
              filter (pending completed_ids)
                (stage_work_items batch_size stage_num (sf_name f) todo_list) in
            match filtered_items with
            | [] => scan_files batch_size completed_ids rest
            | _ => Success filtered_items
            end
        end)
  end.

(** [iter_work_items]. *)
Definition iter_work_items (todo_root : dir_state) (batch_size : Z)
    (completed_ids : list string) : result (list WorkItem) :=
  match todo_root with
  | DirMissing => Success []
  | NotADir => Success []
  | Dir files =>
      rbind (sorted_files files) (fun ordered =>
        scan_files (Z.to_nat (Z.max 1 batch_size)) completed_ids ordered)
  end.


(* ================================================================== *)
(** ** Progress scan and main *)

(** [re.search(r"\[([^\]]+?)\]", title)]: group 1 of the leftmost match. *)
Fixpoint bracket_search (s : string) : option string :=
  match s with
  | EmptyString => None
  | String c t =>
      if Ascii.eqb c "[" then
        match until_close t with
        | Some (String d inner, _) => Some (String d inner)
        | _ => bracket_search t
        end
      else bracket_search t
  end.

(** The loop of [get_recent_completed_todos] over the closed issues. *)
Fixpoint completed_scan (issues : list json) (completed : list string) : result (list string) :=
  match issues with
  | [] => Success completed
  | issue :: rest =>
      if negb (Py.is_dict issue) then completed_scan rest completed
      else
        rbind (Py.get issue "title" (JStr "")) (fun ttl =>
          if negb (Py.truthy ttl) then completed_scan rest completed
          else
            match ttl with
            | JStr t =>
                match bracket_search t with
                | Some g =>
                    let todo_id := PyStr.strip g in
                    if PyStr.is_empty todo_id then completed_scan rest completed
                    else completed_scan rest (completed ++ [todo_id])
                | None => completed_scan rest completed
                end
            | _ => Failure TypeError
            end)
  end.

(** [Pipeline.get_recent_completed_todos]: the set as a list. *)
Definition get_recent_completed_todos (self : Pipeline) (limit : Z) : M (list string) :=
  if negb (github self) then ret []
  else
    try_except
      (_require_github self ;;
       issues <- list_closed_issues limit ;;
       match issues with
       | [] => ret []
       | _ => lift (completed_scan issues [])
       end)
      (fun e =>
         if is_json_decode_error e then ret []
         else (log WARNING (LogCompletedFailed e) ;; ret [])).

(** What [main] finds outside the tracker. *)
Record Setup : Type := mkSetup {
  repo_arg : string;                 (* --repo, empty when absent *)
  repo_detected : bool;              (* resolve_repo() succeeds *)
  gh_installed : bool;               (* shutil.which("gh") *)
  core_documents_ok : bool;          (* ensure_core_documents() succeeds *)
  todo_root : nat -> dir_state       (* the todo directory at each round *)
}.

Section Main.

Variable fuel : nat.
Variable a : Args.
Variable s : Setup.

(** The [try] block inside [while True]: [true] stands for [break]. *)
Definition main_round (self : Pipeline) (iteration : nat) : M bool :=
  completed_ids <-
    (if from_beginning a then ret [] else get_recent_completed_todos self 1000) ;;
  work_items <- lift (iter_work_items (todo_root s iteration) (issue_batch_size a)
                        completed_ids) ;;
  match work_items with
  | [] =>
      if negb (dry_run a) then (sleep (poll_interval a) ;; ret false)
      else ret true
  | _ =>
      _ <- run fuel self work_items ;;
      ret (dry_run a)
  end.

(** [while True: ...] of [main], [iteration] being the number of rounds
    done. *)
Fixpoint main_loop (loop_fuel : nat) (self : Pipeline) (iteration : nat) : M unit :=
  match loop_fuel with
  | O => fun w => (Diverge, w)
  | S loop_fuel' =>
      r <- attempt (main_round self (S iteration)) ;;
      match r with
      | Success true => ret tt
      | Success false => main_loop loop_fuel' self (S iteration)
      | Failure e =>
          log ERROR (LogPipelineError (S iteration) e) ;;
          if dry_run a then raise e
          else (sleep MAIN_ERROR_WAIT ;; main_loop loop_fuel' self (S iteration))
      end
  end.

(** The outer [try] of [main]. *)
Definition main_body (loop_fuel : nat) : M Z :=
  try_except
    ((if dry_run a then ret tt
      else if gh_installed s then ret tt
           else raise (RuntimeError MsgNoGhCli)) ;;
     (if core_documents_ok s then ret tt else raise OSError) ;;
     main_loop loop_fuel (mkPipeline (negb (dry_run a)) a) O ;;
     ret 0)
    (fun e => log ERROR (LogFatal e) ;; ret 1).

(** [main], after [parse_args]. *)
Definition main (loop_fuel : nat) : M Z :=
  if poll_interval a <? 1 then (log ERROR LogBadPollInterval ;; ret 1)
  else if issue_max_wait a <? 60 then (log ERROR LogBadIssueMaxWait ;; ret 1)
  else if issue_batch_size a <? 1 then (log ERROR LogBadBatchSize ;; ret 1)
  else if task_max_retries a <? 1 then (log ERROR LogBadMaxRetries ;; ret 1)
  else if negb (PyStr.is_empty (repo_arg s)) then
    if negb (PyStr.contains "/" (repo_arg s)) then (log ERROR LogBadRepoFormat ;; ret 1)
    else main_body loop_fuel
  else if repo_detected s then main_body loop_fuel
  else if dry_run a then
    (log WARNING (LogDryRunNoRepo (RuntimeError MsgNoRepo)) ;; main_body loop_fuel)
  else raise (RuntimeError MsgNoRepo).

(** The status the process ends with: an exception that leaves [main]
    ends the interpreter with status 1. *)
Definition exit_status (r : outcome Z) : option Z :=
  match r with
  | Ok code => Some code
  | Raise _ => Some 1
  | Diverge => None
  end.

End Main.

(* ================================================================== *)
(** * Properties *)

(** ** Unfolding the monad *)

Lemma bind_unfold {A B} (m : M A) (k : A -> M B) (w : world) :
  bind m k w =
  match m w with
  | (Ok a, w') => k a w'
  | (Raise e, w') => (Raise e, w')
  | (Diverge, w') => (Diverge, w')
  end.
Proof. reflexivity. Qed.

Lemma bind_ok {A B} (m : M A) (k : A -> M B) w a w' :
  m w = (Ok a, w') -> bind m k w = k a w'.
Proof. intros H. rewrite bind_unfold, H. reflexivity. Qed.

Lemma bind_raise {A B} (m : M A) (k : A -> M B) w e w' :
  m w = (Raise e, w') -> bind m k w = (Raise e, w').
Proof. intros H. rewrite bind_unfold, H. reflexivity. Qed.

Lemma bind_diverge {A B} (m : M A) (k : A -> M B) w w' :
  m w = (Diverge, w') -> bind m k w = (Diverge, w').
Proof. intros H. rewrite bind_unfold, H. reflexivity. Qed.

Lemma attempt_unfold {A} (m : M A) (w : world) :
  attempt m w =
  match m w with
  | (Ok a, w') => (Ok (Success a), w')
  | (Raise e, w') => (Ok (Failure e), w')
  | (Diverge, w') => (Diverge, w')
  end.
Proof. reflexivity. Qed.

Lemma try_except_unfold {A} (m : M A) (h : exn -> M A) (w : world) :
  try_except m h w =
  match m w with
  | (Raise e, w') => h e w'
  | r => r
  end.
Proof. reflexivity. Qed.

(** ** The wait schedules of [_run_gh] *)


Lemma network_wait_bounds (attempt : nat) : 0 < network_wait attempt <= 120.
Proof.
  unfold network_wait, NETWORK_ERROR_BASE_WAIT, NETWORK_ERROR_MAX_WAIT.
  assert (0 < 2 ^ Z.of_nat attempt) by (apply Z.pow_pos_nonneg; lia).
  lia.
Qed.

Lemma generic_wait_bounds (attempt : nat) : 0 < generic_wait attempt <= 30.
Proof.
  unfold generic_wait.
  assert (0 < 2 ^ Z.of_nat attempt) by (apply Z.pow_pos_nonneg; lia).
  lia.
Qed.

Lemma sleep_nonneg (secs : Z) (w : world) :
  0 <= secs <= 100000000 ->
  sleep secs w = (Ok tt, mkWorld (env w) (ncalls w) (now w + secs) (EvSleep secs :: trace w)
                           (sleep_cap w)).
Proof.
  intros H. unfold sleep, SLEEP_MAX, SLEEP_SURE. destruct (Z.ltb_spec secs 0); [lia |].
  destruct (Z.ltb_spec 9223372036 secs); [lia |].
  destruct (Z.ltb_spec 100000000 secs); [lia | reflexivity].
Qed.

(** The world after one event, one sleep, one subprocess call. *)
Definition pushed (e : event) (w : world) : world :=
  mkWorld (env w) (ncalls w) (now w) (e :: trace w) (sleep_cap w).

Definition slept (secs : Z) (w : world) : world :=
  mkWorld (env w) (ncalls w) (now w + secs) (EvSleep secs :: trace w) (sleep_cap w).

Definition spawned (cmd : gh_cmd) (w : world) : world :=
  mkWorld (env w) (S (ncalls w)) (now w + Z.of_nat (duration (env w (ncalls w))))
    (EvGh cmd :: trace w) (sleep_cap w).

Lemma log_step {B} (lvl : level) (m : log_msg) (k : unit -> M B) (w : world) :
  bind (log lvl m) k w = k tt (pushed (EvLog lvl m) w).
Proof. reflexivity. Qed.

Lemma sleep_step {B} (secs : Z) (k : unit -> M B) (w : world) :
  0 <= secs <= 100000000 -> bind (sleep secs) k w = k tt (slept secs w).
Proof.
  intros H. rewrite bind_unfold. unfold sleep, SLEEP_MAX, SLEEP_SURE.
  destruct (Z.ltb_spec secs 0); [lia |].
  destruct (Z.ltb_spec 9223372036 secs); [lia |].
  destruct (Z.ltb_spec 100000000 secs); [lia | reflexivity].
Qed.

(** The three ways of a length that is not negative: too long to be
    converted, refused by the platform, or slept. *)
Definition sleep_outcome (secs : Z) (w : world) : outcome unit :=
  if SLEEP_MAX <? secs then Raise OverflowError
  else if ((SLEEP_SURE <? secs) && (sleep_cap w (now w) <? secs))%bool then Raise OSError
  else Ok tt.

Lemma sleep_cases {B} (secs : Z) (k : unit -> M B) (w : world) :
  0 <= secs ->
  bind (sleep secs) k w =
  match sleep_outcome secs w with
  | Ok _ => k tt (slept secs w)
  | Raise e => (Raise e, w)
  | Diverge => (Diverge, w)
  end.
Proof.
  intros H. rewrite bind_unfold. unfold sleep, sleep_outcome.
  destruct (Z.ltb_spec secs 0); [lia |].
  destruct (SLEEP_MAX <? secs); [reflexivity |].
  destruct ((SLEEP_SURE <? secs) && (sleep_cap w (now w) <? secs))%bool; reflexivity.
Qed.

Lemma spawn_step {B} (cmd : gh_cmd) (k : proc_outcome -> M B) (w : world) :
  bind (spawn cmd) k w = k (env w (ncalls w)) (spawned cmd w).
Proof. reflexivity. Qed.

Lemma time_step {B} (k : Z -> M B) (w : world) :
  bind time k w = k (now w) w.
Proof. reflexivity. Qed.

Lemma ret_step {A B} (a : A) (k : A -> M B) (w : world) :
  bind (ret a) k w = k a w.
Proof. reflexivity. Qed.

(** A subprocess outcome that is not a normal return. *)
Definition failed (o : proc_outcome) : Prop :=
  match o with
  | Completed _ _ => False
  | _ => True
  end.


(** ** C8: the retry policy of [_run_gh] *)

(** A failed command whose stderr names "not found" or "unknown" ends the
    call at once: one log line, no sleep, no further attempt. *)
Lemma run_gh_loop_fatal (cmd : gh_cmd) (retries remaining attempt : nat) (w : world)
    (d : nat) (raw : string) :
  env w (ncalls w) = CalledProcessError d raw ->
  is_fatal_error (stderr_text raw) = true ->
  run_gh_loop cmd retries (S remaining) attempt w =
  (Raise (RuntimeError (if (attempt =? retries)%nat then MsgGhFailed (stderr_text raw)
                        else MsgGhFatal (stderr_text raw))),
   pushed (EvLog ERROR
             (if (attempt =? retries)%nat
              then LogGhFinalFail (is_network_error (stderr_text raw)) retries (stderr_text raw)
              else LogGhFatal (stderr_text raw)))
     (spawned cmd w)).
Proof.
  intros Ho Hf. cbn [run_gh_loop]. rewrite spawn_step, Ho. cbv zeta.
  destruct (attempt =? retries)%nat; [reflexivity |].
  rewrite Hf. reflexivity.
Qed.

(** The wait a failed attempt selects before the next one. *)
Definition selected_wait (o : proc_outcome) (attempt : nat) : Z :=
  match o with
  | CalledProcessError _ raw =>
      if is_rate_limit_error (stderr_text raw) then rate_limit_wait attempt
      else if is_network_error (stderr_text raw) then network_wait attempt
      else generic_wait attempt
  | _ => network_wait attempt
  end.

Definition retry_log (o : proc_outcome) (attempt retries : nat) : log_msg :=
  match o with
  | CalledProcessError _ raw =>
      if is_rate_limit_error (stderr_text raw)
      then LogGhRateLimit (rate_limit_wait attempt) attempt retries
      else if is_network_error (stderr_text raw)
           then LogGhNetworkRetry (network_wait attempt) attempt retries (stderr_text raw)
           else LogGhRetry (generic_wait attempt) attempt retries (stderr_text raw)
  | _ => LogGhTimeoutRetry (network_wait attempt) attempt retries
  end.

(** An outcome after which [_run_gh] tries again, budget allowing. *)
Definition transient (o : proc_outcome) : Prop :=
  match o with
  | TimeoutExpired _ => True
  | CalledProcessError _ raw => is_fatal_error (stderr_text raw) = false
  | _ => False
  end.

(** A transient failure before the last attempt: the loop logs, sleeps
    the selected wait and goes on with the next attempt. *)
Lemma run_gh_loop_retry (cmd : gh_cmd) (retries remaining attempt : nat) (w : world) :
  transient (env w (ncalls w)) ->
  attempt <> retries ->
  run_gh_loop cmd retries (S remaining) attempt w =
  run_gh_loop cmd retries remaining (S attempt)
    (slept (selected_wait (env w (ncalls w)) attempt)
       (pushed (EvLog WARNING (retry_log (env w (ncalls w)) attempt retries))
          (spawned cmd w))).
Proof.
  intros Ht Hne.
  pose proof (network_wait_bounds attempt) as Hn.
  pose proof (generic_wait_bounds attempt) as Hg.
  assert (Hr : 0 <= rate_limit_wait attempt <= 1800) by (unfold rate_limit_wait; lia).
  apply Nat.eqb_neq in Hne.
  cbn [run_gh_loop]. rewrite spawn_step.
  destruct (env w (ncalls w)) as [d out | d | d raw | d]; simpl in Ht; try contradiction.
  - rewrite Hne, log_step, sleep_step by lia. reflexivity.
  - cbv zeta. rewrite Hne, Ht. simpl.
    destruct (is_rate_limit_error (stderr_text raw));
      [| destruct (is_network_error (stderr_text raw))];
      rewrite log_step, sleep_step by lia; reflexivity.
Qed.


(** ** What every operation preserves *)

Local Open Scope list_scope.

(** Events by what they may be: any sleep, the commands [cmd_ok] admits
    and the log lines [log_ok] admits. *)
Definition only (cmd_ok : gh_cmd -> bool) (log_ok : log_msg -> bool) (e : event) : Prop :=
  match e with
  | EvGh c => cmd_ok c = true
  | EvSleep _ => True
  | EvLog _ m => log_ok m = true
  end.

(** [w'] comes after [w]: the same outside world, a later clock, and a
    trace grown by events that satisfy [P]. *)
Definition advances (P : event -> Prop) (w w' : world) : Prop :=
  env w' = env w /\
  (ncalls w <= ncalls w')%nat /\
  now w <= now w' /\
  exists d, trace w' = d ++ trace w /\ Forall P d.

Definition keeps (P : event -> Prop) {A} (m : M A) : Prop :=
  forall w, advances P w (snd (m w)).

(** The operation never runs out of fuel. *)
Definition total {A} (m : M A) : Prop :=
  forall w, fst (m w) <> Diverge.

Lemma advances_refl P w : advances P w w.
Proof. repeat split; try lia. exists []. split; [reflexivity | constructor]. Qed.

Lemma advances_trans P w1 w2 w3 :
  advances P w1 w2 -> advances P w2 w3 -> advances P w1 w3.
Proof.
  intros (E1 & C1 & N1 & d1 & T1 & F1) (E2 & C2 & N2 & d2 & T2 & F2).
  repeat split; try lia; try congruence.
  exists (d2 ++ d1). split.
  - rewrite T2, T1, app_assoc. reflexivity.
  - apply Forall_app. split; assumption.
Qed.

Lemma advances_weaken (P Q : event -> Prop) w w' :
  (forall e, P e -> Q e) -> advances P w w' -> advances Q w w'.
Proof.
  intros H (E & C & N & d & T & F).
  repeat split; try assumption. exists d. split; [assumption |].
  eapply Forall_impl; eauto.
Qed.

Lemma advances_pushed P e w : P e -> advances P w (pushed e w).
Proof.
  intros H. repeat split; simpl; try lia.
  exists [e]. split; [reflexivity | repeat constructor; assumption].
Qed.

Lemma keeps_weaken (P Q : event -> Prop) {A} (m : M A) :
  (forall e, P e -> Q e) -> keeps P m -> keeps Q m.
Proof. intros H K w. eapply advances_weaken; eauto. Qed.

Lemma keeps_ret P {A} (a : A) : keeps P (ret a).
Proof. intros w. apply advances_refl. Qed.

Lemma keeps_raise P {A} (e : exn) : keeps P (@raise A e).
Proof. intros w. apply advances_refl. Qed.

Lemma keeps_lift P {A} (r : result A) : keeps P (lift r).
Proof. destruct r; [apply keeps_ret | apply keeps_raise]. Qed.

Lemma keeps_time P : keeps P time.
Proof. intros w. apply advances_refl. Qed.

Lemma keeps_emit (P : event -> Prop) e : P e -> keeps P (emit e).
Proof. intros H w. apply (advances_pushed P e w H). Qed.

Lemma keeps_log (P : event -> Prop) lvl m : P (EvLog lvl m) -> keeps P (log lvl m).
Proof. apply keeps_emit. Qed.

Lemma keeps_sleep (P : event -> Prop) secs : P (EvSleep secs) -> keeps P (sleep secs).
Proof.
  intros H w. unfold sleep. destruct (Z.ltb_spec secs 0); [apply advances_refl |].
  destruct (SLEEP_MAX <? secs); [apply advances_refl |].
  destruct ((SLEEP_SURE <? secs) && (sleep_cap w (now w) <? secs))%bool;
    [apply advances_refl |].
  repeat split; simpl; try lia.
  exists [EvSleep secs]. split; [reflexivity | repeat constructor; assumption].
Qed.

Lemma keeps_spawn (P : event -> Prop) cmd : P (EvGh cmd) -> keeps P (spawn cmd).
Proof.
  intros H w. repeat split; simpl; try lia.
  exists [EvGh cmd]. split; [reflexivity | repeat constructor; assumption].
Qed.

Lemma keeps_bind P {A B} (m : M A) (k : A -> M B) :
  keeps P m -> (forall a, keeps P (k a)) -> keeps P (bind m k).
Proof.
  intros Hm Hk w. rewrite bind_unfold.
  specialize (Hm w). destruct (m w) as [[a | e |] w1]; simpl in *; try assumption.
  eapply advances_trans; [exact Hm | apply Hk].
Qed.

Lemma keeps_try_except P {A} (m : M A) (h : exn -> M A) :
  keeps P m -> (forall e, keeps P (h e)) -> keeps P (try_except m h).
Proof.
  intros Hm Hh w. rewrite try_except_unfold.
  specialize (Hm w). destruct (m w) as [[a | e |] w1]; simpl in *; try assumption.
  eapply advances_trans; [exact Hm | apply Hh].
Qed.

Lemma keeps_attempt P {A} (m : M A) : keeps P m -> keeps P (attempt m).
Proof.
  intros Hm w. rewrite attempt_unfold.
  specialize (Hm w). destruct (m w) as [[a | e |] w1]; simpl in *; assumption.
Qed.

Lemma total_ret {A} (a : A) : total (ret a).
Proof. intros w. discriminate. Qed.

Lemma total_raise {A} (e : exn) : total (@raise A e).
Proof. intros w. discriminate. Qed.

Lemma total_lift {A} (r : result A) : total (lift r).
Proof. destruct r; [apply total_ret | apply total_raise]. Qed.

Lemma total_time : total time.
Proof. intros w. discriminate. Qed.

Lemma total_emit e : total (emit e).
Proof. intros w. discriminate. Qed.

Lemma total_log lvl m : total (log lvl m).
Proof. intros w. discriminate. Qed.

Lemma total_sleep secs : total (sleep secs).
Proof.
  intros w. unfold sleep. destruct (secs <? 0); [discriminate |].
  destruct (SLEEP_MAX <? secs); [discriminate |].
  destruct ((SLEEP_SURE <? secs) && (sleep_cap w (now w) <? secs))%bool; discriminate.
Qed.

Lemma total_spawn cmd : total (spawn cmd).
Proof. intros w. discriminate. Qed.

Lemma total_bind {A B} (m : M A) (k : A -> M B) :
  total m -> (forall a, total (k a)) -> total (bind m k).
Proof.
  intros Hm Hk w. rewrite bind_unfold.
  specialize (Hm w). destruct (m w) as [[a | e |] w1]; simpl in *;
    [apply Hk | discriminate | congruence].
Qed.

Lemma total_try_except {A} (m : M A) (h : exn -> M A) :
  total m -> (forall e, total (h e)) -> total (try_except m h).
Proof.
  intros Hm Hh w. rewrite try_except_unfold.
  specialize (Hm w). destruct (m w) as [[a | e |] w1]; simpl in *;
    [discriminate | apply Hh | congruence].
Qed.

Lemma total_attempt {A} (m : M A) : total m -> total (attempt m).
Proof.
  intros Hm w. rewrite attempt_unfold.
  specialize (Hm w). destruct (m w) as [[a | e |] w1]; simpl in *;
    [discriminate | discriminate | congruence].
Qed.

(** Decomposing a goal [keeps P m] or [total m] along the program text.
    The head of the program is matched as written, nothing is unfolded. *)
Ltac keeps_step :=
  lazymatch goal with
  | |- keeps _ (ret _) => apply keeps_ret
  | |- keeps _ (raise _) => apply keeps_raise
  | |- keeps _ (lift _) => apply keeps_lift
  | |- keeps _ time => apply keeps_time
  | |- keeps _ (bind _ _) => apply keeps_bind; [| intros ?; cbv beta zeta]
  | |- keeps _ (try_except _ _) => apply keeps_try_except; [| intros ?; cbv beta zeta]
  | |- keeps _ (attempt _) => apply keeps_attempt
  | |- keeps _ (sleep _) => apply keeps_sleep; exact I
  | |- keeps _ (log _ _) => apply keeps_log; simpl; auto
  | |- keeps _ (match ?x with _ => _ end) => destruct x
  end.

Ltac total_step :=
  lazymatch goal with
  | |- total (ret _) => apply total_ret
  | |- total (raise _) => apply total_raise
  | |- total (lift _) => apply total_lift
  | |- total time => apply total_time
  | |- total (log _ _) => apply total_log
  | |- total (sleep _) => apply total_sleep
  | |- total (spawn _) => apply total_spawn
  | |- total (bind _ _) => apply total_bind; [| intros ?; cbv beta zeta]
  | |- total (try_except _ _) => apply total_try_except; [| intros ?; cbv beta zeta]
  | |- total (attempt _) => apply total_attempt
  | |- total (match ?x with _ => _ end) => destruct x
  end.

Ltac split_match :=
  match goal with
  | |- context [match ?x with _ => _ end] => destruct x
  end.

(** The log lines of [_run_gh]. *)
Definition is_gh_log (m : log_msg) : bool :=
  match m with
  | LogGhTimeoutFinal _ | LogGhTimeoutRetry _ _ _ | LogGhFinalFail _ _ _
  | LogGhFatal _ | LogGhRateLimit _ _ _ | LogGhNetworkRetry _ _ _ _
  | LogGhRetry _ _ _ _ => true
  | _ => false
  end.

Section Keeps.

Variable cmd_ok : gh_cmd -> bool.
Variable log_ok : log_msg -> bool.
Hypothesis gh_logs_ok : forall m, is_gh_log m = true -> log_ok m = true.

Lemma keeps_run_gh_loop cmd retries remaining attempt :
  cmd_ok cmd = true ->
  keeps (only cmd_ok log_ok) (run_gh_loop cmd retries remaining attempt).
Proof.
  intros Hc. revert attempt.
  induction remaining as [|rem IH]; intros attempt; cbn [run_gh_loop].
  - apply keeps_raise.
  - apply keeps_bind; [apply keeps_spawn; exact Hc |].
    intros o. cbv zeta.
    repeat first [ apply IH | keeps_step | split_match ].
Qed.

Lemma keeps_run_gh cmd retries :
  cmd_ok cmd = true -> keeps (only cmd_ok log_ok) (_run_gh cmd retries).
Proof. intros Hc. apply keeps_run_gh_loop. exact Hc. Qed.

End Keeps.

Lemma total_run_gh_loop cmd retries remaining attempt :
  total (run_gh_loop cmd retries remaining attempt).
Proof.
  revert attempt.
  induction remaining as [|rem IH]; intros attempt; cbn [run_gh_loop].
  - apply total_raise.
  - apply total_bind; [apply total_spawn |].
    intros o. cbv zeta.
    repeat first [ apply IH | total_step | split_match ].
Qed.

Lemma total_run_gh cmd retries : total (_run_gh cmd retries).
Proof. apply total_run_gh_loop. Qed.

(** The log lines of the tracker client. *)
Definition is_client_log (m : log_msg) : bool :=
  match m with
  | LogApiFailed _ | LogFindIssueFailed _ | LogFindIssueNotList | LogFindIssueParse
  | LogMarkReadyFailed _ _ | LogCompletedFailed _ => true
  | _ => is_gh_log m
  end.

Section KeepsClient.

Variable cmd_ok : gh_cmd -> bool.
Variable log_ok : log_msg -> bool.
Hypothesis client_logs_ok : forall m, is_client_log m = true -> log_ok m = true.

Let P := only cmd_ok log_ok.

Lemma gh_logs_ok' : forall m, is_gh_log m = true -> log_ok m = true.
Proof. intros m H. apply client_logs_ok. destruct m; simpl in *; congruence. Qed.

Ltac client_keeps :=
  repeat first
    [ apply keeps_run_gh; [exact gh_logs_ok' | solve [auto]]
    | keeps_step
    | apply keeps_log; simpl; apply client_logs_ok; reflexivity
    | split_match ].

Lemma keeps_loads output : keeps P (loads output).
Proof. unfold loads. client_keeps. Qed.

Lemma keeps_loads_or default output : keeps P (loads_or default output).
Proof. unfold loads_or. destruct (PyStr.is_empty output); [apply keeps_ret | apply keeps_loads]. Qed.

Lemma keeps_api_request method path headers silent :
  cmd_ok (GhApi path method headers) = true ->
  keeps P (api_request method path headers silent).
Proof.
  intros Hc. unfold api_request.
  apply keeps_try_except.
  - apply keeps_bind; [apply keeps_run_gh; [exact gh_logs_ok' | exact Hc] |].
    intros out. apply keeps_loads_or.
  - intros e. client_keeps.
Qed.

Lemma keeps_create_issue ttl body :
  cmd_ok (GhIssueCreate ttl body) = true -> keeps P (create_issue ttl body).
Proof. intros Hc. unfold create_issue. client_keeps. Qed.

Lemma keeps_add_assignees_from n tried l last_error :
  (forall a, In a l -> cmd_ok (GhIssueAddAssignee n a) = true) ->
  keeps P (add_assignees_from n tried l last_error).
Proof.
  revert last_error.
  induction l as [|a l IH]; intros last_error Hc; cbn [add_assignees_from].
  - client_keeps.
  - apply keeps_bind.
    + apply keeps_attempt. apply keeps_run_gh; [exact gh_logs_ok' | apply Hc; left; reflexivity].
    + intros [x | e]; [apply keeps_ret | apply IH]. intros b Hb. apply Hc. right. exact Hb.
Qed.

Lemma keeps_add_assignees n l :
  (forall a, In a l -> cmd_ok (GhIssueAddAssignee n a) = true) -> keeps P (add_assignees n l).
Proof. intros Hc. apply keeps_add_assignees_from. exact Hc. Qed.

Lemma keeps_remove_assignees n l :
  (forall a, In a l -> cmd_ok (GhIssueRemoveAssignee n a) = true) ->
  keeps P (remove_assignees n l).
Proof.
  induction l as [|a l IH]; intros Hc; cbn [remove_assignees].
  - apply keeps_ret.
  - apply keeps_bind.
    + apply keeps_attempt. apply keeps_run_gh; [exact gh_logs_ok' | apply Hc; left; reflexivity].
    + intros _. apply IH. intros b Hb. apply Hc. right. exact Hb.
Qed.

Lemma keeps_comment_issue n body :
  cmd_ok (GhIssueComment n body) = true -> keeps P (comment_issue n body).
Proof. intros Hc. unfold comment_issue. client_keeps. Qed.

Lemma keeps_get_issue n :
  cmd_ok (GhIssueView n) = true -> keeps P (get_issue n).
Proof.
  intros Hc. unfold get_issue.
  apply keeps_bind; [apply keeps_run_gh; [exact gh_logs_ok' | exact Hc] |].
  intros out. apply keeps_try_except; [apply keeps_loads_or |].
  intros e. client_keeps.
Qed.

Lemma keeps_get_pull n :
  cmd_ok (GhPrView n) = true -> keeps P (get_pull n).
Proof.
  intros Hc. unfold get_pull.
  apply keeps_bind; [apply keeps_run_gh; [exact gh_logs_ok' | exact Hc] |].
  intros out. apply keeps_bind.
  - apply keeps_try_except; [apply keeps_loads_or |]. intros e. client_keeps.
  - intros data. client_keeps.
Qed.

Lemma keeps_merge_pull n :
  cmd_ok (GhPrMerge n) = true -> keeps P (merge_pull n).
Proof. intros Hc. unfold merge_pull. client_keeps. Qed.

Lemma keeps_close_pr n b :
  cmd_ok (GhPrClose n b) = true -> keeps P (close_pr n b).
Proof. intros Hc. unfold close_pr. client_keeps. Qed.

Lemma keeps_list_closed_issues limit :
  cmd_ok (GhIssueListClosed limit) = true -> keeps P (list_closed_issues limit).
Proof.
  intros Hc. unfold list_closed_issues.
  apply keeps_bind; [apply keeps_run_gh; [exact gh_logs_ok' | exact Hc] |].
  intros out. apply keeps_try_except.
  - apply keeps_bind; [apply keeps_loads_or | intros; apply keeps_ret].
  - intros e. client_keeps.
Qed.

Lemma keeps_find_issue_by_todo todo_id :
  (forall tag, cmd_ok (GhIssueListOpen tag) = true) ->
  keeps P (find_issue_by_todo todo_id).
Proof.
  intros Hc. unfold find_issue_by_todo.
  destruct (PyStr.is_empty todo_id || PyStr.is_empty (PyStr.strip todo_id))%bool;
    [apply keeps_ret |].
  cbv zeta. apply keeps_bind.
  - apply keeps_attempt. apply keeps_run_gh; [exact gh_logs_ok' | apply Hc].
  - intros [out | e].
    + apply keeps_bind; [apply keeps_attempt, keeps_loads_or |].
      intros r. client_keeps.
    + client_keeps.
Qed.

Lemma keeps_latest_pr_from_timeline n :
  (forall p m h, cmd_ok (GhApi p m h) = true) ->
  keeps P (latest_pr_from_timeline n).
Proof.
  intros Hc. unfold latest_pr_from_timeline.
  apply keeps_bind; [apply keeps_api_request, Hc |].
  intros ev. client_keeps.
Qed.

Lemma keeps_check_copilot_signal n :
  (forall p m h, cmd_ok (GhApi p m h) = true) ->
  keeps P (check_copilot_signal n).
Proof.
  intros Hc. unfold check_copilot_signal.
  apply keeps_bind; [apply keeps_api_request, Hc |].
  intros ev. client_keeps.
Qed.

Lemma keeps_mark_pr_ready n :
  cmd_ok (GhPrReady n) = true -> keeps P (mark_pr_ready n).
Proof.
  intros Hc. unfold mark_pr_ready.
  apply keeps_bind.
  - apply keeps_attempt. apply keeps_run_gh; [exact gh_logs_ok' | exact Hc].
  - intros r. client_keeps.
Qed.

End KeepsClient.

(** No operation of the client runs out of fuel. *)
Ltac client_total :=
  repeat first [ apply total_run_gh | total_step | split_match ].

Lemma total_loads_or default output : total (loads_or default output).
Proof. unfold loads_or, loads. client_total. Qed.

Lemma total_api_request method path headers silent :
  total (api_request method path headers silent).
Proof.
  unfold api_request. apply total_try_except.
  - apply total_bind; [apply total_run_gh | intros; apply total_loads_or].
  - intros e. client_total.
Qed.

Lemma total_create_issue ttl body : total (create_issue ttl body).
Proof. unfold create_issue. client_total. Qed.

Lemma total_add_assignees_from n tried l last_error :
  total (add_assignees_from n tried l last_error).
Proof.
  revert last_error. induction l as [|a l IH]; intros last_error; cbn [add_assignees_from].
  - client_total.
  - apply total_bind; [apply total_attempt, total_run_gh |].
    intros [x | e]; [apply total_ret | apply IH].
Qed.

Lemma total_add_assignees n l : total (add_assignees n l).
Proof. apply total_add_assignees_from. Qed.

Lemma total_remove_assignees n l : total (remove_assignees n l).
Proof.
  induction l as [|a l IH]; cbn [remove_assignees].
  - apply total_ret.
  - apply total_bind; [apply total_attempt, total_run_gh | intros; apply IH].
Qed.

Lemma total_comment_issue n body : total (comment_issue n body).
Proof. unfold comment_issue. client_total. Qed.

Lemma total_get_issue n : total (get_issue n).
Proof.
  unfold get_issue. apply total_bind; [apply total_run_gh |].
  intros out. apply total_try_except; [apply total_loads_or |].
  intros e. client_total.
Qed.

Lemma total_get_pull n : total (get_pull n).
Proof.
  unfold get_pull. apply total_bind; [apply total_run_gh |].
  intros out. apply total_bind.
  - apply total_try_except; [apply total_loads_or |]. intros e. client_total.
  - intros data. client_total.
Qed.

Lemma total_merge_pull n : total (merge_pull n).
Proof. unfold merge_pull. client_total. Qed.

Lemma total_close_pr n b : total (close_pr n b).
Proof. unfold close_pr. client_total. Qed.

Lemma total_list_closed_issues limit : total (list_closed_issues limit).
Proof.
  unfold list_closed_issues. apply total_bind; [apply total_run_gh |].
  intros out. apply total_try_except.
  - apply total_bind; [apply total_loads_or | intros; apply total_ret].
  - intros e. client_total.
Qed.

Lemma total_find_issue_by_todo todo_id : total (find_issue_by_todo todo_id).
Proof.
  unfold find_issue_by_todo.
  destruct (PyStr.is_empty todo_id || PyStr.is_empty (PyStr.strip todo_id))%bool;
    [apply total_ret |].
  cbv zeta. apply total_bind; [apply total_attempt, total_run_gh |].
  intros [out | e].
  - apply total_bind; [apply total_attempt, total_loads_or |].
    intros r. client_total.
  - client_total.
Qed.

Lemma total_latest_pr_from_timeline n : total (latest_pr_from_timeline n).
Proof.
  unfold latest_pr_from_timeline.
  apply total_bind; [apply total_api_request |]. intros ev. client_total.
Qed.

Lemma total_check_copilot_signal n : total (check_copilot_signal n).
Proof.
  unfold check_copilot_signal.
  apply total_bind; [apply total_api_request |]. intros ev. client_total.
Qed.

Lemma total_mark_pr_ready n : total (mark_pr_ready n).
Proof.
  unfold mark_pr_ready.
  apply total_bind; [apply total_attempt, total_run_gh |]. intros r. client_total.
Qed.

(** ** C2: the completion-signal detector *)

(** [api_request] with [silent_fail=True], case by case. *)
Lemma api_request_silent (method : string) (path : api_path) (headers : list string)
    (w : world) :
  api_request method path headers true w =
  match _run_gh (GhApi path method headers) 3 w with
  | (Ok output, w1) =>
      if PyStr.is_empty output then (Ok (JObj []), w1)
      else match json_loads output with
           | Some j => (Ok j, w1)
           | None => (Ok (JObj []), w1)
           end
  | (Raise _, w1) => (Ok (JObj []), w1)
  | (Diverge, w1) => (Diverge, w1)
  end.
Proof.
  unfold api_request. rewrite try_except_unfold, bind_unfold.
  destruct (_run_gh (GhApi path method headers) 3 w) as [[output | e |] w1]; try reflexivity.
  unfold loads_or, loads.
  destruct (PyStr.is_empty output); [reflexivity |].
  destruct (json_loads output); reflexivity.
Qed.

(** An event that is the completion marker. *)
Definition is_marker (event : json) : bool :=
  match Py.get event "event" JNull with
  | Success kind => Py.eq_str kind "copilot_work_finished"
  | Failure _ => false
  end.

Lemma signal_scan_objects (events : list json) :
  Forall (fun ev => Py.is_dict ev = true) events ->
  signal_scan events = Success (existsb is_marker events).
Proof.
  induction 1 as [|ev rest Hd _ IH]; [reflexivity |].
  destruct ev; try discriminate Hd.
  cbn [signal_scan existsb]. unfold is_marker. cbn [Py.get rbind].
  destruct (Py.eq_str _ _); [reflexivity | exact IH].
Qed.

(** The scan stops at the first marker it meets. *)
Lemma signal_scan_first (before after : list json) (marker : json) :
  Forall (fun ev => Py.is_dict ev = true) before ->
  is_marker marker = true ->
  signal_scan (before ++ marker :: after) = Success true.
Proof.
  intros Hb Hm. induction Hb as [|ev rest Hd _ IH].
  - cbn [app signal_scan]. unfold is_marker in Hm.
    destruct (Py.get marker "event" JNull); [| discriminate].
    cbn [rbind]. rewrite Hm. reflexivity.
  - destruct ev; try discriminate Hd.
    cbn [app signal_scan Py.get rbind].
    destruct (Py.eq_str _ _); [reflexivity | exact IH].
Qed.

Lemma existsb_rev {A} (f : A -> bool) (l : list A) : existsb f (rev l) = existsb f l.
Proof.
  induction l as [|x l IH]; [reflexivity |].
  cbn [rev existsb]. rewrite existsb_app, IH. cbn [existsb].
  rewrite orb_false_r. apply orb_comm.
Qed.

(** C2.  For every change-request id [pr] and every world, with [fetch]
    the [gh api] call for the timeline of [pr]:
    (1) when the fetch yields a list of event objects, the detector
    returns [true] exactly when one of them is the "copilot_work_finished"
    marker;
    (2) the events are scanned newest first: a marker with only event
    objects after it is found whatever precedes it;
    (3) when the fetch raises, or returns text that is not JSON, or
    returns nothing, or returns JSON that is not a list, the detector
    returns [false]; it does not raise. *)
Theorem check_copilot_signal_spec (pr : json) (w : world) :
  let fetch := _run_gh (GhApi (IssueTimeline pr) "GET" [TIMELINE_ACCEPT_HEADER]) 3 w in
  (forall output w1 events,
      fetch = (Ok output, w1) ->
      PyStr.is_empty output = false ->
      json_loads output = Some (JArr events) ->
      (Forall (fun ev => Py.is_dict ev = true) events ->
       check_copilot_signal pr w = (Ok (existsb is_marker events), w1)) /\
      (forall older marker newer,
          events = older ++ marker :: newer ->
          is_marker marker = true ->
          Forall (fun ev => Py.is_dict ev = true) newer ->
          check_copilot_signal pr w = (Ok true, w1))) /\
  (forall e w1, fetch = (Raise e, w1) -> check_copilot_signal pr w = (Ok false, w1)) /\
  (forall output w1,
      fetch = (Ok output, w1) ->
      (PyStr.is_empty output = true \/
       json_loads output = None \/
       exists j, json_loads output = Some j /\ Py.is_list j = false) ->
      check_copilot_signal pr w = (Ok false, w1)).
Proof.
  cbv zeta. unfold check_copilot_signal.
  split; [| split].
  - intros output w1 events Hf Hne Hj.
    rewrite bind_unfold, api_request_silent, Hf, Hne, Hj.
    split.
    + intros Hd. rewrite signal_scan_objects, existsb_rev.
      * reflexivity.
      * apply Forall_rev. exact Hd.
    + intros older marker newer -> Hm Hn.
      rewrite rev_app_distr. cbn [rev]. rewrite <- app_assoc. cbn [app].
      rewrite signal_scan_first; [reflexivity | apply Forall_rev; exact Hn | exact Hm].
  - intros e w1 Hf. rewrite bind_unfold, api_request_silent, Hf. reflexivity.
  - intros output w1 Hf H. rewrite bind_unfold, api_request_silent, Hf.
    destruct (PyStr.is_empty output) eqn:He; [reflexivity |].
    destruct H as [H | [H | (j & H & Hl)]]; [discriminate | |]; rewrite H; [reflexivity |].
    destruct j; try reflexivity. discriminate Hl.
Qed.

(** ** C9: the reset of a ticket *)

(** [remove_assignees] swallows every failure. *)
Lemma remove_assignees_ok (n : Z) (l : list string) (w : world) :
  exists w', remove_assignees n l w = (Ok tt, w').
Proof.
  revert w. induction l as [|a l IH]; intros w; cbn [remove_assignees].
  - eexists. reflexivity.
  - rewrite bind_unfold, attempt_unfold.
    pose proof (total_run_gh (GhIssueRemoveAssignee n a) 3 w) as Ht.
    destruct (_run_gh (GhIssueRemoveAssignee n a) 3 w) as [[x | e |] w1];
      simpl in Ht; try congruence; apply IH.
Qed.

(** The candidates of [add_assignees] are tried in order: the first whose
    command succeeds ends the call, and a failure moves on to the next. *)
Lemma add_assignees_from_step (n : Z) (tried : nat) (a : string) (rest : list string)
    (last_error : option exn) (w : world) :
  add_assignees_from n tried (a :: rest) last_error w =
  match _run_gh (GhIssueAddAssignee n a) 3 w with
  | (Ok _, w1) => (Ok tt, w1)
  | (Raise e, w1) => add_assignees_from n tried rest (Some e) w1
  | (Diverge, w1) => (Diverge, w1)
  end.
Proof.
  cbn [add_assignees_from]. rewrite bind_unfold, attempt_unfold.
  destruct (_run_gh (GhIssueAddAssignee n a) 3 w) as [[x | e |] w1]; reflexivity.
Qed.

(** The commands a reset of ticket [n] may run: reading the ticket, and
    adding or removing one of the candidate names on it. *)
Definition reset_cmd (n : Z) (c : gh_cmd) : bool :=
  match c with
  | GhIssueView m => m =? n
  | GhIssueAddAssignee m a => ((m =? n) && mem_string a COPILOT_ASSIGNEES)%bool
  | GhIssueRemoveAssignee m a => ((m =? n) && mem_string a COPILOT_ASSIGNEES)%bool
  | _ => false
  end.

Lemma mem_string_In (a : string) (l : list string) : In a l -> mem_string a l = true.
Proof.
  intros H. unfold mem_string. apply existsb_exists. exists a. split; [exact H |].
  apply String.eqb_refl.
Qed.

Definition any_log (m : log_msg) : bool := true.

Lemma keeps_reset_issue (n : Z) : keeps (only (reset_cmd n) any_log) (_reset_issue n).
Proof.
  unfold _reset_issue.
  apply keeps_try_except.
  - apply keeps_bind.
    { apply keeps_get_issue; [reflexivity | simpl; apply Z.eqb_refl]. }
    intros data. apply keeps_bind; [apply keeps_lift |].
    intros state. destruct (Py.eq_str state "closed").
    + apply keeps_log. reflexivity.
    + apply keeps_bind; [apply keeps_lift |].
      intros logins. apply keeps_bind.
      * destruct (mem_string COPILOT_USERNAME logins); [| apply keeps_ret].
        apply keeps_bind; [| intros; apply keeps_sleep; exact I].
        apply keeps_remove_assignees; [reflexivity |].
        intros a Ha. simpl. rewrite Z.eqb_refl. apply (mem_string_In a _ Ha).
      * intros _. apply keeps_add_assignees; [reflexivity |].
        intros a Ha. simpl. rewrite Z.eqb_refl. apply (mem_string_In a _ Ha).
  - intros e. apply keeps_bind; [apply keeps_log; reflexivity | intros; apply keeps_raise].
Qed.

(** The [except] clause of [_reset_issue]: log and raise again. *)
Definition reset_failure {A} (r : outcome A * world) : outcome A * world :=
  match r with
  | (Raise e, w') => (Raise e, pushed (EvLog ERROR (LogResetFailed e)) w')
  | _ => r
  end.

(** C9.  For every ticket [issue_num] and every world:
    (1) every [gh] command a reset runs reads ticket [issue_num] or adds
    or removes one of the candidate names on ticket [issue_num]; none
    creates a ticket, and the world outside is untouched;
    (2) when the ticket is read and is not closed, the reset removes the
    agent's candidate names if the agent is among the assignees, then
    sleeps 2 seconds, and then runs [add_assignees] on the same ticket
    with the candidate list [COPILOT_ASSIGNEES], failures of that call
    being logged and raised again;
    (3) that re-add is the call the creation of a ticket makes: it tries
    the candidates in order and stops at the first that succeeds;
    (4) a closed ticket is left as it is. *)
Theorem reset_issue_spec (issue_num : Z) (w : world) :
  advances (only (reset_cmd issue_num) any_log) w (snd (_reset_issue issue_num w)) /\
  (forall data w1 state logins,
      get_issue issue_num w = (Ok data, w1) ->
      Py.get data "state" JNull = Success state ->
      Py.eq_str state "closed" = false ->
      assignee_logins data = Success logins ->
      exists w2,
        (if mem_string COPILOT_USERNAME logins
         then exists w', remove_assignees issue_num COPILOT_ASSIGNEES w1 = (Ok tt, w') /\
                         w2 = slept 2 w'
         else w2 = w1) /\
        _reset_issue issue_num w =
        reset_failure (add_assignees issue_num COPILOT_ASSIGNEES w2)) /\
  (forall item n w0 w1,
      create_issue (issue_title item) (FullIssueBody item) w0 = (Ok n, w1) ->
      forall r w2,
        add_assignees n COPILOT_ASSIGNEES w1 = (r, w2) ->
        (r = Ok tt -> create_and_assign item w0 = (Ok n, w2)) /\
        (forall tried a rest last_error w3,
            add_assignees_from n tried (a :: rest) last_error w3 =
            match _run_gh (GhIssueAddAssignee n a) 3 w3 with
            | (Ok _, w4) => (Ok tt, w4)
            | (Raise e, w4) => add_assignees_from n tried rest (Some e) w4
            | (Diverge, w4) => (Diverge, w4)
            end)) /\
  (forall data w1 state,
      get_issue issue_num w = (Ok data, w1) ->
      Py.get data "state" JNull = Success state ->
      Py.eq_str state "closed" = true ->
      _reset_issue issue_num w =
      (Ok tt, pushed (EvLog WARNING (LogResetSkipClosed issue_num)) w1)).
Proof.
  split; [apply keeps_reset_issue |].
  split; [| split].
  - intros data w1 state logins Hg Hs Hc Hl.
    unfold _reset_issue. rewrite try_except_unfold.
    rewrite (bind_ok _ _ _ _ _ Hg), Hs. cbn [lift]. rewrite ret_step, Hc, Hl.
    cbn [lift]. rewrite ret_step.
    destruct (mem_string COPILOT_USERNAME logins).
    + destruct (remove_assignees_ok issue_num COPILOT_ASSIGNEES w1) as (w' & Hr).
      exists (slept 2 w'). split; [exists w'; split; [exact Hr | reflexivity] |].
      rewrite bind_unfold. rewrite (bind_ok _ _ _ _ _ Hr).
      change (sleep 2 w') with (Ok tt, slept 2 w').
      destruct (add_assignees issue_num COPILOT_ASSIGNEES (slept 2 w')) as [[[] | e |] w3];
        reflexivity.
    + exists w1. split; [reflexivity |]. rewrite ret_step.
      destruct (add_assignees issue_num COPILOT_ASSIGNEES w1) as [[[] | e |] w3];
        reflexivity.
  - intros item n w0 w1 Hc r w2 Ha. split.
    + intros ->. unfold create_and_assign.
      rewrite (bind_ok _ _ _ _ _ Hc), bind_unfold, try_except_unfold, Ha. reflexivity.
    + intros. apply add_assignees_from_step.
  - intros data w1 state Hg Hs Hc.
    unfold _reset_issue. rewrite try_except_unfold.
    rewrite (bind_ok _ _ _ _ _ Hg), Hs. cbn [lift]. rewrite ret_step, Hc. reflexivity.
Qed.

(** ** What the orchestrator preserves *)

Definition any_cmd (c : gh_cmd) : bool := true.

(** The log lines of [_ensure_issue] and [_reset_issue], and below. *)
Definition is_ticket_log (m : log_msg) : bool :=
  match m with
  | LogIssueNotOpen _ _ | LogIssueDetailsFailed _ _ | LogAssignFailed _ _
  | LogAssignFailedHint | LogResetSkipClosed _ | LogResetFailed _ => true
  | _ => is_client_log m
  end.

(** The log lines that announce a reset of the ticket. *)
Definition is_reset_announcement (m : log_msg) : bool :=
  match m with
  | LogNoPRReset _ | LogResetFlow _ | LogMergeReset _ | LogPRTimeoutReset _ _ => true
  | _ => false
  end.

(** The log lines of [_wait_and_merge], and below. *)
Definition is_monitor_log (m : log_msg) : bool :=
  match m with
  | LogIssueClosed _ | LogClosedNoPR _ | LogIssueStateFailed _ | LogGetPRFailed _
  | LogPRStateFailed _ | LogPRClosedUnmerged _ | LogMergeFailed _ _
  | LogPRTimeoutLimit _ | LogClosePRFailed _ => true
  | _ => (is_reset_announcement m || is_ticket_log m)%bool
  end.

Lemma client_log_is_ticket_log m : is_client_log m = true -> is_ticket_log m = true.
Proof. destruct m; simpl; congruence. Qed.

Lemma ticket_log_is_monitor_log m : is_ticket_log m = true -> is_monitor_log m = true.
Proof. destruct m; simpl; congruence. Qed.

Lemma client_log_is_monitor_log m : is_client_log m = true -> is_monitor_log m = true.
Proof. intros H. apply ticket_log_is_monitor_log, client_log_is_ticket_log, H. Qed.

Section KeepsTicket.

Variable cmd_ok : gh_cmd -> bool.
Variable log_ok : log_msg -> bool.
Hypothesis all_cmds : forall c, cmd_ok c = true.
Hypothesis ticket_logs_ok : forall m, is_ticket_log m = true -> log_ok m = true.

Let P := only cmd_ok log_ok.

Lemma client_logs_ok' : forall m, is_client_log m = true -> log_ok m = true.
Proof. intros m H. apply ticket_logs_ok, client_log_is_ticket_log, H. Qed.

Ltac ticket_keeps :=
  repeat
    lazymatch goal with
    | |- keeps _ (get_issue _) =>
        apply keeps_get_issue; [exact client_logs_ok' | apply all_cmds]
    | |- keeps _ (add_assignees _ _) =>
        apply keeps_add_assignees; [exact client_logs_ok' | intros; apply all_cmds]
    | |- keeps _ (remove_assignees _ _) =>
        apply keeps_remove_assignees; [exact client_logs_ok' | intros; apply all_cmds]
    | |- keeps _ (create_issue _ _) =>
        apply keeps_create_issue; [exact client_logs_ok' | apply all_cmds]
    | |- keeps _ (find_issue_by_todo _) =>
        apply keeps_find_issue_by_todo; [exact client_logs_ok' | intros; apply all_cmds]
    | |- keeps _ (log _ _) => apply keeps_log; simpl; apply ticket_logs_ok; reflexivity
    | |- _ => keeps_step
    end.

Lemma keeps_reset_issue_gen n : keeps P (_reset_issue n).
Proof. unfold _reset_issue. ticket_keeps. Qed.

Lemma keeps_reuse_issue n : keeps P (reuse_issue n).
Proof. unfold reuse_issue. ticket_keeps. Qed.

Lemma keeps_create_and_assign item : keeps P (create_and_assign item).
Proof. unfold create_and_assign. ticket_keeps. Qed.

Lemma keeps_ensure_issue self item : keeps P (_ensure_issue self item).
Proof.
  unfold _ensure_issue, _require_github.
  repeat
    lazymatch goal with
    | |- keeps _ (create_and_assign _) => apply keeps_create_and_assign
    | |- keeps _ (reuse_issue _) => apply keeps_reuse_issue
    | |- _ => progress ticket_keeps
    end.
Qed.

End KeepsTicket.

Ltac client_total_step :=
  lazymatch goal with
  | |- total (_run_gh _ _) => apply total_run_gh
  | |- total (api_request _ _ _ _) => apply total_api_request
  | |- total (get_issue _) => apply total_get_issue
  | |- total (get_pull _) => apply total_get_pull
  | |- total (merge_pull _) => apply total_merge_pull
  | |- total (close_pr _ _) => apply total_close_pr
  | |- total (comment_issue _ _) => apply total_comment_issue
  | |- total (mark_pr_ready _) => apply total_mark_pr_ready
  | |- total (check_copilot_signal _) => apply total_check_copilot_signal
  | |- total (latest_pr_from_timeline _) => apply total_latest_pr_from_timeline
  | |- total (add_assignees _ _) => apply total_add_assignees
  | |- total (remove_assignees _ _) => apply total_remove_assignees
  | |- total (create_issue _ _) => apply total_create_issue
  | |- total (find_issue_by_todo _) => apply total_find_issue_by_todo
  | |- total (list_closed_issues _) => apply total_list_closed_issues
  | |- _ => total_step
  end.

Lemma total_reset_issue n : total (_reset_issue n).
Proof. unfold _reset_issue. repeat client_total_step. Qed.

Lemma total_create_and_assign item : total (create_and_assign item).
Proof. unfold create_and_assign. repeat client_total_step. Qed.

Lemma total_reuse_issue n : total (reuse_issue n).
Proof. unfold reuse_issue. repeat client_total_step. Qed.

Lemma total_ensure_issue self item : total (_ensure_issue self item).
Proof.
  unfold _ensure_issue, _require_github.
  repeat
    lazymatch goal with
    | |- total (create_and_assign _) => apply total_create_and_assign
    | |- total (reuse_issue _) => apply total_reuse_issue
    | |- _ => client_total_step
    end.
Qed.

Section KeepsMonitor.

Variable max_pr_resets : Z.
Variable self : Pipeline.
Variable issue_num : Z.

Let P := only any_cmd is_monitor_log.

Ltac monitor_keeps :=
  repeat
    lazymatch goal with
    | |- keeps _ (get_issue _) =>
        apply keeps_get_issue; [exact client_log_is_monitor_log | reflexivity]
    | |- keeps _ (get_pull _) =>
        apply keeps_get_pull; [exact client_log_is_monitor_log | reflexivity]
    | |- keeps _ (merge_pull _) =>
        apply keeps_merge_pull; [exact client_log_is_monitor_log | reflexivity]
    | |- keeps _ (close_pr _ _) =>
        apply keeps_close_pr; [exact client_log_is_monitor_log | reflexivity]
    | |- keeps _ (comment_issue _ _) =>
        apply keeps_comment_issue; [exact client_log_is_monitor_log | reflexivity]
    | |- keeps _ (mark_pr_ready _) =>
        apply keeps_mark_pr_ready; [exact client_log_is_monitor_log | reflexivity]
    | |- keeps _ (check_copilot_signal _) =>
        apply keeps_check_copilot_signal; [exact client_log_is_monitor_log | reflexivity]
    | |- keeps _ (latest_pr_from_timeline _) =>
        apply keeps_latest_pr_from_timeline; [exact client_log_is_monitor_log | reflexivity]
    | |- keeps _ (_reset_issue _) =>
        apply keeps_reset_issue_gen; [reflexivity | exact ticket_log_is_monitor_log]
    | |- keeps _ (log _ _) => apply keeps_log; reflexivity
    | |- _ => keeps_step
    end.

Lemma keeps_after_reset st keep : keeps P (after_reset st keep).
Proof. unfold after_reset. monitor_keeps. Qed.

Lemma keeps_end_of_pass st : keeps P (end_of_pass self st).
Proof. unfold end_of_pass. monitor_keeps. Qed.

Lemma keeps_promote pr : keeps P (promote pr).
Proof. unfold promote. monitor_keeps. Qed.

Ltac monitor_keeps' :=
  repeat
    lazymatch goal with
    | |- keeps _ (after_reset _ _) => apply keeps_after_reset
    | |- keeps _ (end_of_pass _ _) => apply keeps_end_of_pass
    | |- keeps _ (promote _) => apply keeps_promote
    | |- _ => progress monitor_keeps
    end.

Lemma keeps_pr_timeout_check st pr :
  keeps P (pr_timeout_check max_pr_resets self issue_num st pr).
Proof. unfold pr_timeout_check. monitor_keeps'. Qed.

Lemma keeps_signal_path st pr : keeps P (signal_path max_pr_resets issue_num st pr).
Proof. unfold signal_path, recheck_merged. monitor_keeps'. Qed.

Lemma keeps_pr_block st pr : keeps P (pr_block max_pr_resets self issue_num st pr).
Proof.
  unfold pr_block.
  repeat
    lazymatch goal with
    | |- keeps _ (signal_path _ _ _ _) => apply keeps_signal_path
    | |- keeps _ (pr_timeout_check _ _ _ _ _) => apply keeps_pr_timeout_check
    | |- _ => progress monitor_keeps'
    end.
Qed.

Lemma keeps_no_pr_block st : keeps P (no_pr_block max_pr_resets self issue_num st).
Proof. unfold no_pr_block. monitor_keeps'. Qed.

Lemma keeps_issue_closed_check st : keeps P (issue_closed_check issue_num st).
Proof. unfold issue_closed_check. monitor_keeps. Qed.

Lemma keeps_tick st : keeps P (tick max_pr_resets self issue_num st).
Proof.
  unfold tick.
  repeat
    lazymatch goal with
    | |- keeps _ (issue_closed_check _ _) => apply keeps_issue_closed_check
    | |- keeps _ (no_pr_block _ _ _ _) => apply keeps_no_pr_block
    | |- keeps _ (pr_block _ _ _ _ _) => apply keeps_pr_block
    | |- _ => progress monitor_keeps
    end.
Qed.

Lemma keeps_wait_loop fuel st : keeps P (wait_loop max_pr_resets self issue_num fuel st).
Proof.
  revert st. induction fuel as [|fuel IH]; intros st; cbn [wait_loop].
  - intros w. apply advances_refl.
  - apply keeps_bind; [apply keeps_tick |].
    intros [st' |]; [apply IH | apply keeps_ret].
Qed.

Lemma keeps_monitor fuel : keeps P (monitor max_pr_resets self issue_num fuel).
Proof.
  unfold monitor, _require_github.
  repeat
    lazymatch goal with
    | |- keeps _ (wait_loop _ _ _ _ _) => apply keeps_wait_loop
    | |- _ => progress monitor_keeps
    end.
Qed.

Lemma total_tick st : total (tick max_pr_resets self issue_num st).
Proof.
  unfold tick, issue_closed_check, no_pr_block, pr_block, signal_path, promote,
    recheck_merged, pr_timeout_check, after_reset, end_of_pass.
  repeat
    lazymatch goal with
    | |- total (_reset_issue _) => apply total_reset_issue
    | |- _ => client_total_step
    end.
Qed.

End KeepsMonitor.

(** ** Following a run step by step *)

(** [post m w Q]: the run of [m] from [w] ends in an outcome and a world
    that satisfy [Q]. *)
Definition post {A} (m : M A) (w : world) (Q : outcome A -> world -> Prop) : Prop :=
  Q (fst (m w)) (snd (m w)).

Lemma post_ret {A} (a : A) w (Q : outcome A -> world -> Prop) :
  Q (Ok a) w -> post (ret a) w Q.
Proof. exact (fun H => H). Qed.

Lemma post_raise {A} (e : exn) w (Q : outcome A -> world -> Prop) :
  Q (Raise e) w -> post (raise e) w Q.
Proof. exact (fun H => H). Qed.

Lemma post_time w (Q : outcome Z -> world -> Prop) :
  Q (Ok (now w)) w -> post time w Q.
Proof. exact (fun H => H). Qed.

Lemma post_log lvl m w (Q : outcome unit -> world -> Prop) :
  Q (Ok tt) (pushed (EvLog lvl m) w) -> post (log lvl m) w Q.
Proof. exact (fun H => H). Qed.

Lemma post_sleep secs w (Q : outcome unit -> world -> Prop) :
  (secs < 0 -> Q (Raise ValueError) w) ->
  (SLEEP_MAX < secs -> Q (Raise OverflowError) w) ->
  (SLEEP_SURE < secs -> Q (Raise OSError) w) ->
  (0 <= secs -> Q (Ok tt) (slept secs w)) ->
  post (sleep secs) w Q.
Proof.
  intros H1 H2 H3 H4. unfold post, sleep.
  destruct (Z.ltb_spec secs 0); simpl; auto.
  destruct (Z.ltb_spec SLEEP_MAX secs); simpl; auto.
  destruct (Z.ltb_spec SLEEP_SURE secs); simpl; auto.
  destruct (sleep_cap w (now w) <? secs); simpl; auto.
Qed.

Lemma post_lift {A} (r : result A) w (Q : outcome A -> world -> Prop) :
  (forall a, r = Success a -> Q (Ok a) w) ->
  (forall e, r = Failure e -> Q (Raise e) w) ->
  post (lift r) w Q.
Proof. intros H1 H2. destruct r; unfold post; simpl; auto. Qed.

Lemma post_bind {A B} (m : M A) (k : A -> M B) w (Q : outcome B -> world -> Prop) :
  post m w (fun r w1 =>
              match r with
              | Ok a => post (k a) w1 Q
              | Raise e => Q (Raise e) w1
              | Diverge => Q Diverge w1
              end) ->
  post (bind m k) w Q.
Proof.
  unfold post. rewrite bind_unfold.
  destruct (m w) as [[a | e |] w1]; simpl; auto.
Qed.

Lemma post_attempt {A} (m : M A) w (Q : outcome (result A) -> world -> Prop) :
  post m w (fun r w1 =>
              match r with
              | Ok a => Q (Ok (Success a)) w1
              | Raise e => Q (Ok (Failure e)) w1
              | Diverge => Q Diverge w1
              end) ->
  post (attempt m) w Q.
Proof.
  unfold post. rewrite attempt_unfold.
  destruct (m w) as [[a | e |] w1]; simpl; auto.
Qed.

Lemma post_try_except {A} (m : M A) (h : exn -> M A) w (Q : outcome A -> world -> Prop) :
  post m w (fun r w1 =>
              match r with
              | Raise e => post (h e) w1 Q
              | _ => Q r w1
              end) ->
  post (try_except m h) w Q.
Proof.
  unfold post. rewrite try_except_unfold.
  destruct (m w) as [[a | e |] w1]; simpl; auto.
Qed.

(** A step that is taken as a whole: its result and its final world are
    fresh, with the equation that defines them. *)
Lemma post_call {A} (m : M A) w (Q : outcome A -> world -> Prop) :
  (forall r w1, m w = (r, w1) -> Q r w1) -> post m w Q.
Proof. intros H. unfold post. apply H. apply surjective_pairing. Qed.

Lemma post_elim {A} (m : M A) w (Q : outcome A -> world -> Prop) r w1 :
  post m w Q -> m w = (r, w1) -> Q r w1.
Proof. unfold post. intros H E. rewrite E in H. exact H. Qed.

Lemma keeps_elim P {A} (m : M A) w r w1 :
  keeps P m -> m w = (r, w1) -> advances P w w1.
Proof. intros K E. specialize (K w). rewrite E in K. exact K. Qed.

Lemma total_elim {A} (m : M A) w w1 : total m -> m w = (Diverge, w1) -> False.
Proof. intros T E. specialize (T w). rewrite E in T. apply T. reflexivity. Qed.

(** *** Counting the resets a trace announces *)

Definition announces (e : event) : bool :=
  match e with
  | EvLog _ m => is_reset_announcement m
  | _ => false
  end.

(** The number of resets announced in a trace. *)
Fixpoint announced (tr : list event) : Z :=
  match tr with
  | [] => 0
  | e :: r => (if announces e then 1 else 0) + announced r
  end.

Lemma announced_app (a b : list event) : announced (a ++ b) = announced a + announced b.
Proof. induction a as [|e a IH]; simpl; [reflexivity | rewrite IH; lia]. Qed.

Lemma announced_nonneg (tr : list event) : 0 <= announced tr.
Proof. induction tr as [|e r IH]; simpl; [lia | destruct (announces e); lia]. Qed.

(** The log lines of [_wait_and_merge] and below that announce no reset. *)
Definition quiet_log (m : log_msg) : bool :=
  (is_monitor_log m && negb (is_reset_announcement m))%bool.

Definition quiet : event -> Prop := only any_cmd quiet_log.

(** What a step that announces no reset leaves behind. *)
Definition quiet_step (w w1 : world) : Prop :=
  env w1 = env w /\ now w <= now w1 /\ announced (trace w1) = announced (trace w).

Lemma quiet_announced (d : list event) : Forall quiet d -> announced d = 0.
Proof.
  induction 1 as [|e d He _ IH]; [reflexivity |].
  simpl. rewrite IH.
  destruct e as [c | s | lvl m]; simpl; try reflexivity.
  simpl in He. unfold quiet_log in He.
  destruct (is_reset_announcement m); [| reflexivity].
  rewrite andb_false_r in He. discriminate.
Qed.

Lemma quiet_step_of_advances w w1 : advances quiet w w1 -> quiet_step w w1.
Proof.
  intros (E & _ & N & d & T & F). repeat split; try assumption.
  rewrite T, announced_app, (quiet_announced d F). lia.
Qed.

Lemma client_log_quiet m : is_client_log m = true -> quiet_log m = true.
Proof. destruct m; cbv; congruence. Qed.

Lemma ticket_log_quiet m : is_ticket_log m = true -> quiet_log m = true.
Proof. destruct m; cbv; congruence. Qed.

Lemma any_cmd_ok c : any_cmd c = true.
Proof. reflexivity. Qed.

(** The steps of [_wait_and_merge] that are taken as a whole. *)
Lemma quiet_get_issue n : keeps quiet (get_issue n).
Proof. apply keeps_get_issue; [exact client_log_quiet | reflexivity]. Qed.

Lemma quiet_get_pull n : keeps quiet (get_pull n).
Proof. apply keeps_get_pull; [exact client_log_quiet | reflexivity]. Qed.

Lemma quiet_merge_pull n : keeps quiet (merge_pull n).
Proof. apply keeps_merge_pull; [exact client_log_quiet | reflexivity]. Qed.

Lemma quiet_close_pr n b : keeps quiet (close_pr n b).
Proof. apply keeps_close_pr; [exact client_log_quiet | reflexivity]. Qed.

Lemma quiet_comment_issue n body : keeps quiet (comment_issue n body).
Proof. apply keeps_comment_issue; [exact client_log_quiet | reflexivity]. Qed.

Lemma quiet_mark_pr_ready n : keeps quiet (mark_pr_ready n).
Proof. apply keeps_mark_pr_ready; [exact client_log_quiet | reflexivity]. Qed.

Lemma quiet_check_copilot_signal n : keeps quiet (check_copilot_signal n).
Proof. apply keeps_check_copilot_signal; [exact client_log_quiet | reflexivity]. Qed.

Lemma quiet_latest_pr_from_timeline n : keeps quiet (latest_pr_from_timeline n).
Proof. apply keeps_latest_pr_from_timeline; [exact client_log_quiet | reflexivity]. Qed.

Lemma quiet_reset_issue n : keeps quiet (_reset_issue n).
Proof. apply keeps_reset_issue_gen; [exact any_cmd_ok | exact ticket_log_quiet]. Qed.

Lemma quiet_issue_closed_check n st : keeps quiet (issue_closed_check n st).
Proof.
  unfold issue_closed_check.
  repeat
    lazymatch goal with
    | |- keeps _ (get_issue _) => apply quiet_get_issue
    | |- keeps _ (log _ _) => apply keeps_log; reflexivity
    | |- _ => keeps_step
    end.
Qed.

Lemma quiet_promote pr : keeps quiet (promote pr).
Proof.
  unfold promote.
  repeat
    lazymatch goal with
    | |- keeps _ (mark_pr_ready _) => apply quiet_mark_pr_ready
    | |- _ => keeps_step
    end.
Qed.

Lemma total_issue_closed_check n st : total (issue_closed_check n st).
Proof. unfold issue_closed_check. repeat client_total_step. Qed.

Lemma total_promote pr : total (promote pr).
Proof. unfold promote. repeat client_total_step. Qed.

(** [promote] swallows every failure. *)
Lemma promote_ok pr w : exists w1, promote pr w = (Ok tt, w1).
Proof.
  unfold promote. rewrite try_except_unfold.
  pose proof (total_bind (mark_pr_ready pr) (fun _ => sleep PR_READY_WAIT)
                (total_mark_pr_ready pr) (fun _ => total_sleep _) w) as Ht.
  destruct (bind (mark_pr_ready pr) (fun _ => sleep PR_READY_WAIT) w) as [[[] | e |] w1];
    simpl in Ht; try congruence; eexists; reflexivity.
Qed.

(** A whole step that announces no reset: its result, its world and what
    it leaves behind. *)
Lemma post_quiet {A} (m : M A) w (Q : outcome A -> world -> Prop) :
  keeps quiet m -> total m ->
  (forall a w1, m w = (Ok a, w1) -> quiet_step w w1 -> Q (Ok a) w1) ->
  (forall e w1, m w = (Raise e, w1) -> quiet_step w w1 -> Q (Raise e) w1) ->
  post m w Q.
Proof.
  intros K T H1 H2. apply post_call. intros r w1 E.
  pose proof (quiet_step_of_advances _ _ (keeps_elim _ _ _ _ _ K E)) as Hq.
  destruct r as [a | e |]; [apply H1 | apply H2 | exfalso; eapply total_elim; eauto];
    assumption.
Qed.

(** ** The exceptions an operation may raise *)

(** The failures [_wait_and_merge] raises itself: the absolute ceiling
    and the four exhausted reset budgets. *)
Definition is_monitor_failure (e : exn) : bool :=
  match e with
  | RuntimeError (MsgIssueTimeout _ _) | RuntimeError (MsgNoPRResetLimit _)
  | RuntimeError (MsgPRClosedResetLimit _) | RuntimeError (MsgMergeResetLimit _ _)
  | RuntimeError (MsgPRTimeoutResetLimit _) => true
  | _ => false
  end.

Definition plain (e : exn) : Prop := is_monitor_failure e = false.

(** Every exception [m] raises satisfies [E]. *)
Definition raises (E : exn -> Prop) {A} (m : M A) : Prop :=
  forall w e w', m w = (Raise e, w') -> E e.

Lemma raises_ret E {A} (a : A) : raises E (ret a).
Proof. intros w e w' H. discriminate H. Qed.

Lemma raises_raise (E : exn -> Prop) {A} (e : exn) : E e -> raises E (@raise A e).
Proof. intros He w e' w' H. inversion H. subst. exact He. Qed.

Lemma raises_time E : raises E time.
Proof. intros w e w' H. discriminate H. Qed.

Lemma raises_log E lvl m : raises E (log lvl m).
Proof. intros w e w' H. discriminate H. Qed.

Lemma raises_spawn E cmd : raises E (spawn cmd).
Proof. intros w e w' H. discriminate H. Qed.

Lemma raises_sleep (E : exn -> Prop) secs :
  E ValueError -> E OverflowError -> E OSError -> raises E (sleep secs).
Proof.
  intros He Ho Hs w e w' H. unfold sleep in H.
  destruct (secs <? 0); [inversion H; subst; exact He |].
  destruct (SLEEP_MAX <? secs); [inversion H; subst; exact Ho |].
  destruct ((SLEEP_SURE <? secs) && (sleep_cap w (now w) <? secs))%bool; inversion H.
  subst. exact Hs.
Qed.

Lemma raises_lift (E : exn -> Prop) {A} (r : result A) :
  (forall e, r = Failure e -> E e) -> raises E (lift r).
Proof.
  intros Hr w e w' H. destruct r as [a | e0]; simpl in H; [discriminate |].
  inversion H. subst. apply Hr. reflexivity.
Qed.

Lemma raises_bind E {A B} (m : M A) (k : A -> M B) :
  raises E m -> (forall a, raises E (k a)) -> raises E (bind m k).
Proof.
  intros Hm Hk w e w' H. rewrite bind_unfold in H.
  destruct (m w) as [[a | e0 |] w1] eqn:Em.
  - eapply Hk; eauto.
  - inversion H. subst. eapply Hm; eauto.
  - discriminate.
Qed.

Lemma raises_try_except (E : exn -> Prop) {A} (m : M A) (h : exn -> M A) :
  raises E m -> (forall e, E e -> raises E (h e)) -> raises E (try_except m h).
Proof.
  intros Hm Hh w e w' H. rewrite try_except_unfold in H.
  destruct (m w) as [[a | e0 |] w1] eqn:Em; try discriminate.
  eapply Hh; eauto.
Qed.

Lemma raises_attempt E {A} (m : M A) : raises E (attempt m).
Proof.
  intros w e w' H. rewrite attempt_unfold in H.
  destruct (m w) as [[a | e0 |] w1]; discriminate.
Qed.

Ltac raises_step :=
  lazymatch goal with
  | |- raises _ (ret _) => apply raises_ret
  | |- raises _ (raise _) => apply raises_raise; first [reflexivity | assumption]
  | |- raises _ time => apply raises_time
  | |- raises _ (log _ _) => apply raises_log
  | |- raises _ (spawn _) => apply raises_spawn
  | |- raises _ (sleep _) => apply raises_sleep; reflexivity
  | |- raises _ (bind _ _) => apply raises_bind; [| intros ?; cbv beta zeta]
  | |- raises _ (try_except _ _) => apply raises_try_except; [| intros ? ?; cbv beta zeta]
  | |- raises _ (attempt _) => apply raises_attempt
  | |- raises _ (match ?x with _ => _ end) => destruct x
  end.

(** The exceptions of Python's own operations. *)
Definition is_builtin_exn (e : exn) : bool :=
  match e with
  | ValueError | IndexError | AttributeError | TypeError | KeyError => true
  | _ => false
  end.

Definition builtin_only {A} (r : result A) : Prop :=
  forall e, r = Failure e -> is_builtin_exn e = true.

Lemma builtin_plain e : is_builtin_exn e = true -> plain e.
Proof. destruct e; simpl; unfold plain; simpl; congruence. Qed.

Lemma builtin_success {A} (a : A) : builtin_only (Success a).
Proof. intros e H. discriminate H. Qed.

Lemma builtin_failure {A} (e : exn) : is_builtin_exn e = true -> builtin_only (@Failure A e).
Proof. intros He e' H. inversion H. subst. exact He. Qed.

Lemma builtin_rbind {A B} (r : result A) (k : A -> result B) :
  builtin_only r -> (forall a, builtin_only (k a)) -> builtin_only (rbind r k).
Proof.
  intros Hr Hk. destruct r as [a | e]; simpl; [apply Hk |].
  intros e' H. apply Hr. inversion H. reflexivity.
Qed.

Lemma builtin_get x k d : builtin_only (Py.get x k d).
Proof. destruct x; simpl; first [apply builtin_success | apply builtin_failure; reflexivity]. Qed.

Lemma builtin_getitem x k : builtin_only (Py.getitem x k).
Proof.
  destruct x; simpl; try (apply builtin_failure; reflexivity).
  destruct (Py.assoc k fields); [apply builtin_success | apply builtin_failure; reflexivity].
Qed.

Lemma builtin_contains_str k x : builtin_only (Py.contains_str k x).
Proof. destruct x; simpl; first [apply builtin_success | apply builtin_failure; reflexivity]. Qed.

Lemma builtin_iter x : builtin_only (Py.iter x).
Proof. destruct x; simpl; first [apply builtin_success | apply builtin_failure; reflexivity]. Qed.

Ltac builtin_step :=
  lazymatch goal with
  | |- builtin_only (Success _) => apply builtin_success
  | |- builtin_only (Failure _) => apply builtin_failure; reflexivity
  | |- builtin_only (rbind _ _) => apply builtin_rbind; [| intros ?; cbv beta zeta]
  | |- builtin_only (Py.get _ _ _) => apply builtin_get
  | |- builtin_only (Py.getitem _ _) => apply builtin_getitem
  | |- builtin_only (Py.contains_str _ _) => apply builtin_contains_str
  | |- builtin_only (Py.iter _) => apply builtin_iter
  | |- builtin_only (match ?x with _ => _ end) => destruct x
  end.

Lemma builtin_signal_scan events : builtin_only (signal_scan events).
Proof.
  induction events as [|ev rest IH]; cbn [signal_scan]; [apply builtin_success |].
  repeat first [ exact IH | builtin_step ].
Qed.

Lemma builtin_latest_pr_scan events : builtin_only (latest_pr_scan events).
Proof.
  induction events as [|ev rest IH]; cbn [latest_pr_scan]; [apply builtin_success |].
  repeat first [ exact IH | builtin_step ].
Qed.

Lemma builtin_login_of a : builtin_only (login_of a).
Proof. unfold login_of. repeat builtin_step. Qed.

Lemma builtin_logins_of l : builtin_only (logins_of l).
Proof.
  induction l as [|a l IH]; cbn [logins_of]; [apply builtin_success |].
  repeat first [ exact IH | apply builtin_login_of | builtin_step ].
Qed.

Lemma builtin_assignee_logins d : builtin_only (assignee_logins d).
Proof.
  unfold assignee_logins.
  apply builtin_rbind; [apply builtin_get |]. intros v.
  apply builtin_rbind; [apply builtin_iter |]. intros l. apply builtin_logins_of.
Qed.

Lemma builtin_rename_key old new data : builtin_only (rename_key old new data).
Proof. unfold rename_key. repeat builtin_step. Qed.

Lemma raises_lift_builtin {A} (r : result A) : builtin_only r -> raises plain (lift r).
Proof. intros H. apply raises_lift. intros e He. apply builtin_plain, H, He. Qed.

Lemma raises_run_gh_loop cmd retries remaining attempt :
  raises plain (run_gh_loop cmd retries remaining attempt).
Proof.
  revert attempt. induction remaining as [|rem IH]; intros attempt; cbn [run_gh_loop].
  - apply raises_raise. reflexivity.
  - apply raises_bind; [apply raises_spawn |]. intros o. cbv zeta.
    repeat first [ apply IH | raises_step ].
Qed.

Lemma raises_run_gh cmd retries : raises plain (_run_gh cmd retries).
Proof. apply raises_run_gh_loop. Qed.

Lemma raises_loads_or d out : raises plain (loads_or d out).
Proof. unfold loads_or, loads. repeat raises_step. Qed.

Ltac client_raises_step :=
  lazymatch goal with
  | |- raises _ (_run_gh _ _) => apply raises_run_gh
  | |- raises _ (loads_or _ _) => apply raises_loads_or
  | |- raises _ (lift (Py.get _ _ _)) => apply raises_lift_builtin, builtin_get
  | |- raises _ (lift (assignee_logins _)) => apply raises_lift_builtin, builtin_assignee_logins
  | |- raises _ (lift (rename_key _ _ _)) => apply raises_lift_builtin, builtin_rename_key
  | |- raises _ (lift (signal_scan _)) => apply raises_lift_builtin, builtin_signal_scan
  | |- raises _ (lift (latest_pr_scan _)) => apply raises_lift_builtin, builtin_latest_pr_scan
  | |- _ => raises_step
  end.

Lemma raises_get_issue n : raises plain (get_issue n).
Proof. unfold get_issue. repeat client_raises_step. Qed.

Lemma raises_api_request method path headers silent :
  raises plain (api_request method path headers silent).
Proof. unfold api_request. repeat client_raises_step. Qed.

Lemma raises_check_copilot_signal pr : raises plain (check_copilot_signal pr).
Proof.
  unfold check_copilot_signal.
  apply raises_bind; [apply raises_api_request |]. intros ev.
  repeat client_raises_step.
Qed.

Lemma raises_add_assignees_from n tried l last_error :
  raises plain (add_assignees_from n tried l last_error).
Proof.
  revert last_error. induction l as [|a l IH]; intros last_error; cbn [add_assignees_from].
  - repeat client_raises_step.
  - apply raises_bind; [apply raises_attempt |].
    intros [x | e]; [apply raises_ret | apply IH].
Qed.

Lemma raises_add_assignees n l : raises plain (add_assignees n l).
Proof. apply raises_add_assignees_from. Qed.

Lemma raises_remove_assignees n l : raises plain (remove_assignees n l).
Proof.
  induction l as [|a l IH]; cbn [remove_assignees].
  - apply raises_ret.
  - apply raises_bind; [apply raises_attempt | intros; apply IH].
Qed.

Lemma raises_reset_issue n : raises plain (_reset_issue n).
Proof.
  unfold _reset_issue.
  repeat
    lazymatch goal with
    | |- raises _ (get_issue _) => apply raises_get_issue
    | |- raises _ (add_assignees _ _) => apply raises_add_assignees
    | |- raises _ (remove_assignees _ _) => apply raises_remove_assignees
    | |- _ => client_raises_step
    end.
Qed.

(** ** One pass of the monitoring loop *)

Ltac wp_step :=
  lazymatch goal with
  | |- post (ret _) _ _ => apply post_ret
  | |- post (raise _) _ _ => apply post_raise
  | |- post time _ _ => apply post_time
  | |- post (log _ _) _ _ => apply post_log
  | |- post (sleep _) _ _ => apply post_sleep; intros ?
  | |- post (lift _) _ _ => apply post_lift; intros ? ?
  | |- post (bind _ _) _ _ => apply post_bind
  | |- post (attempt _) _ _ => apply post_attempt
  | |- post (try_except _ _) _ _ => apply post_try_except
  | |- post (if ?a >=? ?b then _ else _) _ _ => destruct (Z.geb_spec a b)
  | |- post (if ?a >? ?b then _ else _) _ _ => destruct (Z.gtb_spec a b)
  | |- post (match ?x with _ => _ end) _ _ => destruct x eqn:?
  | |- post (get_issue _) _ _ =>
      apply post_quiet; [apply quiet_get_issue | apply total_get_issue
                        | intros ? ? ? ? | intros ? ? ? ?]
  | |- post (get_pull _) _ _ =>
      apply post_quiet; [apply quiet_get_pull | apply total_get_pull
                        | intros ? ? ? ? | intros ? ? ? ?]
  | |- post (merge_pull _) _ _ =>
      apply post_quiet; [apply quiet_merge_pull | apply total_merge_pull
                        | intros ? ? ? ? | intros ? ? ? ?]
  | |- post (close_pr _ _) _ _ =>
      apply post_quiet; [apply quiet_close_pr | apply total_close_pr
                        | intros ? ? ? ? | intros ? ? ? ?]
  | |- post (comment_issue _ _) _ _ =>
      apply post_quiet; [apply quiet_comment_issue | apply total_comment_issue
                        | intros ? ? ? ? | intros ? ? ? ?]
  | |- post (check_copilot_signal _) _ _ =>
      apply post_quiet; [apply quiet_check_copilot_signal | apply total_check_copilot_signal
                        | intros ? ? ? ? | intros ? ? ? ?]
  | |- post (latest_pr_from_timeline _) _ _ =>
      apply post_quiet; [apply quiet_latest_pr_from_timeline
                        | apply total_latest_pr_from_timeline
                        | intros ? ? ? ? | intros ? ? ? ?]
  | |- post (_reset_issue _) _ _ =>
      apply post_quiet; [apply quiet_reset_issue | apply total_reset_issue
                        | intros ? ? ? ? | intros ? ? ? ?]
  | |- post (issue_closed_check _ _) _ _ =>
      apply post_quiet; [apply quiet_issue_closed_check | apply total_issue_closed_check
                        | intros ? ? ? ? | intros ? ? ? ?]
  | |- post (promote _) _ _ =>
      apply post_quiet; [apply quiet_promote | apply total_promote
                        | intros ? ? ? ? | intros ? ? ? ?]
  end; cbv beta iota zeta.

Ltac use_quiet :=
  repeat match goal with
         | H : quiet_step _ _ |- _ => destruct H as (? & ? & ?)
         end.

(** The exception in hand came out of an operation that raises no
    failure of the loop. *)
Ltac find_plain e :=
  match goal with
  | H : _reset_issue _ _ = (Raise e, _) |- _ => exact (raises_reset_issue _ _ _ _ H)
  | H : check_copilot_signal _ _ = (Raise e, _) |- _ =>
      exact (raises_check_copilot_signal _ _ _ _ H)
  | H : Py.get _ _ _ = Failure e |- _ => exact (builtin_plain _ (builtin_get _ _ _ _ H))
  end.

Section TickSpec.

Variable max_pr_resets : Z.
Variable self : Pipeline.
Variable issue_num : Z.

(** The failures of an exhausted reset budget, and the ticket they name. *)
Definition is_reset_limit (e : exn) : bool :=
  match e with
  | RuntimeError (MsgNoPRResetLimit _) | RuntimeError (MsgPRClosedResetLimit _)
  | RuntimeError (MsgMergeResetLimit _ _) | RuntimeError (MsgPRTimeoutResetLimit _) => true
  | _ => false
  end.

Definition failure_issue (e : exn) : option Z :=
  match e with
  | RuntimeError (MsgIssueTimeout n _) | RuntimeError (MsgNoPRResetLimit n)
  | RuntimeError (MsgPRClosedResetLimit n) | RuntimeError (MsgMergeResetLimit n _)
  | RuntimeError (MsgPRTimeoutResetLimit n) => Some n
  | _ => None
  end.

(** What one pass does to the clock, to the count of resets and to the
    announcements in the trace. *)
Definition tick_post (st : attempt_state) (w : world) (r : outcome loop_ctl) (w' : world)
  : Prop :=
  let grown := announced (trace w') - announced (trace w) in
  now w <= now w' /\
  0 <= grown <= 1 /\
  (grown = 1 -> reset_count st < max_pr_resets) /\
  match r with
  | Ok (Continue st') =>
      issue_start_time st' = issue_start_time st /\
      reset_count st' = reset_count st + grown /\
      now w - issue_start_time st < issue_max_wait (args self) /\
      now w + Z.min RETRY_SLEEP_SHORT (poll_interval (args self)) <= now w'
  | Ok Return => grown = 0
  | Raise e =>
      (is_monitor_failure e = true ->
       grown = 0 /\ failure_issue e = Some issue_num) /\
      (is_reset_limit e = true -> max_pr_resets <= reset_count st) /\
      (is_monitor_failure e = true ->
       is_reset_limit e = true \/
       e = RuntimeError (MsgIssueTimeout issue_num (issue_max_wait (args self))))
  | Diverge => False
  end.

Lemma reset_count_track_pr st pr t : reset_count (track_pr st pr t) = reset_count st.
Proof. unfold track_pr. destruct (negb _); reflexivity. Qed.

Lemma issue_start_time_track_pr st pr t :
  issue_start_time (track_pr st pr t) = issue_start_time st.
Proof. unfold track_pr. destruct (negb _); reflexivity. Qed.

Lemma reset_limit_is_monitor_failure e :
  is_reset_limit e = true -> is_monitor_failure e = true.
Proof. destruct e as [[] | | | | | | | |]; simpl; congruence. Qed.

Lemma plain_not_monitor_failure e : plain e -> is_monitor_failure e = true -> False.
Proof. unfold plain. congruence. Qed.

Lemma plain_not_reset_limit e : plain e -> is_reset_limit e = true -> False.
Proof.
  intros Hp Hl. apply (plain_not_monitor_failure e Hp).
  apply reset_limit_is_monitor_failure, Hl.
Qed.

Ltac leaf :=
  try match goal with
      | H : promote ?p ?w0 = (Raise _, _) |- _ =>
          exfalso; destruct (promote_ok p w0) as (? & Hk); rewrite Hk in H; discriminate H
      end;
  try match goal with
      | |- tick_post _ _ (Raise ?e) _ =>
          is_var e;
          let Hp := fresh "Hp" in
          assert (Hp : plain e) by find_plain e;
          pose proof (plain_not_monitor_failure e Hp);
          pose proof (plain_not_reset_limit e Hp)
      end;
  unfold tick_post; cbv zeta;
  use_quiet;
  repeat match goal with
         | |- context [if ?c then _ else _] => destruct c
         end;
  cbn [now trace slept pushed announced announces is_reset_announcement
       issue_start_time reset_count is_monitor_failure is_reset_limit failure_issue] in *;
  rewrite ?reset_count_track_pr, ?issue_start_time_track_pr in *;
  unfold RETRY_SLEEP_SHORT, RESET_WAIT_TIME, PR_READY_WAIT in *;
  repeat split; intros; try discriminate; try congruence; try contradiction; try lia;
  try (left; reflexivity); try (right; reflexivity).

Lemma tick_spec (st : attempt_state) (w : world) :
  post (tick max_pr_resets self issue_num st) w (tick_post st w).
Proof.
  unfold tick, no_pr_block, pr_block, signal_path, recheck_merged, pr_timeout_check,
    after_reset, end_of_pass.
  repeat wp_step.
  all: solve [leaf].
Qed.

(** The outcome and the world of one pass, with the equation in hand. *)
Lemma tick_spec_eq (st : attempt_state) (w : world) r w' :
  tick max_pr_resets self issue_num st w = (r, w') -> tick_post st w r w'.
Proof. intros E. exact (post_elim _ _ _ _ _ (tick_spec st w) E). Qed.

End TickSpec.

(** ** The monitoring loop as a whole *)

Section LoopSpec.

Variable max_pr_resets : Z.
Variable self : Pipeline.
Variable issue_num : Z.

(** A pass that ends the loop leaves the world as the pass left it:
    nothing runs after a terminal outcome. *)
Lemma wait_loop_return fuel st w w1 :
  tick max_pr_resets self issue_num st w = (Ok Return, w1) ->
  wait_loop max_pr_resets self issue_num (S fuel) st w = (Ok st, w1).
Proof. intros H. cbn [wait_loop]. rewrite (bind_ok _ _ _ _ _ H). reflexivity. Qed.

Lemma wait_loop_raise fuel st w e w1 :
  tick max_pr_resets self issue_num st w = (Raise e, w1) ->
  wait_loop max_pr_resets self issue_num (S fuel) st w = (Raise e, w1).
Proof. intros H. cbn [wait_loop]. rewrite (bind_raise _ _ _ _ _ H). reflexivity. Qed.

Lemma wait_loop_continue fuel st w st' w1 :
  tick max_pr_resets self issue_num st w = (Ok (Continue st'), w1) ->
  wait_loop max_pr_resets self issue_num (S fuel) st w =
  wait_loop max_pr_resets self issue_num fuel st' w1.
Proof. intros H. cbn [wait_loop]. rewrite (bind_ok _ _ _ _ _ H). reflexivity. Qed.



(** With passes that sleep at least a second, the loop ends before its
    clock passes the absolute ceiling: fuel beyond the seconds that remain
    is never used up. *)
Lemma wait_loop_terminates fuel st w :
  1 <= poll_interval (args self) ->
  Z.max 0 (issue_max_wait (args self) - (now w - issue_start_time st)) < Z.of_nat fuel ->
  fst (wait_loop max_pr_resets self issue_num fuel st w) <> Diverge.
Proof.
  intros Hp. revert st w. induction fuel as [|fuel IH]; intros st w Hf.
  - lia.
  - destruct (tick max_pr_resets self issue_num st w) as [[[st1 |] | e |] w1] eqn:Et;
      pose proof (tick_spec_eq _ _ _ _ _ _ _ Et) as Ht;
      unfold tick_post in Ht; cbv zeta in Ht.
    + rewrite (wait_loop_continue _ _ _ _ _ Et).
      destruct Ht as (N1 & G1 & L1 & S1 & C1 & E1 & P1).
      apply IH. rewrite S1. unfold RETRY_SLEEP_SHORT in P1. lia.
    + rewrite (wait_loop_return _ _ _ _ Et). discriminate.
    + rewrite (wait_loop_raise _ _ _ _ _ Et). discriminate.
    + destruct Ht as (_ & _ & _ & []).
Qed.

End LoopSpec.

(** ** The paths through one pass *)

Section Paths.

Variable max_pr_resets : Z.
Variable self : Pipeline.
Variable issue_num : Z.

(** The world after the ticket has been read closed. *)
Definition closed_world (st : attempt_state) (w1 : world) : world :=
  let w2 := pushed (EvLog INFO (LogIssueClosed issue_num)) w1 in
  if Py.truthy (current_pr st) then w2
  else pushed (EvLog WARNING (LogClosedNoPR issue_num)) w2.

Lemma issue_closed_check_read st w data w1 state :
  get_issue issue_num w = (Ok data, w1) ->
  Py.get data "state" JNull = Success state ->
  issue_closed_check issue_num st w =
  if Py.eq_str state "closed" then (Ok true, closed_world st w1) else (Ok false, w1).
Proof.
  intros Hg Hs. unfold issue_closed_check, closed_world.
  rewrite (bind_ok _ _ _ _ _ Hg), Hs. cbn [lift]. rewrite ret_step.
  destruct (Py.eq_str state "closed"); [| reflexivity].
  rewrite log_step. destruct (Py.truthy (current_pr st)); reflexivity.
Qed.

Lemma tick_timed_out st w :
  issue_max_wait (args self) <= now w - issue_start_time st ->
  tick max_pr_resets self issue_num st w =
  (Raise (RuntimeError (MsgIssueTimeout issue_num (issue_max_wait (args self)))), w).
Proof.
  intros H. unfold tick. rewrite time_step. cbv zeta.
  destruct (Z.geb_spec (now w - issue_start_time st) (issue_max_wait (args self)));
    [reflexivity | lia].
Qed.

Lemma tick_closed st w w1 :
  now w - issue_start_time st < issue_max_wait (args self) ->
  issue_closed_check issue_num st w = (Ok true, w1) ->
  tick max_pr_resets self issue_num st w = (Ok Return, w1).
Proof.
  intros H Hc. unfold tick. rewrite time_step. cbv zeta.
  destruct (Z.geb_spec (now w - issue_start_time st) (issue_max_wait (args self)));
    [lia |].
  rewrite bind_unfold, attempt_unfold, Hc. reflexivity.
Qed.

Lemma tick_open st w w1 pr_num w2 :
  now w - issue_start_time st < issue_max_wait (args self) ->
  issue_closed_check issue_num st w = (Ok false, w1) ->
  latest_pr_from_timeline issue_num w1 = (Ok pr_num, w2) ->
  tick max_pr_resets self issue_num st w =
  if Py.truthy pr_num then pr_block max_pr_resets self issue_num st pr_num w2
  else no_pr_block max_pr_resets self issue_num st w2.
Proof.
  intros H Hc Hl. unfold tick. rewrite time_step. cbv zeta.
  destruct (Z.geb_spec (now w - issue_start_time st) (issue_max_wait (args self)));
    [lia |].
  rewrite bind_unfold, attempt_unfold, Hc.
  rewrite bind_unfold, attempt_unfold, Hl.
  destruct (Py.truthy pr_num); reflexivity.
Qed.

(** The change-request has been read: it is neither merged nor closed. *)
Definition pr_open (pr : json) : Prop :=
  exists merged_at state,
    Py.get pr "merged_at" JNull = Success merged_at /\ Py.truthy merged_at = false /\
    Py.get pr "state" JNull = Success state /\ Py.eq_str state "closed" = false.


Lemma pr_block_open st pr_num w pr w1 signaled w2 :
  get_pull pr_num w = (Ok pr, w1) ->
  pr_open pr ->
  check_copilot_signal pr_num w1 = (Ok signaled, w2) ->
  pr_block max_pr_resets self issue_num st pr_num w =
  if signaled then signal_path max_pr_resets issue_num (track_pr st pr_num (now w)) pr_num w2
  else pr_timeout_check max_pr_resets self issue_num (track_pr st pr_num (now w)) pr_num w2.
Proof.
  intros Hg (m & s & Hm & Hmt & Hs & Hsc) Hsig.
  unfold pr_block. rewrite time_step. cbv zeta.
  rewrite bind_unfold, attempt_unfold, Hg.
  rewrite Hm. cbn [lift]. rewrite ret_step, Hmt, Hs. cbn [lift]. rewrite ret_step, Hsc.
  rewrite (bind_ok _ _ _ _ _ Hsig). destruct signaled; reflexivity.
Qed.


Lemma signal_path_merged st pr_num w w1 j w2 :
  promote pr_num w = (Ok tt, w1) ->
  merge_pull pr_num w1 = (Ok j, w2) ->
  signal_path max_pr_resets issue_num st pr_num w = (Ok Return, w2).
Proof.
  intros Hp Hm. unfold signal_path.
  rewrite (bind_ok _ _ _ _ _ Hp), bind_unfold, attempt_unfold, Hm. reflexivity.
Qed.


End Paths.

(** ** C3: a closed ticket ends the monitoring *)

(** The one command of a pass that finds the ticket closed. *)
Definition view_cmd (n : Z) (c : gh_cmd) : bool :=
  match c with
  | GhIssueView m => m =? n
  | _ => false
  end.

Lemma keeps_closed_check n st : keeps (only (view_cmd n) quiet_log) (issue_closed_check n st).
Proof.
  unfold issue_closed_check.
  repeat
    lazymatch goal with
    | |- keeps _ (get_issue _) =>
        apply keeps_get_issue; [exact client_log_quiet | simpl; apply Z.eqb_refl]
    | |- keeps _ (log _ _) => apply keeps_log; reflexivity
    | |- _ => keeps_step
    end.
Qed.

(** C3.  On a monitoring pass that is not past the absolute ceiling, when
    the ticket is read and its state is "closed":
    (1) the pass returns, and so does the loop, with the world the pass
    left: the work item ends in success, nothing is raised;
    (2) the warning "closed without a change-request" is logged exactly
    when no change-request is tracked ([current_pr] is [None], its value
    until one is observed);
    (3) the only [gh] command of the pass is the read of the ticket, and
    no reset is announced. *)
Theorem closed_ticket_is_success (max_pr_resets : Z) (self : Pipeline) (issue_num : Z)
    (st : attempt_state) (w : world) (data : json) (w1 : world) (state : json)
    (fuel : nat) :
  now w - issue_start_time st < issue_max_wait (args self) ->
  get_issue issue_num w = (Ok data, w1) ->
  Py.get data "state" JNull = Success state ->
  Py.eq_str state "closed" = true ->
  let w' := closed_world issue_num st w1 in
  tick max_pr_resets self issue_num st w = (Ok Return, w') /\
  wait_loop max_pr_resets self issue_num (S fuel) st w = (Ok st, w') /\
  trace w' =
    (if Py.truthy (current_pr st) then [] else [EvLog WARNING (LogClosedNoPR issue_num)])
    ++ EvLog INFO (LogIssueClosed issue_num) :: trace w1 /\
  advances (only (view_cmd issue_num) quiet_log) w w' /\
  announced (trace w') = announced (trace w).
Proof.
  intros Hlive Hg Hs Hc w'.
  assert (Hcheck : issue_closed_check issue_num st w = (Ok true, w')).
  { rewrite (issue_closed_check_read issue_num st w data w1 state Hg Hs), Hc. reflexivity. }
  assert (Ht : tick max_pr_resets self issue_num st w = (Ok Return, w')).
  { apply tick_closed; assumption. }
  split; [exact Ht |].
  split; [apply wait_loop_return, Ht |].
  split.
  { unfold w', closed_world. cbv zeta. destruct (Py.truthy (current_pr st)); reflexivity. }
  pose proof (keeps_elim _ _ _ _ _ (keeps_closed_check issue_num st) Hcheck) as Ha.
  split; [exact Ha |].
  assert (Hq : advances quiet w w').
  { eapply advances_weaken; [| exact Ha].
    intros [c | s | lvl m]; simpl; auto. }
  apply quiet_step_of_advances in Hq. destruct Hq as (_ & _ & Hq). exact Hq.
Qed.

(** ** C7: the tracked change-request and the priority of the signal *)

(** What one timeline event links: the body of the loop of
    [latest_pr_from_timeline]. *)
Definition event_link (event : json) : result (option json) :=
  rbind (Py.get event "event" JNull) (fun kind =>
    if Py.eq_str kind "cross-referenced" then
      rbind (Py.get event "source" (JObj [])) (fun src =>
      rbind (Py.get src "issue" (JObj [])) (fun source =>
      rbind (Py.contains_str "pull_request" source) (fun linked =>
        if linked then rbind (Py.getitem source "number") (fun n => Success (Some n))
        else Success None)))
    else Success None).

Lemma latest_pr_scan_cons (event : json) (rest : list json) :
  latest_pr_scan (event :: rest) =
  rbind (event_link event) (fun link =>
    match link with
    | Some n => Success n
    | None => latest_pr_scan rest
    end).
Proof.
  cbn [latest_pr_scan]. unfold event_link.
  destruct (Py.get event "event" JNull) as [kind | e]; [| reflexivity]. cbn [rbind].
  destruct (Py.eq_str kind "cross-referenced"); [| reflexivity].
  destruct (Py.get event "source" (JObj [])) as [src | e]; [| reflexivity]. cbn [rbind].
  destruct (Py.get src "issue" (JObj [])) as [source | e]; [| reflexivity]. cbn [rbind].
  destruct (Py.contains_str "pull_request" source) as [[|] | e]; try reflexivity.
  cbn [rbind]. destruct (Py.getitem source "number"); reflexivity.
Qed.

(** The newest linking event decides, whatever the older events are. *)
Lemma latest_pr_scan_newest (older newer : list json) (event : json) (n : json) :
  event_link event = Success (Some n) ->
  Forall (fun ev => event_link ev = Success None) newer ->
  latest_pr_scan (rev (older ++ event :: newer)) = Success n.
Proof.
  intros He Hn. rewrite rev_app_distr. cbn [rev]. rewrite <- app_assoc. cbn [app].
  apply Forall_rev in Hn. induction Hn as [|ev rest Hev _ IH].
  - cbn [app]. rewrite latest_pr_scan_cons, He. reflexivity.
  - cbn [app]. rewrite latest_pr_scan_cons, Hev. exact IH.
Qed.

(** The marks of the age-timeout path: its comment and its log lines. *)
Definition no_timeout_cmd (c : gh_cmd) : bool :=
  match c with
  | GhIssueComment _ (TimeoutComment _ _) => false
  | _ => true
  end.

Definition no_timeout_log (m : log_msg) : bool :=
  match m with
  | LogPRTimeoutReset _ _ | LogPRTimeoutLimit _ | LogClosePRFailed _ => false
  | _ => is_monitor_log m
  end.

Lemma client_log_no_timeout m : is_client_log m = true -> no_timeout_log m = true.
Proof. destruct m; cbv; congruence. Qed.

Lemma ticket_log_no_timeout m : is_ticket_log m = true -> no_timeout_log m = true.
Proof. destruct m; cbv; congruence. Qed.

Lemma keeps_reset_issue_strict (n : Z) :
  keeps (only (reset_cmd n) is_ticket_log) (_reset_issue n).
Proof.
  unfold _reset_issue.
  repeat
    lazymatch goal with
    | |- keeps _ (get_issue _) =>
        apply keeps_get_issue; [exact client_log_is_ticket_log | simpl; apply Z.eqb_refl]
    | |- keeps _ (remove_assignees _ _) =>
        apply keeps_remove_assignees; [exact client_log_is_ticket_log |];
        intros cand Hcand; simpl; rewrite Z.eqb_refl; apply (mem_string_In cand _ Hcand)
    | |- keeps _ (add_assignees _ _) =>
        apply keeps_add_assignees; [exact client_log_is_ticket_log |];
        intros cand Hcand; simpl; rewrite Z.eqb_refl; apply (mem_string_In cand _ Hcand)
    | |- keeps _ (log _ _) => apply keeps_log; reflexivity
    | |- _ => keeps_step
    end.
Qed.

Lemma keeps_signal_path_no_timeout max_pr_resets issue_num st pr :
  keeps (only no_timeout_cmd no_timeout_log) (signal_path max_pr_resets issue_num st pr).
Proof.
  unfold signal_path, promote, recheck_merged, after_reset.
  repeat
    lazymatch goal with
    | |- keeps _ (mark_pr_ready _) =>
        apply keeps_mark_pr_ready; [exact client_log_no_timeout | reflexivity]
    | |- keeps _ (merge_pull _) =>
        apply keeps_merge_pull; [exact client_log_no_timeout | reflexivity]
    | |- keeps _ (get_pull _) =>
        apply keeps_get_pull; [exact client_log_no_timeout | reflexivity]
    | |- keeps _ (comment_issue _ _) =>
        apply keeps_comment_issue; [exact client_log_no_timeout | reflexivity]
    | |- keeps _ (close_pr _ _) =>
        apply keeps_close_pr; [exact client_log_no_timeout | reflexivity]
    | |- keeps _ (_reset_issue _) =>
        apply (keeps_weaken (only (reset_cmd issue_num) is_ticket_log));
        [ intros [c | s | lvl m]; simpl; auto;
          [ destruct c; simpl; congruence | apply ticket_log_no_timeout ]
        | apply keeps_reset_issue_strict ]
    | |- keeps _ (log _ _) => apply keeps_log; reflexivity
    | |- _ => keeps_step
    end.
Qed.

(** The commands of the first step of the signal path: [gh pr ready]. *)
Definition ready_cmd (pr : json) (c : gh_cmd) : bool :=
  match c with
  | GhPrReady p => Py.eqb p pr
  | _ => false
  end.

Lemma json_eqb_refl (j : json) : Py.eqb j j = true.
Proof.
  revert j. fix IH 1. intros [| b | n | s | l | l]; cbn [Py.eqb].
  - reflexivity.
  - destruct b; reflexivity.
  - apply Z.eqb_refl.
  - apply String.eqb_refl.
  - induction l as [|x l IHl]; [reflexivity |]. rewrite (IH x), IHl. reflexivity.
  - induction l as [|[k x] l IHl]; [reflexivity |].
    rewrite String.eqb_refl, (IH x), IHl. reflexivity.
Qed.

Lemma current_pr_track_pr st pr t : Py.eqb (current_pr (track_pr st pr t)) pr = true.
Proof.
  unfold track_pr. destruct (Py.eqb (current_pr st) pr) eqn:E; simpl.
  - exact E.
  - apply json_eqb_refl.
Qed.

(** C7.  (1) The change-request a pass works on is the one linked by the
    newest linking event of the ticket's timeline: the events older than
    it, earlier links among them, do not matter.
    (2) On a pass that reads the ticket open, finds change-request
    [pr_num] linked, reads it neither merged nor closed and sees the
    completion signal on it, the pass tracks [pr_num] and continues as the
    signal path from there, whatever the age of the change-request: it
    promotes the change-request and merges it, returning when the merge
    succeeds, and neither the comment nor the log lines of the age-timeout
    path appear in it. *)
Theorem latest_pr_and_signal_first (max_pr_resets : Z) (self : Pipeline) (issue_num : Z)
    (st : attempt_state) (w w1 w2 w3 w4 : world) (pr_num pr : json) :
  (forall output events older event newer wa wb,
      _run_gh (GhApi (IssueTimeline (JNum issue_num)) "GET" [TIMELINE_ACCEPT_HEADER]) 3 wa
        = (Ok output, wb) ->
      PyStr.is_empty output = false ->
      json_loads output = Some (JArr events) ->
      events = older ++ event :: newer ->
      event_link event = Success (Some pr_num) ->
      Forall (fun ev => event_link ev = Success None) newer ->
      latest_pr_from_timeline issue_num wa = (Ok pr_num, wb)) /\
  (now w - issue_start_time st < issue_max_wait (args self) ->
   issue_closed_check issue_num st w = (Ok false, w1) ->
   latest_pr_from_timeline issue_num w1 = (Ok pr_num, w2) ->
   Py.truthy pr_num = true ->
   get_pull pr_num w2 = (Ok pr, w3) ->
   pr_open pr ->
   check_copilot_signal pr_num w3 = (Ok true, w4) ->
   let tracked := track_pr st pr_num (now w2) in
   Py.eqb (current_pr tracked) pr_num = true /\
   tick max_pr_resets self issue_num st w =
     signal_path max_pr_resets issue_num tracked pr_num w4 /\
   advances (only no_timeout_cmd no_timeout_log) w4
     (snd (tick max_pr_resets self issue_num st w)) /\
   exists w5,
     promote pr_num w4 = (Ok tt, w5) /\
     advances (only (ready_cmd pr_num) is_client_log) w4 w5 /\
     forall j w6,
       merge_pull pr_num w5 = (Ok j, w6) ->
       tick max_pr_resets self issue_num st w = (Ok Return, w6)).
Proof.
  split.
  - intros output events older event newer wa wb Hf Hne Hj -> He Hn.
    unfold latest_pr_from_timeline.
    rewrite bind_unfold, api_request_silent, Hf, Hne, Hj.
    rewrite (latest_pr_scan_newest older newer event pr_num He Hn). reflexivity.
  - intros Hlive Hc Hl Ht Hg Ho Hs tracked.
    assert (Htick : tick max_pr_resets self issue_num st w =
                    signal_path max_pr_resets issue_num tracked pr_num w4).
    { rewrite (tick_open max_pr_resets self issue_num st w w1 pr_num w2 Hlive Hc Hl), Ht.
      rewrite (pr_block_open max_pr_resets self issue_num st pr_num w2 pr w3 true w4 Hg Ho Hs).
      reflexivity. }
    split; [apply current_pr_track_pr |].
    split; [exact Htick |].
    split; [rewrite Htick; apply keeps_signal_path_no_timeout |].
    destruct (promote_ok pr_num w4) as (w5 & Hp).
    exists w5. split; [exact Hp |]. split.
    + assert (K : keeps (only (ready_cmd pr_num) is_client_log) (promote pr_num)).
      { unfold promote.
        repeat
          lazymatch goal with
          | |- keeps _ (mark_pr_ready _) =>
              apply keeps_mark_pr_ready; [auto | simpl; apply json_eqb_refl]
          | |- _ => keeps_step
          end. }
      exact (keeps_elim _ _ _ _ _ K Hp).
    + intros j w6 Hm. rewrite Htick.
      exact (signal_path_merged max_pr_resets issue_num tracked pr_num w4 w5 j w6 Hp Hm).
Qed.

(** ** C1: resets, their count and the exhausted budget *)




Section Triggers.

Variable max_pr_resets : Z.
Variable self : Pipeline.
Variable issue_num : Z.









End Triggers.


Section Cause.

Variable max_pr_resets : Z.
Variable self : Pipeline.
Variable issue_num : Z.













End Cause.




(** ** C5 and C4: whole-attempt retries and the batch runner *)

Section RunSpec.

Variable fuel : nat.
Variable self : Pipeline.

Lemma base_retry_wait_pos : 1 <= base_retry_wait self.
Proof. unfold base_retry_wait. lia. Qed.

Lemma retry_wait_time_pos (attempt_no : Z) : 1 <= attempt_no -> 1 <= retry_wait_time self attempt_no.
Proof.
  intros H. unfold retry_wait_time.
  pose proof base_retry_wait_pos.
  assert (0 < 2 ^ (attempt_no - 1)) by (apply Z.pow_pos_nonneg; lia).
  nia.
Qed.

(** The world after a failed attempt that is followed by another. *)
Definition retried (i total : Z) (item : WorkItem) (attempt_no : Z) (e : exn) (w1 : world)
  : world :=
  slept (retry_wait_time self attempt_no)
    (pushed (EvLog WARNING (LogRetryWait (retry_wait_time self attempt_no)))
       (pushed (EvLog ERROR (LogItemFailed i total (id_full item) attempt_no
                               (max_task_retries self) e))
          w1)).

(** The world after the failed attempt that gives the item up. *)
Definition given_up (i total : Z) (item : WorkItem) (attempt_no : Z) (e : exn) (w1 : world)
  : world :=
  pushed (EvLog ERROR (LogItemException e))
    (pushed (EvLog ERROR (LogItemFinalFail i total (id_full item)))
       (pushed (EvLog ERROR (LogItemFailed i total (id_full item) attempt_no
                               (max_task_retries self) e))
          w1)).

Lemma retry_loop_success i total item remaining attempt_no w w1 :
  attempt_item fuel self item w = (Ok tt, w1) ->
  retry_loop fuel self i total item (S remaining) attempt_no w = (Ok None, w1).
Proof.
  intros H. cbn [retry_loop]. rewrite bind_unfold, attempt_unfold, H. reflexivity.
Qed.

(** The world after a failed attempt whose wait [time.sleep] refuses:
    both lines are logged, nothing is slept. *)
Definition refused (i total : Z) (item : WorkItem) (attempt_no : Z) (e : exn) (w1 : world)
  : world :=
  pushed (EvLog WARNING (LogRetryWait (retry_wait_time self attempt_no)))
    (pushed (EvLog ERROR (LogItemFailed i total (id_full item) attempt_no
                            (max_task_retries self) e))
       w1).

Lemma retry_wait_time_mono (n m : Z) :
  1 <= n <= m -> retry_wait_time self n <= retry_wait_time self m.
Proof.
  intros H. unfold retry_wait_time. pose proof base_retry_wait_pos.
  assert (2 ^ (n - 1) <= 2 ^ (m - 1)) by (apply Z.pow_le_mono_r; lia).
  assert (0 < 2 ^ (n - 1)) by (apply Z.pow_pos_nonneg; lia).
  nia.
Qed.

Lemma sleep_outcome_sure (secs : Z) (w : world) :
  secs <= SLEEP_SURE -> sleep_outcome secs w = Ok tt.
Proof.
  intros H. unfold sleep_outcome, SLEEP_MAX, SLEEP_SURE in *.
  destruct (Z.ltb_spec 9223372036 secs); [lia |].
  destruct (Z.ltb_spec 100000000 secs); [lia | reflexivity].
Qed.

Lemma sleep_outcome_taken (secs : Z) (w : world) :
  secs <= SLEEP_MAX -> secs <= sleep_cap w (now w) -> sleep_outcome secs w = Ok tt.
Proof.
  intros H1 H2. unfold sleep_outcome.
  destruct (Z.ltb_spec SLEEP_MAX secs); [lia |].
  destruct (Z.ltb_spec (sleep_cap w (now w)) secs); [lia |].
  rewrite Bool.andb_false_r. reflexivity.
Qed.

Lemma sleep_outcome_raise (secs : Z) (w : world) (e : exn) :
  sleep_outcome secs w = Raise e ->
  (e = OverflowError /\ SLEEP_MAX < secs) \/
  (e = OSError /\ SLEEP_SURE < secs <= SLEEP_MAX /\ sleep_cap w (now w) < secs).
Proof.
  unfold sleep_outcome. destruct (Z.ltb_spec SLEEP_MAX secs) as [Hmax | Hmax].
  - intros He. injection He as <-. left. split; [reflexivity | assumption].
  - destruct (Z.ltb_spec SLEEP_SURE secs) as [Hsure | Hsure]; cbn [andb]; [| discriminate].
    destruct (Z.ltb_spec (sleep_cap w (now w)) secs) as [Hcap | Hcap]; [| discriminate].
    intros He. injection He as <-. right. repeat split; assumption.
Qed.

Lemma sleep_outcome_ends (secs : Z) (w : world) : sleep_outcome secs w <> Diverge.
Proof.
  unfold sleep_outcome. destruct (SLEEP_MAX <? secs); [discriminate |].
  destruct ((SLEEP_SURE <? secs) && (sleep_cap w (now w) <? secs))%bool; discriminate.
Qed.

Lemma retry_loop_failure i total item remaining attempt_no w e w1 :
  1 <= attempt_no ->
  attempt_item fuel self item w = (Raise e, w1) ->
  retry_loop fuel self i total item (S remaining) attempt_no w =
  if attempt_no <? max_task_retries self
  then
    match sleep_outcome (retry_wait_time self attempt_no) w1 with
    | Ok _ => retry_loop fuel self i total item remaining (attempt_no + 1)
                (retried i total item attempt_no e w1)
    | Raise e' => (Raise e', refused i total item attempt_no e w1)
    | Diverge => (Diverge, refused i total item attempt_no e w1)
    end
  else (Ok (Some (id_full item, e)), given_up i total item attempt_no e w1).
Proof.
  intros Hpos H. cbn [retry_loop]. rewrite bind_unfold, attempt_unfold, H.
  rewrite log_step. destruct (attempt_no <? max_task_retries self); [| reflexivity].
  cbv zeta. rewrite log_step.
  pose proof (retry_wait_time_pos attempt_no Hpos).
  rewrite sleep_cases by lia. reflexivity.
Qed.

(** The only exceptions the retry loop lets out are those of a wait that
    [time.sleep] refuses, and no wait within [SLEEP_SURE] is refused. *)
Lemma retry_loop_raise i total item remaining attempt_no w e w' :
  1 <= attempt_no ->
  retry_loop fuel self i total item remaining attempt_no w = (Raise e, w') ->
  (e = OverflowError \/ e = OSError) /\ SLEEP_SURE < longest_retry_wait self.
Proof.
  revert attempt_no w. induction remaining as [|rem IH]; intros attempt_no w Hpos H.
  - discriminate H.
  - destruct (attempt_item fuel self item w) as [[[] | e0 |] w1] eqn:Ea.
    + rewrite (retry_loop_success _ _ _ _ _ _ _ Ea) in H. discriminate H.
    + rewrite (retry_loop_failure _ _ _ _ _ _ _ _ Hpos Ea) in H.
      destruct (Z.ltb_spec attempt_no (max_task_retries self)); [| discriminate H].
      destruct (sleep_outcome (retry_wait_time self attempt_no) w1) as [[] | e1 |] eqn:Es.
      * eapply IH; [| exact H]. lia.
      * injection H as <- _.
        assert (Hbig : SLEEP_SURE < retry_wait_time self attempt_no).
        { destruct (sleep_outcome_raise _ _ _ Es) as [(_ & Hb) | (_ & Hb & _)];
            unfold SLEEP_MAX, SLEEP_SURE in *; lia. }
        split.
        { destruct (sleep_outcome_raise _ _ _ Es) as [(-> & _) | (-> & _)];
            [left | right]; reflexivity. }
        unfold longest_retry_wait.
        destruct (Z.leb_spec (max_task_retries self) 1); [lia |].
        pose proof (retry_wait_time_mono attempt_no (max_task_retries self - 1)). lia.
      * discriminate H.
    + cbn [retry_loop] in H. rewrite bind_unfold, attempt_unfold, Ea in H. discriminate H.
Qed.

(** With waits that every platform sleeps, the retry loop never lets an
    exception out. *)
Lemma retry_loop_no_raise i total item remaining attempt_no w e w' :
  longest_retry_wait self <= SLEEP_SURE ->
  1 <= attempt_no ->
  retry_loop fuel self i total item remaining attempt_no w <> (Raise e, w').
Proof.
  intros Hfit Hpos H. destruct (retry_loop_raise _ _ _ _ _ _ _ _ Hpos H) as (_ & Hbig). lia.
Qed.

(** An identifier is recorded only for the item at hand. *)
Lemma retry_loop_records i total item remaining attempt_no w f w' :
  1 <= attempt_no ->
  retry_loop fuel self i total item remaining attempt_no w = (Ok (Some f), w') ->
  fst f = id_full item.
Proof.
  revert attempt_no w. induction remaining as [|rem IH]; intros attempt_no w Hpos H.
  - discriminate H.
  - destruct (attempt_item fuel self item w) as [[[] | e0 |] w1] eqn:Ea.
    + rewrite (retry_loop_success _ _ _ _ _ _ _ Ea) in H. discriminate H.
    + rewrite (retry_loop_failure _ _ _ _ _ _ _ _ Hpos Ea) in H.
      destruct (attempt_no <? max_task_retries self).
      * destruct (sleep_outcome (retry_wait_time self attempt_no) w1) as [[] | e1 |];
          [| discriminate H | discriminate H].
        eapply IH; [| exact H]. lia.
      * inversion H. reflexivity.
    + cbn [retry_loop] in H. rewrite bind_unfold, attempt_unfold, Ea in H. discriminate H.
Qed.

Lemma process_items_step i total item rest failed w r w1 :
  retry_loop fuel self i total item (Z.to_nat (max_task_retries self)) 1 w = (Ok r, w1) ->
  process_items fuel self i total (item :: rest) failed w =
  process_items fuel self (i + 1) total rest
    (match r with Some f => failed ++ [f] | None => failed end) w1.
Proof. intros H. cbn [process_items]. rewrite (bind_ok _ _ _ _ _ H). reflexivity. Qed.

(** The failures the batch loop returns are the ones it was given
    followed by records of items of the queue, in their order; the only
    exceptions it lets out are those of a refused wait. *)
Lemma process_items_spec i total items failed w r w' :
  process_items fuel self i total items failed w = (r, w') ->
  match r with
  | Ok l => exists more, l = failed ++ more /\
                         incl (map fst more) (map id_full items)
  | Raise e => (e = OverflowError \/ e = OSError) /\ SLEEP_SURE < longest_retry_wait self
  | Diverge => True
  end.
Proof.
  revert i failed w. induction items as [|item rest IH]; intros i failed w H.
  - cbn in H. inversion H. subst. exists []. split; [symmetry; apply app_nil_r |].
    intros x [].
  - destruct (retry_loop fuel self i total item (Z.to_nat (max_task_retries self)) 1 w)
      as [[o | e |] w1] eqn:El.
    + rewrite (process_items_step _ _ _ _ _ _ _ _ El) in H.
      specialize (IH _ _ _ H). destruct r as [l | e |]; try exact IH.
      destruct IH as (more & Hl & Hin). destruct o as [f |].
      * exists (f :: more). split.
        { rewrite Hl, <- app_assoc. reflexivity. }
        cbn [map]. intros x [Hx | Hx].
        { left. rewrite <- Hx. symmetry.
          eapply retry_loop_records; [| exact El]. lia. }
        { right. apply Hin, Hx. }
      * exists more. split; [exact Hl |].
        intros x Hx. right. apply Hin, Hx.
    + cbn [process_items] in H. rewrite bind_unfold, El in H. inversion H. subst.
      eapply retry_loop_raise; [| exact El]. lia.
    + cbn [process_items] in H. rewrite (bind_diverge _ _ _ _ El) in H.
      inversion H. exact I.
Qed.

Lemma report_items_ok failed w :
  exists w', report_items failed w = (Ok tt, w') /\
             trace w' = rev (map (fun f => EvLog ERROR (LogFailedItem (fst f) (snd f))) failed)
                        ++ trace w /\
             env w' = env w /\ ncalls w' = ncalls w /\ now w' = now w.
Proof.
  revert w. induction failed as [|[id e] rest IH]; intros w.
  - exists w. repeat split; reflexivity.
  - cbn [report_items]. rewrite log_step.
    destruct (IH (pushed (EvLog ERROR (LogFailedItem id e)) w)) as (w' & Hr & Ht & He & Hc & Hn).
    exists w'. split; [exact Hr |]. split; [| auto].
    rewrite Ht. cbn [map rev fst snd pushed trace]. rewrite <- app_assoc. reflexivity.
Qed.

(** The report of [run]: a count, one line for each failure, a hint. *)
Definition report_trace (failed : list (string * exn)) : list event :=
  match failed with
  | [] => []
  | _ =>
      EvLog ERROR LogManualHint
      :: rev (map (fun f => EvLog ERROR (LogFailedItem (fst f) (snd f))) failed)
      ++ [EvLog ERROR (LogFailedCount (List.length failed))]
  end.

Lemma report_failures_ok failed w :
  exists w', report_failures failed w = (Ok tt, w') /\
             trace w' = report_trace failed ++ trace w /\
             env w' = env w /\ ncalls w' = ncalls w /\ now w' = now w.
Proof.
  destruct failed as [|f rest].
  - exists w. repeat split; reflexivity.
  - unfold report_failures. rewrite log_step.
    destruct (report_items_ok (f :: rest)
                (pushed (EvLog ERROR (LogFailedCount (List.length (f :: rest)))) w))
      as (w1 & Hr & Ht & He & Hc & Hn).
    rewrite (bind_ok _ _ _ _ _ Hr).
    eexists. split; [reflexivity |]. split; [| auto].
    cbn [pushed trace]. rewrite Ht. unfold report_trace.
    cbn [pushed trace app]. f_equal. rewrite <- app_assoc. reflexivity.
Qed.

(** [run] returns the failures it has logged; the only exceptions it
    lets out are those of a refused wait. *)
Lemma run_spec items w r w' :
  run fuel self items w = (r, w') ->
  match r with
  | Ok failed =>
      incl (map fst failed) (map id_full items) /\
      exists w1, trace w' = report_trace failed ++ trace w1 /\ ncalls w' = ncalls w1
  | Raise e => (e = OverflowError \/ e = OSError) /\ SLEEP_SURE < longest_retry_wait self
  | Diverge => True
  end.
Proof.
  unfold run. destruct (Z.of_nat (List.length items) =? 0).
  - intros H. inversion H. subst. split; [intros x [] |].
    exists w'. split; reflexivity.
  - intros H. rewrite bind_unfold in H.
    destruct (process_items fuel self 1 (Z.of_nat (List.length items)) items [] w)
      as [[failed | e |] w1] eqn:Ep;
      pose proof (process_items_spec _ _ _ _ _ _ _ Ep) as Hs.
    + destruct Hs as (more & Hl & Hin). cbn [app] in Hl. subst more.
      destruct (report_failures_ok failed w1) as (w2 & Hr & Ht & _ & Hc & _).
      rewrite (bind_ok _ _ _ _ _ Hr) in H. inversion H. subst.
      split; [exact Hin |]. exists w1. split; assumption.
    + inversion H. subst. exact Hs.
    + inversion H. exact I.
Qed.

End RunSpec.

Section RunTerminates.

Variable fuel : nat.
Variable self : Pipeline.
Hypothesis poll_ok : 1 <= poll_interval (args self).
Hypothesis fuel_ok : Z.max 0 (issue_max_wait (args self)) < Z.of_nat fuel.
Hypothesis waits_ok : longest_retry_wait self <= SLEEP_SURE.

Lemma monitor_terminates max_pr_resets issue_num w :
  fst (monitor max_pr_resets self issue_num fuel w) <> Diverge.
Proof.
  unfold monitor, _require_github. destruct (dry_run (args self)); [discriminate |].
  destruct (github self); [| discriminate].
  rewrite ret_step, time_step.
  apply wait_loop_terminates; [exact poll_ok |].
  cbn [initial_state issue_start_time]. replace (now w - now w) with 0 by lia.
  rewrite Z.sub_0_r. exact fuel_ok.
Qed.

Lemma attempt_item_terminates item w : fst (attempt_item fuel self item w) <> Diverge.
Proof.
  unfold attempt_item. rewrite bind_unfold.
  pose proof (total_ensure_issue self item w) as Ht.
  destruct (_ensure_issue self item w) as [[n | e |] w1]; simpl in Ht;
    [| discriminate | congruence].
  destruct (negb (dry_run (args self))); [| discriminate].
  unfold _wait_and_merge. rewrite bind_unfold.
  pose proof (monitor_terminates DEFAULT_MAX_PR_RESETS n w1) as Hm.
  destruct (monitor DEFAULT_MAX_PR_RESETS self n fuel w1) as [[st | e |] w2];
    simpl in Hm; [discriminate | discriminate | congruence].
Qed.

Lemma retry_loop_terminates i total item remaining attempt_no w :
  1 <= attempt_no ->
  exists r w', retry_loop fuel self i total item remaining attempt_no w = (Ok r, w').
Proof.
  revert attempt_no w. induction remaining as [|rem IH]; intros attempt_no w Hpos.
  - eexists _, _. reflexivity.
  - pose proof (attempt_item_terminates item w) as Ht.
    destruct (attempt_item fuel self item w) as [[[] | e |] w1] eqn:Ea; simpl in Ht;
      [| | congruence].
    + rewrite (retry_loop_success _ _ _ _ _ _ _ _ _ Ea). eexists _, _. reflexivity.
    + rewrite (retry_loop_failure _ _ _ _ _ _ _ _ _ _ Hpos Ea).
      destruct (Z.ltb_spec attempt_no (max_task_retries self)).
      * rewrite sleep_outcome_sure; [apply IH; lia |].
        unfold longest_retry_wait in waits_ok.
        destruct (Z.leb_spec (max_task_retries self) 1); [lia |].
        pose proof (retry_wait_time_mono self attempt_no (max_task_retries self - 1)). lia.
      * eexists _, _. reflexivity.
Qed.

Lemma process_items_terminates i total items failed w :
  exists l w', process_items fuel self i total items failed w = (Ok l, w').
Proof.
  revert i failed w. induction items as [|item rest IH]; intros i failed w.
  - eexists _, _. reflexivity.
  - destruct (retry_loop_terminates i total item (Z.to_nat (max_task_retries self)) 1 w)
      as (r & w1 & Hr); [lia |].
    rewrite (process_items_step _ _ _ _ _ _ _ _ _ _ Hr). apply IH.
Qed.

(** With enough fuel for each monitoring loop, [run] returns. *)
Lemma run_terminates items w :
  exists failed w', run fuel self items w = (Ok failed, w').
Proof.
  unfold run. destruct (Z.of_nat (List.length items) =? 0).
  - eexists _, _. reflexivity.
  - destruct (process_items_terminates 1 (Z.of_nat (List.length items)) items [] w)
      as (l & w1 & Hp).
    rewrite (bind_ok _ _ _ _ _ Hp).
    destruct (report_failures_ok l w1) as (w2 & Hr & _).
    rewrite (bind_ok _ _ _ _ _ Hr). eexists _, _. reflexivity.
Qed.

End RunTerminates.

(** C5, as amended.  For every work item under the whole-attempt retry
    loop, with attempts counted from 1 and [base_retry_wait] the configured
    base wait (raised to 1 when it is smaller):
    (1) the wait after a failed attempt [n] is [base_retry_wait * 2^(n-1)];
    (2) a failed attempt [n] below the maximum whose wait [time.sleep]
    takes (a wait up to [SLEEP_SURE] always, a longer one up to
    [SLEEP_MAX] when the platform does) logs the failure, logs and sleeps
    that wait, and goes on with attempt [n+1];
    (3) a failed attempt [n] below the maximum whose wait is refused logs
    both lines and sleeps nothing, and the exception of [time.sleep]
    leaves the loop: [OverflowError] for a wait above [SLEEP_MAX],
    [OSError] for one the platform refuses;
    (4) a failed attempt at the maximum records (identifier, error) and
    returns;
    (5) the loop lets an exception out only when its longest wait is above
    [SLEEP_SURE], and the exception is one of these two;
    (2) to (5) are about numbers of at most 4300 digits, which the log
    lines can show;
    (6) with a base wait of 300 and 3 attempts that all fail, the waits
    are 300 before attempt 2 and 600 before attempt 3, then the item is
    recorded as failed, and [run] returns the record. *)
Theorem work_item_backoff (fuel : nat) (self : Pipeline) (item : WorkItem) :
  (forall n, retry_wait_time self n = Z.max 1 (task_retry_wait (args self)) * 2 ^ (n - 1)) /\
  (1 <= task_retry_wait (args self) ->
   forall n, retry_wait_time self n = task_retry_wait (args self) * 2 ^ (n - 1)) /\
  (forall i total remaining n w e w1,
      1 <= n ->
      attempt_item fuel self item w = (Raise e, w1) ->
      n < max_task_retries self ->
      max_task_retries self < INT_STR_MAX ->
      retry_wait_time self n <= SLEEP_SURE \/
      (retry_wait_time self n <= SLEEP_MAX /\
       retry_wait_time self n <= sleep_cap w1 (now w1)) ->
      retry_loop fuel self i total item (S remaining) n w =
      retry_loop fuel self i total item remaining (n + 1) (retried self i total item n e w1) /\
      trace (retried self i total item n e w1) =
        EvSleep (retry_wait_time self n)
        :: EvLog WARNING (LogRetryWait (retry_wait_time self n))
        :: EvLog ERROR (LogItemFailed i total (id_full item) n (max_task_retries self) e)
        :: trace w1 /\
      now (retried self i total item n e w1) = now w1 + retry_wait_time self n) /\
  (forall i total remaining n w e w1,
      1 <= n ->
      attempt_item fuel self item w = (Raise e, w1) ->
      n < max_task_retries self ->
      max_task_retries self < INT_STR_MAX ->
      retry_wait_time self n < INT_STR_MAX ->
      (SLEEP_MAX < retry_wait_time self n ->
       retry_loop fuel self i total item (S remaining) n w =
         (Raise OverflowError, refused self i total item n e w1)) /\
      (SLEEP_SURE < retry_wait_time self n <= SLEEP_MAX ->
       sleep_cap w1 (now w1) < retry_wait_time self n ->
       retry_loop fuel self i total item (S remaining) n w =
         (Raise OSError, refused self i total item n e w1)) /\
      trace (refused self i total item n e w1) =
        EvLog WARNING (LogRetryWait (retry_wait_time self n))
        :: EvLog ERROR (LogItemFailed i total (id_full item) n (max_task_retries self) e)
        :: trace w1 /\
      now (refused self i total item n e w1) = now w1) /\
  (forall i total remaining n w e w1,
      1 <= n ->
      attempt_item fuel self item w = (Raise e, w1) ->
      max_task_retries self <= n ->
      n < INT_STR_MAX ->
      retry_loop fuel self i total item (S remaining) n w =
      (Ok (Some (id_full item, e)), given_up self i total item n e w1)) /\
  (forall i total remaining n w e w',
      1 <= n ->
      retry_loop fuel self i total item remaining n w = (Raise e, w') ->
      SLEEP_SURE < longest_retry_wait self /\
      (max_task_retries self < INT_STR_MAX -> longest_retry_wait self < INT_STR_MAX ->
       e = OverflowError \/ e = OSError)) /\
  (task_retry_wait (args self) = 300 ->
   task_max_retries (args self) = 3 ->
   forall w e1 w1 e2 w2 e3 w3,
     attempt_item fuel self item w = (Raise e1, w1) ->
     attempt_item fuel self item (retried self 1 1 item 1 e1 w1) = (Raise e2, w2) ->
     attempt_item fuel self item (retried self 1 1 item 2 e2 w2) = (Raise e3, w3) ->
     retry_wait_time self 1 = 300 /\
     retry_wait_time self 2 = 600 /\
     retry_loop fuel self 1 1 item 3 1 w =
       (Ok (Some (id_full item, e3)), given_up self 1 1 item 3 e3 w3) /\
     exists w',
       run fuel self [item] w = (Ok [(id_full item, e3)], w') /\
       trace w' = report_trace [(id_full item, e3)]
                  ++ trace (given_up self 1 1 item 3 e3 w3)).
Proof.
  split; [reflexivity |].
  split.
  { intros Hb n. unfold retry_wait_time, base_retry_wait.
    rewrite Z.max_r by lia. reflexivity. }
  split.
  { intros i total remaining n w e w1 Hn Ha Hlt _ Hfit.
    rewrite (retry_loop_failure fuel self i total item remaining n w e w1 Hn Ha).
    destruct (Z.ltb_spec n (max_task_retries self)); [| lia].
    assert (Hs : sleep_outcome (retry_wait_time self n) w1 = Ok tt).
    { destruct Hfit as [Hfit | (H1 & H2)];
        [apply sleep_outcome_sure | apply sleep_outcome_taken]; assumption. }
    rewrite Hs. repeat split; reflexivity. }
  split.
  { intros i total remaining n w e w1 Hn Ha Hlt _ _.
    rewrite (retry_loop_failure fuel self i total item remaining n w e w1 Hn Ha).
    destruct (Z.ltb_spec n (max_task_retries self)); [| lia].
    split; [| split; [| split; reflexivity]].
    - intros Hbig. unfold sleep_outcome.
      destruct (Z.ltb_spec SLEEP_MAX (retry_wait_time self n)); [reflexivity | lia].
    - intros (Hlo & Hhi) Hcap. unfold sleep_outcome.
      destruct (Z.ltb_spec SLEEP_MAX (retry_wait_time self n)); [lia |].
      destruct (Z.ltb_spec SLEEP_SURE (retry_wait_time self n)); [| lia].
      destruct (Z.ltb_spec (sleep_cap w1 (now w1)) (retry_wait_time self n)); [| lia].
      reflexivity. }
  split.
  { intros i total remaining n w e w1 Hn Ha Hge _.
    rewrite (retry_loop_failure fuel self i total item remaining n w e w1 Hn Ha).
    destruct (Z.ltb_spec n (max_task_retries self)); [lia | reflexivity]. }
  split.
  { intros i total remaining n w e w' Hn H.
    destruct (retry_loop_raise fuel self i total item remaining n w e w' Hn H) as (Hc & Hb).
    split; [exact Hb | intros _ _; exact Hc]. }
  intros Hb Hm w e1 w1 e2 w2 e3 w3 H1 H2 H3.
  assert (Hmax : max_task_retries self = 3) by (unfold max_task_retries; rewrite Hm; reflexivity).
  assert (Hw1 : retry_wait_time self 1 = 300)
    by (unfold retry_wait_time, base_retry_wait; rewrite Hb; reflexivity).
  assert (Hw2 : retry_wait_time self 2 = 600)
    by (unfold retry_wait_time, base_retry_wait; rewrite Hb; reflexivity).
  assert (Hloop : retry_loop fuel self 1 1 item 3 1 w =
                  (Ok (Some (id_full item, e3)), given_up self 1 1 item 3 e3 w3)).
  { rewrite (retry_loop_failure fuel self 1 1 item 2 1 w e1 w1 ltac:(lia) H1), Hmax, Hw1.
    change (1 <? 3) with true.
    rewrite (sleep_outcome_sure 300 w1) by (unfold SLEEP_SURE; lia).
    cbv iota. change (1 + 1) with 2.
    rewrite (retry_loop_failure fuel self 1 1 item 1 2 _ e2 w2 ltac:(lia) H2), Hmax, Hw2.
    change (2 <? 3) with true.
    rewrite (sleep_outcome_sure 600 w2) by (unfold SLEEP_SURE; lia).
    cbv iota. change (2 + 1) with 3.
    rewrite (retry_loop_failure fuel self 1 1 item 0 3 _ e3 w3 ltac:(lia) H3), Hmax.
    reflexivity. }
  split; [exact Hw1 |]. split; [exact Hw2 |]. split; [exact Hloop |].
  assert (Hloop' : retry_loop fuel self 1 1 item (Z.to_nat (max_task_retries self)) 1 w =
                   (Ok (Some (id_full item, e3)), given_up self 1 1 item 3 e3 w3)).
  { rewrite Hmax. exact Hloop. }
  unfold run. cbn [List.length Z.of_nat Z.eqb Pos.of_succ_nat].
  rewrite bind_unfold.
  rewrite (process_items_step fuel self 1 1 item [] [] w _ _ Hloop').
  cbn [process_items app]. unfold ret at 1.
  destruct (report_failures_ok [(id_full item, e3)] (given_up self 1 1 item 3 e3 w3))
    as (w' & Hr & Ht & _).
  rewrite (bind_ok _ _ _ _ _ Hr). exists w'. split; [reflexivity | exact Ht].
Qed.

Section MainSpec.

Variable fuel : nat.
Variable a : Args.
Variable s : Setup.

(** In dry-run mode no item can fail: an attempt touches nothing. *)
Lemma run_dry_run (self : Pipeline) (items : list WorkItem) (w : world) :
  dry_run (args self) = true ->
  run fuel self items w = (Ok [], w).
Proof.
  intros Hd.
  assert (Ha : forall item w0, attempt_item fuel self item w0 = (Ok tt, w0)).
  { intros item w0. unfold attempt_item, _ensure_issue. rewrite Hd. reflexivity. }
  assert (Hr : forall i total item w0,
             retry_loop fuel self i total item (Z.to_nat (max_task_retries self)) 1 w0 =
             (Ok None, w0)).
  { intros i total item w0.
    destruct (Z.to_nat (max_task_retries self)) as [|n] eqn:En; [reflexivity |].
    apply retry_loop_success, Ha. }
  assert (Hp : forall its i total w0,
             process_items fuel self i total its [] w0 = (Ok [], w0)).
  { induction its as [|item rest IH]; intros i total w0; [reflexivity |].
    rewrite (process_items_step fuel self i total item rest [] w0 None w0 (Hr _ _ _ _)).
    apply IH. }
  unfold run. destruct (Z.of_nat (List.length items) =? 0); [reflexivity |].
  rewrite (bind_ok _ _ _ _ _ (Hp _ _ _ _)). reflexivity.
Qed.

(** On line, a round never asks for the loop to end. *)
Lemma main_round_online (self : Pipeline) (iteration : nat) (w : world) b w' :
  dry_run a = false ->
  main_round fuel a s self iteration w = (Ok b, w') ->
  b = false.
Proof.
  intros Hd. unfold main_round. rewrite Hd. cbn [negb].
  rewrite bind_unfold.
  destruct ((if from_beginning a then ret [] else get_recent_completed_todos self 1000) w)
    as [[ids | e |] w2]; try discriminate.
  rewrite bind_unfold.
  destruct (lift (iter_work_items (todo_root s iteration) (issue_batch_size a) ids) w2)
    as [[items | e |] w3]; try discriminate.
  destruct items as [|item rest].
  - rewrite bind_unfold.
    destruct (sleep (poll_interval a) w3) as [[[] | e |] w4]; try discriminate.
    intros H. inversion H. reflexivity.
  - rewrite bind_unfold.
    destruct (run fuel self (item :: rest) w3) as [[l | e |] w4]; try discriminate.
    intros H. inversion H. reflexivity.
Qed.

(** On line, the loop of [main] has no way out. *)
Lemma main_loop_online (loop_fuel : nat) (self : Pipeline) (iteration : nat) (w : world) :
  dry_run a = false ->
  fst (main_loop fuel a s loop_fuel self iteration w) = Diverge.
Proof.
  intros Hd. revert iteration w.
  induction loop_fuel as [|n IH]; intros iteration w; [reflexivity |].
  cbn [main_loop]. rewrite bind_unfold, attempt_unfold.
  destruct (main_round fuel a s self (S iteration) w) as [[b | e |] w1] eqn:Er.
  - rewrite (main_round_online self (S iteration) w b w1 Hd Er). apply IH.
  - rewrite log_step, Hd. rewrite sleep_step by (unfold MAIN_ERROR_WAIT; lia). apply IH.
  - reflexivity.
Qed.

(** On line, [main] either runs on, or ends with status 1 before it has
    called the tracker once. *)
Lemma main_online (loop_fuel : nat) (w : world) :
  dry_run a = false ->
  fst (main fuel a s loop_fuel w) = Diverge \/
  (exit_status (fst (main fuel a s loop_fuel w)) = Some 1 /\
   ncalls (snd (main fuel a s loop_fuel w)) = ncalls w).
Proof.
  intros Hd.
  assert (Hb : forall w0,
             fst (main_body fuel a s loop_fuel w0) = Diverge \/
             (exit_status (fst (main_body fuel a s loop_fuel w0)) = Some 1 /\
              ncalls (snd (main_body fuel a s loop_fuel w0)) = ncalls w0)).
  { intros w0. unfold main_body. rewrite try_except_unfold, Hd.
    destruct (gh_installed s); [| right; split; reflexivity].
    rewrite ret_step.
    destruct (core_documents_ok s); [| right; split; reflexivity].
    rewrite ret_step, bind_unfold.
    pose proof (main_loop_online loop_fuel (mkPipeline (negb false) a) 0 w0 Hd) as Hl.
    destruct (main_loop fuel a s loop_fuel (mkPipeline (negb false) a) 0 w0)
      as [[[] | e |] w1]; simpl in Hl; try discriminate Hl.
    left. reflexivity. }
  unfold main. rewrite Hd.
  repeat match goal with
         | |- context [if ?c then _ else _] =>
             destruct c; try (right; split; reflexivity); try apply Hb
         end.
Qed.

End MainSpec.

(** C4, as amended.  (1) [run] returns the failures it has recorded, each
    under the identifier of an item of the queue, after logging a count,
    one line for each failure and a hint; it lets an exception out only
    when a back-off wait is above [SLEEP_SURE] (with numbers of at most
    4300 digits, the [OverflowError] or [OSError] of the [time.sleep] that
    refused a wait): with waits every platform sleeps it never raises.
    (2) An item whose attempts are used up is recorded as (identifier,
    error) at the end of the list, and the loop goes on with the items
    that remain.
    (3) With such waits, a poll interval of at least a second and fuel
    beyond the absolute ceiling, [run] returns.
    (4) The exit status takes nothing from the failures: in dry-run mode
    no item fails; on line, [main] goes on to the next scan, so the process
    either runs on or has ended with status 1 before its first call to the
    tracker. *)
Theorem batch_runner_failures (fuel : nat) (self : Pipeline) :
  (forall items w,
      match fst (run fuel self items w) with
      | Ok failed =>
          incl (map fst failed) (map id_full items) /\
          exists w1,
            trace (snd (run fuel self items w)) = report_trace failed ++ trace w1 /\
            ncalls (snd (run fuel self items w)) = ncalls w1
      | Raise e =>
          SLEEP_SURE < longest_retry_wait self /\
          (max_task_retries self < INT_STR_MAX -> longest_retry_wait self < INT_STR_MAX ->
           e = OverflowError \/ e = OSError)
      | Diverge => True
      end) /\
  (longest_retry_wait self <= SLEEP_SURE ->
   forall items w e, fst (run fuel self items w) <> Raise e) /\
  (forall i total item rest failed w e w1,
      retry_loop fuel self i total item (Z.to_nat (max_task_retries self)) 1 w =
        (Ok (Some (id_full item, e)), w1) ->
      process_items fuel self i total (item :: rest) failed w =
      process_items fuel self (i + 1) total rest (failed ++ [(id_full item, e)]) w1) /\
  (longest_retry_wait self <= SLEEP_SURE ->
   1 <= poll_interval (args self) ->
   Z.max 0 (issue_max_wait (args self)) < Z.of_nat fuel ->
   forall items w, exists failed w', run fuel self items w = (Ok failed, w')) /\
  (dry_run (args self) = true -> forall items w, run fuel self items w = (Ok [], w)) /\
  (forall s loop_fuel w,
      dry_run (args self) = false ->
      fst (main fuel (args self) s loop_fuel w) = Diverge \/
      (exit_status (fst (main fuel (args self) s loop_fuel w)) = Some 1 /\
       ncalls (snd (main fuel (args self) s loop_fuel w)) = ncalls w)).
Proof.
  assert (Hrun : forall items w,
      match fst (run fuel self items w) with
      | Ok failed =>
          incl (map fst failed) (map id_full items) /\
          exists w1,
            trace (snd (run fuel self items w)) = report_trace failed ++ trace w1 /\
            ncalls (snd (run fuel self items w)) = ncalls w1
      | Raise e =>
          SLEEP_SURE < longest_retry_wait self /\
          (max_task_retries self < INT_STR_MAX -> longest_retry_wait self < INT_STR_MAX ->
           e = OverflowError \/ e = OSError)
      | Diverge => True
      end).
  { intros items w.
    destruct (run fuel self items w) as [r w'] eqn:Er. cbn [fst snd].
    pose proof (run_spec fuel self items w r w' Er) as Hs.
    destruct r as [failed | e |]; [exact Hs | | exact Hs].
    destruct Hs as (Hc & Hb). split; [exact Hb | intros _ _; exact Hc]. }
  split; [exact Hrun |]. split; [| split; [| split; [| split]]].
  - intros Hfit items w e He. specialize (Hrun items w). rewrite He in Hrun.
    destruct Hrun as (Hbig & _). lia.
  - intros i total item rest failed w e w1 H.
    exact (process_items_step fuel self i total item rest failed w _ w1 H).
  - intros Hfit Hp Hf items w. apply run_terminates; assumption.
  - intros Hd items w. apply run_dry_run. exact Hd.
  - intros s loop_fuel w Hd. apply main_online. exact Hd.
Qed.

(** ** C10: one stage at a time *)

(** The pending work items of one stage file. *)
Definition file_pending (batch_size : nat) (completed_ids : list string) (f : stage_file)
  : list WorkItem :=
  match parse_stage_structure f with
  | Success (stage_num, todo_list) =>
      filter (pending completed_ids)
        (stage_work_items batch_size stage_num (sf_name f) todo_list)
  | Failure _ => []
  end.


Lemma stage_work_items_empty batch_size stage_num path :
  stage_work_items batch_size stage_num path [] = [].
Proof. reflexivity. Qed.

(** The scan returns the pending items of the first file that has some. *)
Lemma scan_files_spec batch_size completed_ids files items :
  scan_files batch_size completed_ids files = Success items ->
  (items = [] /\ Forall (fun g => file_pending batch_size completed_ids g = []) files) \/
  (exists before f after,
      files = before ++ f :: after /\
      Forall (fun g => file_pending batch_size completed_ids g = []) before /\
      items = file_pending batch_size completed_ids f /\
      items <> []).
Proof.
  revert items. induction files as [|f rest IH]; intros items H.
  - cbn in H. inversion H. left. split; [reflexivity | constructor].
  - cbn [scan_files] in H.
    destruct (parse_stage_structure f) as [[stage_num todo_list] | e] eqn:Ep;
      cbn [rbind] in H; [| discriminate H].
    assert (Hskip : file_pending batch_size completed_ids f = [] ->
                    scan_files batch_size completed_ids rest = Success items ->
                    (items = [] /\
                     Forall (fun g => file_pending batch_size completed_ids g = []) (f :: rest)) \/
                    (exists before f0 after,
                        f :: rest = before ++ f0 :: after /\
                        Forall (fun g => file_pending batch_size completed_ids g = []) before /\
                        items = file_pending batch_size completed_ids f0 /\ items <> [])).
    { intros Hf Hr. destruct (IH items Hr) as [(Hi & Ha) | (before & f0 & after & Hs & Hb & Hi & Hn)].
      - left. split; [exact Hi | constructor; assumption].
      - right. exists (f :: before), f0, after. rewrite Hs.
        repeat split; try assumption. constructor; assumption. }
    destruct todo_list as [|t ts].
    + apply Hskip; [| exact H]. unfold file_pending. rewrite Ep. reflexivity.
    + destruct (filter (pending completed_ids)
                  (stage_work_items batch_size stage_num (sf_name f) (t :: ts)))
        as [|it its] eqn:Ef.
      * apply Hskip; [| exact H]. unfold file_pending. rewrite Ep. exact Ef.
      * inversion H. subst items. right. exists [], f, rest.
        repeat split; [constructor | | discriminate].
        unfold file_pending. rewrite Ep. symmetry. exact Ef.
Qed.

(** The stage number a file name carries, 0 when it carries none. *)
Definition stage_of (f : stage_file) : Z :=
  match stage_file_match (sf_name f) with
  | Some n => n
  | None => 0
  end.


(** *** The order of the files *)

Definition stage_le (x y : (Z * string) * stage_file) : Prop := fst (fst x) <= fst (fst y).

Lemma key_leb_stage a b : key_leb a b = true -> fst a <= fst b.
Proof.
  unfold key_leb. intros H. apply orb_true_iff in H. destruct H as [H | H].
  - apply Z.ltb_lt in H. lia.
  - apply andb_true_iff in H. destruct H as (H & _). apply Z.eqb_eq in H. lia.
Qed.

Lemma key_leb_false_stage a b : key_leb a b = false -> fst b <= fst a.
Proof.
  unfold key_leb. intros H. apply orb_false_iff in H. destruct H as (H & _).
  apply Z.ltb_ge in H. exact H.
Qed.

Lemma insert_by_key_perm x l : Permutation (x :: l) (insert_by_key x l).
Proof.
  induction l as [|y r IH]; cbn [insert_by_key]; [reflexivity |].
  destruct (key_leb (fst x) (fst y)); [reflexivity |].
  rewrite perm_swap. constructor. exact IH.
Qed.

Lemma insert_by_key_sorted x l :
  StronglySorted stage_le l -> StronglySorted stage_le (insert_by_key x l).
Proof.
  induction 1 as [|y r Hs IH Hy]; cbn [insert_by_key].
  - constructor; constructor.
  - destruct (key_leb (fst x) (fst y)) eqn:E.
    + constructor; [constructor; assumption |].
      apply key_leb_stage in E. constructor; [exact E |].
      eapply Forall_impl; [| exact Hy]. unfold stage_le. intros z Hz. lia.
    + constructor; [exact IH |].
      apply key_leb_false_stage in E.
      eapply Permutation_Forall; [apply insert_by_key_perm |].
      constructor; [exact E | exact Hy].
Qed.

Lemma sort_by_key_spec ks :
  Permutation ks (fold_right insert_by_key [] ks) /\
  StronglySorted stage_le (fold_right insert_by_key [] ks).
Proof.
  induction ks as [|k r (Hp & Hs)]; cbn [fold_right].
  - split; constructor.
  - split.
    + rewrite <- insert_by_key_perm. constructor. exact Hp.
    + apply insert_by_key_sorted, Hs.
Qed.

Lemma keyed_spec files ks :
  keyed files = Success ks ->
  map snd ks = files /\
  Forall (fun k => fst (fst k) = stage_of (snd k) /\
                   stage_file_match (sf_name (snd k)) = Some (fst (fst k))) ks.
Proof.
  revert ks. induction files as [|f r IH]; intros ks H.
  - cbn in H. inversion H. split; constructor.
  - cbn [keyed] in H. unfold extract_stage_number_from_filename in H.
    destruct (stage_file_match (sf_name f)) as [n |] eqn:En; cbn [rbind] in H;
      [| discriminate H].
    destruct (keyed r) as [t | e]; cbn [rbind] in H; [| discriminate H].
    inversion H. subst ks. destruct (IH t eq_refl) as (Hm & Hf).
    split; [cbn [map snd]; rewrite Hm; reflexivity |].
    constructor; [| exact Hf]. cbn [fst snd]. unfold stage_of. rewrite En.
    split; reflexivity.
Qed.


(** The files come out in ascending stage order, none lost, none added. *)
Lemma sorted_files_spec files ordered :
  sorted_files files = Success ordered ->
  Permutation files ordered /\
  StronglySorted (fun f g => stage_of f <= stage_of g) ordered.
Proof.
  unfold sorted_files. intros H.
  destruct (keyed files) as [ks | e] eqn:Ek; cbn [rbind] in H; [| discriminate H].
  inversion H. subst ordered. clear H.
  destruct (keyed_spec files ks Ek) as (Hm & Hf).
  destruct (sort_by_key_spec ks) as (Hp & Hs).
  split.
  - rewrite <- Hm. apply Permutation_map. exact Hp.
  - assert (Hf' : Forall (fun k => fst (fst k) = stage_of (snd k))
                    (fold_right insert_by_key [] ks)).
    { eapply Permutation_Forall; [exact Hp |].
      eapply Forall_impl; [| exact Hf]. intros k (Hk & _). exact Hk. }
    clear Hp Ek Hf Hm.
    induction Hs as [|k r Hs IH Hk]; cbn [map]; [constructor |].
    inversion Hf' as [|k' r' Hk1 Hr1]. subst.
    constructor; [apply IH, Hr1 |].
    apply Forall_map. rewrite Forall_forall in *. intros z Hz.
    specialize (Hk z Hz). unfold stage_le in Hk.
    rewrite <- Hk1, <- (Hr1 z Hz). exact Hk.
Qed.


(** A work item with nothing left to do: its identifier is among the
    completed ones, or it is a batch whose TODOs all are. *)
Definition completed (completed_ids : list string) (item : WorkItem) : Prop :=
  In (id_full item) completed_ids \/
  (1 < Z.of_nat (List.length (todos item)) /\
   Forall (fun todo => In (todo_id_full todo) completed_ids) (todos item)).








(** ** C6: acquiring the ticket *)

(** An entry of the open-ticket list that carries the tag in its title
    and an integer number. *)
Definition issue_matches (tag : string) (issue : json) (n : Z) : Prop :=
  exists fields ttl,
    issue = JObj fields /\
    Py.assoc "title" fields = Some ttl /\
    Py.contains_str tag ttl = Success true /\
    Py.assoc "number" fields = Some (JNum n).

(** An entry the scan passes over. *)
Definition issue_skipped (tag : string) (issue : json) : Prop :=
  find_issue_scan tag [issue] = Success None.

Lemma find_issue_scan_cons tag issue rest :
  find_issue_scan tag (issue :: rest) =
  rbind (find_issue_scan tag [issue]) (fun found =>
    match found with
    | Some n => Success (Some n)
    | None => find_issue_scan tag rest
    end).
Proof.
  cbn [find_issue_scan].
  destruct (negb (Py.is_dict issue)); [reflexivity |].
  destruct (Py.get issue "title" (JStr "")) as [ttl | e]; [| reflexivity]. cbn [rbind].
  destruct (Py.get issue "number" JNull) as [num | e]; [| reflexivity]. cbn [rbind].
  destruct (Py.contains_str tag ttl) as [[|] | e]; cbn [rbind]; try reflexivity.
  destruct num; reflexivity.
Qed.

(** The first matching entry of the list is the one found. *)
Lemma find_issue_scan_first tag before issue n after :
  Forall (issue_skipped tag) before ->
  issue_matches tag issue n ->
  find_issue_scan tag (before ++ issue :: after) = Success (Some n).
Proof.
  intros Hb (fields & ttl & -> & Ht & Hc & Hn).
  induction Hb as [|x r Hx _ IH]; cbn [app].
  - cbn [find_issue_scan Py.is_dict negb Py.get]. rewrite Ht, Hn. cbn [rbind].
    rewrite Hc. reflexivity.
  - rewrite find_issue_scan_cons. unfold issue_skipped in Hx. rewrite Hx. exact IH.
Qed.

Section Ensure.

Variable self : Pipeline.
Variable item : WorkItem.
Hypothesis on_line : dry_run (args self) = false.
Hypothesis has_client : github self = true.

(** After the search has found ticket [n], what [_ensure_issue] does is
    decided by the attempt to reuse it. *)
Lemma ensure_issue_found w n w1 :
  find_issue_by_todo (id_full item) w = (Ok (Some n), w1) ->
  n <> 0 ->
  _ensure_issue self item w =
  match reuse_issue n w1 with
  | (Ok (Some issue_num), w2) => (Ok issue_num, w2)
  | (Ok None, w2) => create_and_assign item w2
  | (Raise e, w2) =>
      create_and_assign item (pushed (EvLog WARNING (LogIssueDetailsFailed n e)) w2)
  | (Diverge, w2) => (Diverge, w2)
  end.
Proof.
  intros Hf Hn. unfold _ensure_issue, _require_github. rewrite on_line, has_client.
  rewrite ret_step, (bind_ok _ _ _ _ _ Hf).
  destruct (Z.eqb_spec n 0); [contradiction |].
  rewrite bind_unfold, attempt_unfold.
  destruct (reuse_issue n w1) as [[[k |] | e |] w2]; reflexivity.
Qed.

Lemma ensure_issue_not_found w w1 :
  find_issue_by_todo (id_full item) w = (Ok None, w1) ->
  _ensure_issue self item w = create_and_assign item w1.
Proof.
  intros Hf. unfold _ensure_issue, _require_github. rewrite on_line, has_client.
  rewrite ret_step, (bind_ok _ _ _ _ _ Hf). reflexivity.
Qed.

End Ensure.

(** Reusing a ticket that has been read. *)
Lemma reuse_issue_read n w data w1 state :
  get_issue n w = (Ok data, w1) ->
  Py.get data "state" JNull = Success state ->
  reuse_issue n w =
  if Py.eq_str state "open" then
    match assignee_logins data with
    | Success logins =>
        if mem_string COPILOT_USERNAME logins then (Ok (Some n), w1)
        else match add_assignees n COPILOT_ASSIGNEES w1 with
             | (Ok _, w2) => (Ok (Some n), w2)
             | (Raise e, w2) => (Raise e, w2)
             | (Diverge, w2) => (Diverge, w2)
             end
    | Failure e => (Raise e, w1)
    end
  else (Ok None, pushed (EvLog WARNING (LogIssueNotOpen n state)) w1).
Proof.
  intros Hg Hs. unfold reuse_issue.
  rewrite (bind_ok _ _ _ _ _ Hg), Hs. cbn [lift]. rewrite ret_step.
  destruct (Py.eq_str state "open"); [| reflexivity].
  destruct (assignee_logins data) as [logins | e]; [| reflexivity].
  cbn [lift]. rewrite ret_step.
  destruct (mem_string COPILOT_USERNAME logins); [reflexivity |].
  cbn [negb]. rewrite bind_unfold.
  destruct (add_assignees n COPILOT_ASSIGNEES w1) as [[[] | e |] w2]; reflexivity.
Qed.

(** The commands that do not create a ticket. *)
Definition no_create_cmd (c : gh_cmd) : bool :=
  match c with
  | GhIssueCreate _ _ => false
  | _ => true
  end.

(** Ticket acquisition in the cases where the open ticket is reused: the
    search lists it, it is read open, and the agent is among its assignees
    or is added by one of the candidate names.  The ticket's id is
    returned and no ticket is created.  When it is read closed, or cannot
    be read, a ticket is created instead. *)
Lemma ensure_issue_reuse (self : Pipeline) (item : WorkItem) (w w1 w2 : world) (n : Z)
    (data state : json) (logins : list string) :
  dry_run (args self) = false ->
  github self = true ->
  find_issue_by_todo (id_full item) w = (Ok (Some n), w1) ->
  n <> 0 ->
  (get_issue n w1 = (Ok data, w2) ->
   Py.get data "state" JNull = Success state ->
   Py.eq_str state "open" = true ->
   assignee_logins data = Success logins ->
   (mem_string COPILOT_USERNAME logins = true ->
    _ensure_issue self item w = (Ok n, w2)) /\
   (mem_string COPILOT_USERNAME logins = false ->
    forall w3,
      add_assignees n COPILOT_ASSIGNEES w2 = (Ok tt, w3) ->
      _ensure_issue self item w = (Ok n, w3) /\
      advances (only no_create_cmd is_client_log) w2 w3)) /\
  (get_issue n w1 = (Ok data, w2) ->
   Py.get data "state" JNull = Success state ->
   Py.eq_str state "open" = false ->
   _ensure_issue self item w =
   create_and_assign item (pushed (EvLog WARNING (LogIssueNotOpen n state)) w2)) /\
  (forall e, get_issue n w1 = (Raise e, w2) ->
   _ensure_issue self item w =
   create_and_assign item (pushed (EvLog WARNING (LogIssueDetailsFailed n e)) w2)).
Proof.
  intros Hd Hg Hf Hn.
  pose proof (ensure_issue_found self item Hd Hg w n w1 Hf Hn) as He.
  split; [| split].
  - intros Hr Hs Ho Hl.
    rewrite (reuse_issue_read n w1 data w2 state Hr Hs), Ho, Hl in He.
    split.
    + intros Hm. rewrite Hm in He. exact He.
    + intros Hm w3 Ha. rewrite Hm, Ha in He. split; [exact He |].
      eapply keeps_elim; [| exact Ha].
      apply keeps_add_assignees; [auto | reflexivity].
  - intros Hr Hs Ho.
    rewrite (reuse_issue_read n w1 data w2 state Hr Hs), Ho in He. exact He.
  - intros e Hr. unfold reuse_issue in He. rewrite (bind_raise _ _ _ _ _ Hr) in He. exact He.
Qed.

(** The case the claim leaves out: the open ticket is read, the agent is
    not among its assignees, and every candidate name fails.  The failure
    is taken for a failed read and a second ticket is created. *)
Lemma ensure_issue_assign_failure (self : Pipeline) (item : WorkItem) (w w1 w2 w3 : world)
    (n : Z) (data state : json) (logins : list string) (e : exn) :
  dry_run (args self) = false ->
  github self = true ->
  find_issue_by_todo (id_full item) w = (Ok (Some n), w1) ->
  n <> 0 ->
  get_issue n w1 = (Ok data, w2) ->
  Py.get data "state" JNull = Success state ->
  Py.eq_str state "open" = true ->
  assignee_logins data = Success logins ->
  mem_string COPILOT_USERNAME logins = false ->
  add_assignees n COPILOT_ASSIGNEES w2 = (Raise e, w3) ->
  _ensure_issue self item w =
  create_and_assign item (pushed (EvLog WARNING (LogIssueDetailsFailed n e)) w3).
Proof.
  intros Hd Hg Hf Hn Hr Hs Ho Hl Hm Ha.
  rewrite (ensure_issue_found self item Hd Hg w n w1 Hf Hn).
  rewrite (reuse_issue_read n w1 data w2 state Hr Hs), Ho, Hl, Hm, Ha. reflexivity.
Qed.

End WithJson.

(* ================================================================== *)
(** * Sample runs *)

(** The sample tracker prints short tags where [gh] prints JSON text;
    [sample_loads] gives each tag the value [json.loads] returns for the
    JSON it stands for.  Any other text is not JSON. *)

Definition event_of (kind : string) : json := JObj [("event", JStr kind)].

(** A cross-reference from change-request [n]. *)
Definition cross_reference (n : Z) : json :=
  JObj [("event", JStr "cross-referenced");
        ("source", JObj [("issue", JObj [("number", JNum n);
                                         ("pull_request", JObj [])])])].

Definition sample_issue (state : string) (logins : list string) : json :=
  JObj [("number", JNum 7); ("state", JStr state);
        ("assignees", JArr (map (fun l => JObj [("login", JStr l)]) logins))].

Definition sample_loads (output : string) : option json :=
  if String.eqb output "ISSUE_OPEN" then Some (sample_issue "open" [])
  else if String.eqb output "ISSUE_OPEN_ASSIGNED" then Some (sample_issue "open" ["Copilot"])
  else if String.eqb output "ISSUE_CLOSED" then Some (sample_issue "closed" ["Copilot"])
  else if String.eqb output "OPEN_LIST" then
    Some (JArr [JObj [("number", JNum 5); ("title", JStr "[id-12] Another item")];
                JObj [("number", JNum 7); ("title", JStr "[id-123] Write the outline")]])
  else if String.eqb output "TIMELINE_EMPTY" then Some (JArr [])
  else if String.eqb output "TIMELINE_LINKS" then
    Some (JArr [cross_reference 11; event_of "assigned"; cross_reference 12;
                event_of "commented"])
  else if String.eqb output "PR_OPEN" then
    Some (JObj [("number", JNum 12); ("state", JStr "open"); ("mergedAt", JNull);
                ("isDraft", JBool true)])
  else if String.eqb output "PR_SIGNAL" then
    Some (JArr [event_of "committed"; event_of "copilot_work_finished";
                event_of "commented"; event_of "labeled"; event_of "review_requested"])
  else if String.eqb output "ERROR_PAGE" then Some (JObj [("message", JStr "Server Error")])
  else None.

(** The world that answers the calls with [script], in order, and lets
    every later call time out. *)
Definition world_of (script : list proc_outcome) (t : Z) : world :=
  mkWorld (fun n => nth n script (TimeoutExpired 180)) O t [] (fun _ => SLEEP_MAX).

(** A tracker that answers every call with a 404. *)
Definition world_down : world :=
  mkWorld (fun _ => CalledProcessError 1 "HTTP 404: Not Found") O 0 [] (fun _ => SLEEP_MAX).

Definition sample_args : Args :=
  mkArgs DEFAULT_POLL_INTERVAL DEFAULT_MAX_WAIT DEFAULT_BATCH_SIZE
    DEFAULT_TASK_MAX_RETRIES DEFAULT_TASK_RETRY_WAIT false false.

Definition sample_pipeline : Pipeline := mkPipeline true sample_args.

(** The gh commands of a run, oldest first. *)
Definition commands (w : world) : list gh_cmd :=
  flat_map (fun e => match e with EvGh c => [c] | _ => [] end) (history w).

(** The sleeps of a run, oldest first. *)
Definition sleeps (w : world) : list Z :=
  flat_map (fun e => match e with EvSleep s => [s] | _ => [] end) (history w).

(** *** C8 *)






(** *** C2 *)

Definition world_signal : world := world_of [Completed 1 "PR_SIGNAL"] 0.

Definition signal_fetch : M string :=
  _run_gh (GhApi (IssueTimeline (JNum 12)) "GET" [TIMELINE_ACCEPT_HEADER]) 3.

(** C2, at sample worlds: the marker is the second of five events and
    the check answers [True]; a timeline that is not a list, one that is
    not JSON and a failing call answer [False]. *)
Lemma check_copilot_signal_spec_witness :
  check_copilot_signal sample_loads (JNum 12) world_signal =
    (Ok true, snd (signal_fetch world_signal)) /\
  check_copilot_signal sample_loads (JNum 12) (world_of [Completed 1 "ERROR_PAGE"] 0) =
    (Ok false, snd (signal_fetch (world_of [Completed 1 "ERROR_PAGE"] 0))) /\
  check_copilot_signal sample_loads (JNum 12) (world_of [Completed 1 "<html>"] 0) =
    (Ok false, snd (signal_fetch (world_of [Completed 1 "<html>"] 0))) /\
  check_copilot_signal sample_loads (JNum 12) world_down =
    (Ok false, snd (signal_fetch world_down)).
Proof.
  split; [| split; [| split]].
  - pose proof (check_copilot_signal_spec sample_loads (JNum 12) world_signal) as H.
    cbv zeta in H. destruct H as (H & _ & _).
    apply (proj2 (H "PR_SIGNAL" (snd (signal_fetch world_signal))
                    [event_of "committed"; event_of "copilot_work_finished";
                     event_of "commented"; event_of "labeled";
                     event_of "review_requested"]
                    eq_refl eq_refl eq_refl)
             [event_of "committed"] (event_of "copilot_work_finished")
             [event_of "commented"; event_of "labeled"; event_of "review_requested"]).
    + reflexivity.
    + reflexivity.
    + repeat constructor.
  - pose proof (check_copilot_signal_spec sample_loads (JNum 12)
                  (world_of [Completed 1 "ERROR_PAGE"] 0)) as H.
    cbv zeta in H. destruct H as (_ & _ & H).
    apply (H "ERROR_PAGE"); [reflexivity |].
    right; right. exists (JObj [("message", JStr "Server Error")]).
    split; reflexivity.
  - pose proof (check_copilot_signal_spec sample_loads (JNum 12)
                  (world_of [Completed 1 "<html>"] 0)) as H.
    cbv zeta in H. destruct H as (_ & _ & H).
    apply (H "<html>"); [reflexivity |].
    right; left. reflexivity.
  - pose proof (check_copilot_signal_spec sample_loads (JNum 12) world_down) as H.
    cbv zeta in H. destruct H as (_ & H & _).
    apply (H (RuntimeError (MsgGhFatal "HTTP 404: Not Found"))). reflexivity.
Defined.

(** *** C9 *)

Definition world_reassign : world :=
  world_of [Completed 1 "ISSUE_OPEN_ASSIGNED";
            Completed 1 ""; Completed 1 ""; Completed 1 ""; Completed 1 ""; Completed 1 "";
            CalledProcessError 1 "could not assign user: not found";
            Completed 1 ""] 0.

Definition world_reassign_read : world := snd (get_issue sample_loads 7 world_reassign).

(** C9, at a sample world: the agent is assigned to open ticket 7; the
    reset reads the ticket, removes every spelling of the agent, sleeps
    two seconds and assigns the agent again, the second spelling being
    accepted; nothing else touches the tracker. *)
Lemma reset_issue_spec_witness :
  advances (only (reset_cmd 7) any_log) world_reassign
    (snd (_reset_issue sample_loads 7 world_reassign)) /\
  (exists w2,
      (exists w', remove_assignees 7 COPILOT_ASSIGNEES world_reassign_read = (Ok tt, w') /\
                  w2 = slept 2 w') /\
      _reset_issue sample_loads 7 world_reassign =
      reset_failure (add_assignees 7 COPILOT_ASSIGNEES w2)) /\
  fst (_reset_issue sample_loads 7 world_reassign) = Ok tt /\
  commands (snd (_reset_issue sample_loads 7 world_reassign)) =
    [GhIssueView 7;
     GhIssueRemoveAssignee 7 "@copilot"; GhIssueRemoveAssignee 7 "copilot";
     GhIssueRemoveAssignee 7 "Copilot"; GhIssueRemoveAssignee 7 "github-copilot";
     GhIssueRemoveAssignee 7 "github-copilot[bot]";
     GhIssueAddAssignee 7 "@copilot"; GhIssueAddAssignee 7 "copilot"] /\
  sleeps (snd (_reset_issue sample_loads 7 world_reassign)) = [2].
Proof.
  destruct (reset_issue_spec sample_loads 7 world_reassign) as (Hadv & Hopen & _ & _).
  split; [exact Hadv |].
  split; [| split; [| split]; vm_compute; reflexivity].
  exact (Hopen (sample_issue "open" ["Copilot"]) world_reassign_read (JStr "open")
           ["copilot"] eq_refl eq_refl eq_refl eq_refl).
Defined.

(** *** C3 *)

Definition world_closed : world := world_of [Completed 1 "ISSUE_CLOSED"] 100.

Definition world_closed_read : world := snd (get_issue sample_loads 7 world_closed).

(** C3, at a sample world: ticket 7 is closed at the first pass and no
    change-request is known; the pass returns, the loop returns, and the
    trace grows by the notice and by the warning that no change-request
    was seen. *)
Lemma closed_ticket_is_success_witness :
  tick sample_loads 3 sample_pipeline 7 (initial_state 0) world_closed =
    (Ok Return, closed_world 7 (initial_state 0) world_closed_read) /\
  wait_loop sample_loads 3 sample_pipeline 7 1 (initial_state 0) world_closed =
    (Ok (initial_state 0), closed_world 7 (initial_state 0) world_closed_read) /\
  history (closed_world 7 (initial_state 0) world_closed_read) =
    [EvGh (GhIssueView 7); EvLog INFO (LogIssueClosed 7);
     EvLog WARNING (LogClosedNoPR 7)].
Proof.
  destruct (closed_ticket_is_success sample_loads 3 sample_pipeline 7 (initial_state 0)
              world_closed (sample_issue "closed" ["Copilot"]) world_closed_read
              (JStr "closed") O eq_refl eq_refl eq_refl eq_refl)
    as (Htick & Hloop & _).
  split; [exact Htick |]. split; [exact Hloop |]. reflexivity.
Defined.

(** *** C7 *)

(** Ticket 7 is open; its timeline links change-request 11 and, later,
    change-request 12; 12 is an open draft whose timeline carries the
    marker; marking it ready and merging it succeed. *)
Definition world_finished : world :=
  world_of [Completed 1 "ISSUE_OPEN"; Completed 1 "TIMELINE_LINKS"; Completed 1 "PR_OPEN";
            Completed 1 "PR_SIGNAL"; Completed 1 ""; Completed 1 ""] 20000.

(** Change-request 12 has been tracked since second 10: at second 20000
    it is older than [PR_TIMEOUT]. *)
Definition aged_state : attempt_state := mkAttempt 0 0 0 (Some 10) (JNum 12) 0.

Definition world_finished_1 : world :=
  snd (issue_closed_check sample_loads 7 aged_state world_finished).
Definition world_finished_2 : world :=
  snd (latest_pr_from_timeline sample_loads 7 world_finished_1).
Definition world_finished_3 : world :=
  snd (get_pull sample_loads (JNum 12) world_finished_2).
Definition world_finished_4 : world :=
  snd (check_copilot_signal sample_loads (JNum 12) world_finished_3).

Definition sample_pull : json :=
  JObj [("number", JNum 12); ("state", JStr "open"); ("merged_at", JNull);
        ("draft", JBool true)].

(** C7, at a sample world: the later of the two linked change-requests
    is the one returned; it has aged past the timeout and carries the
    marker, and the pass marks it ready, merges it and returns: no reset
    is announced. *)
Lemma latest_pr_and_signal_first_witness :
  latest_pr_from_timeline sample_loads 7 world_finished_1 = (Ok (JNum 12), world_finished_2) /\
  PR_TIMEOUT < now world_finished_4 - 10 /\
  fst (tick sample_loads 3 sample_pipeline 7 aged_state world_finished) = Ok Return /\
  commands (snd (tick sample_loads 3 sample_pipeline 7 aged_state world_finished)) =
    [GhIssueView 7;
     GhApi (IssueTimeline (JNum 7)) "GET" [TIMELINE_ACCEPT_HEADER];
     GhPrView (JNum 12);
     GhApi (IssueTimeline (JNum 12)) "GET" [TIMELINE_ACCEPT_HEADER];
     GhPrReady (JNum 12); GhPrMerge (JNum 12)] /\
  announced (trace (snd (tick sample_loads 3 sample_pipeline 7 aged_state world_finished))) = 0.
Proof.
  destruct (latest_pr_and_signal_first sample_loads 3 sample_pipeline 7 aged_state
              world_finished world_finished_1 world_finished_2 world_finished_3
              world_finished_4 (JNum 12) sample_pull) as (Hlatest & Hpass).
  split.
  - apply (Hlatest "TIMELINE_LINKS"
             [cross_reference 11; event_of "assigned"; cross_reference 12;
              event_of "commented"]
             [cross_reference 11; event_of "assigned"] (cross_reference 12)
             [event_of "commented"]); try reflexivity.
    repeat constructor.
  - split; [reflexivity |].
    destruct Hpass as (_ & _ & _ & w5 & Hready & _ & Hmerge); try reflexivity.
    + exists JNull, (JStr "open"). repeat split; reflexivity.
    + split; [| split; vm_compute; reflexivity].
      vm_compute in Hready. injection Hready as <-.
      rewrite (Hmerge (JObj [("merged", JBool true)]) _ eq_refl). reflexivity.
Defined.

(** *** C1 *)

(** Ticket 7 is open and its timeline links no change-request. *)
Definition world_no_pr (t : Z) : world :=
  world_of [Completed 1 "ISSUE_OPEN"; Completed 1 "TIMELINE_EMPTY";
            Completed 1 "ISSUE_OPEN"; Completed 1 ""] t.




(** The pipeline polls once a minute and gives a ticket a minute. *)
Definition quick_pipeline : Pipeline :=
  mkPipeline true
    (mkArgs 60 60 DEFAULT_BATCH_SIZE DEFAULT_TASK_MAX_RETRIES DEFAULT_TASK_RETRY_WAIT
       false false).


(** *** C10 *)

(** The glob yields the file of stage 2 before the file of stage 1; in
    stage 1 one entry is ticked and two are pending. *)
Definition sample_dir : dir_state :=
  Dir [mkStageFile "Stage-02_Draft.todos.md"
         (FileLines ["# Stage 2"; "### - [ ] [S02-T01] Draft chapter one";
                     "- goal: a first draft"]);
       mkStageFile "Stage-01_Outline.todos.md"
         (FileLines ["# Stage 1"; "### - [x] [S01-T01] Collect notes"; "- goal: done";
                     "### - [ ] [S01-T02] Write the outline"; "- goal: an outline"; "";
                     "---"; "### - [ ] [S01-T03] Review the outline"])].

Definition sample_items : list WorkItem :=
  Eval cbv in
    match iter_work_items sample_dir 1 [] with Success l => l | Failure _ => [] end.

Definition sample_item : WorkItem :=
  Eval cbv in hd (mkWorkItem "" 0 "" "" [] None None) sample_items.




(** *** C5 *)

Definition not_found : exn := RuntimeError (MsgGhFatal "HTTP 404: Not Found").

Definition world_failed_1 : world :=
  snd (attempt_item sample_loads 5 sample_pipeline sample_item world_down).
Definition world_failed_2 : world :=
  snd (attempt_item sample_loads 5 sample_pipeline sample_item
         (retried sample_pipeline 1 1 sample_item 1 not_found world_failed_1)).
Definition world_failed_3 : world :=
  snd (attempt_item sample_loads 5 sample_pipeline sample_item
         (retried sample_pipeline 1 1 sample_item 2 not_found world_failed_2)).

(** C5, at a sample world: with a base wait of 300 seconds and three
    attempts, an item that fails every time waits 300 seconds, then 600,
    and is returned by [run] in the list of failures. *)
Lemma work_item_backoff_witness :
  retry_wait_time sample_pipeline 1 = 300 /\
  retry_wait_time sample_pipeline 2 = 600 /\
  retry_loop sample_loads 5 sample_pipeline 1 1 sample_item 3 1 world_down =
    (Ok (Some ("S01-T02", not_found)),
     given_up sample_pipeline 1 1 sample_item 3 not_found world_failed_3) /\
  fst (run sample_loads 5 sample_pipeline [sample_item] world_down) =
    Ok [("S01-T02", not_found)] /\
  sleeps (snd (run sample_loads 5 sample_pipeline [sample_item] world_down)) = [300; 600].
Proof.
  destruct (work_item_backoff sample_loads 5 sample_pipeline sample_item)
    as (_ & _ & _ & _ & _ & _ & Hscenario).
  destruct (Hscenario eq_refl eq_refl world_down not_found world_failed_1
              not_found world_failed_2 not_found world_failed_3
              eq_refl eq_refl eq_refl)
    as (H1 & H2 & Hloop & w' & Hrun & _).
  split; [exact H1 |]. split; [exact H2 |]. split; [exact Hloop |].
  split; [rewrite Hrun; reflexivity | vm_compute; reflexivity].
Defined.

(** A pipeline told to wait ten thousand million seconds before the
    second attempt: more than [time.sleep] takes. *)
Definition patient_pipeline : Pipeline :=
  mkPipeline true
    (mkArgs DEFAULT_POLL_INTERVAL DEFAULT_MAX_WAIT DEFAULT_BATCH_SIZE
       DEFAULT_TASK_MAX_RETRIES 10000000000 false false).

(** C5, as stated, fails at a sample world: the tracker is down and the
    base wait is 10^10 seconds.  The wait before attempt 2 is computed and
    logged, but it is never slept and attempt 2 never starts: the item is
    not recorded as failed, [run] raises [OverflowError] to its caller. *)
Lemma backoff_wait_overflow :
  retry_wait_time patient_pipeline 1 = 10000000000 /\
  fst (run sample_loads 5 patient_pipeline [sample_item] world_down) = Raise OverflowError /\
  sleeps (snd (run sample_loads 5 patient_pipeline [sample_item] world_down)) = [] /\
  In (EvLog WARNING (LogRetryWait 10000000000))
    (trace (snd (run sample_loads 5 patient_pipeline [sample_item] world_down))).
Proof.
  split; [reflexivity |]. split; [vm_compute; reflexivity |].
  split; [vm_compute; reflexivity |].
  vm_compute. left. reflexivity.
Qed.

(** *** C4 *)

Definition sample_setup : Setup :=
  mkSetup "owner/story" true true true (fun _ => sample_dir).

Definition world_gave_up : world :=
  snd (retry_loop sample_loads 61 quick_pipeline 1 2 sample_item 3 1 world_down).

(** C4, at a sample world: the tracker is down; the first item of the
    queue fails three times and is recorded, the loop goes on with the
    second, and [run] returns. *)
Lemma batch_runner_failures_witness :
  process_items sample_loads 61 quick_pipeline 1 2 (sample_item :: tl sample_items) []
    world_down =
    process_items sample_loads 61 quick_pipeline (1 + 1) 2 (tl sample_items)
      ([] ++ [(id_full sample_item, not_found)]) world_gave_up /\
  (exists failed w',
      run sample_loads 61 quick_pipeline sample_items world_down = (Ok failed, w')) /\
  fst (run sample_loads 61 quick_pipeline sample_items world_down) =
    Ok [("S01-T02", not_found); ("S01-T03", not_found)].
Proof.
  assert (Hgave_up :
            retry_loop sample_loads 61 quick_pipeline 1 2 sample_item
              (Z.to_nat (max_task_retries quick_pipeline)) 1 world_down =
            (Ok (Some (id_full sample_item, not_found)), world_gave_up))
    by (vm_compute; reflexivity).
  assert (Hpoll : 1 <= poll_interval (args quick_pipeline)) by (vm_compute; discriminate).
  assert (Hfuel : Z.max 0 (issue_max_wait (args quick_pipeline)) < Z.of_nat 61)
    by (vm_compute; reflexivity).
  assert (Hfit : longest_retry_wait quick_pipeline <= SLEEP_SURE)
    by (vm_compute; discriminate).
  pose proof (batch_runner_failures sample_loads 61 quick_pipeline) as H.
  destruct H as (_ & _ & Hstep & Hreturns & _).
  split; [| split].
  - exact (Hstep 1 2 sample_item (tl sample_items) [] world_down not_found world_gave_up
             Hgave_up).
  - exact (Hreturns Hfit Hpoll Hfuel sample_items world_down).
  - vm_compute. reflexivity.
Defined.

(** With valid arguments, a repository, the [gh] program and the core
    documents in place, [main] on line reaches its loop and stays in it. *)
Lemma main_running (json_loads : string -> option json) (fuel : nat) (a : Args) (s : Setup)
    (loop_fuel : nat) (w : world) :
  dry_run a = false ->
  1 <= poll_interval a -> 60 <= issue_max_wait a ->
  1 <= issue_batch_size a -> 1 <= task_max_retries a ->
  PyStr.is_empty (repo_arg s) = false -> PyStr.contains "/" (repo_arg s) = true ->
  gh_installed s = true -> core_documents_ok s = true ->
  fst (main json_loads fuel a s loop_fuel w) = Diverge.
Proof.
  intros Hd Hp Hw Hb Hr He Hc Hg Hk. unfold main.
  destruct (Z.ltb_spec (poll_interval a) 1); [lia |].
  destruct (Z.ltb_spec (issue_max_wait a) 60); [lia |].
  destruct (Z.ltb_spec (issue_batch_size a) 1); [lia |].
  destruct (Z.ltb_spec (task_max_retries a) 1); [lia |].
  rewrite He, Hc. cbn [negb].
  unfold main_body. rewrite try_except_unfold, Hd, Hg, ret_step, Hk, ret_step, bind_unfold.
  pose proof (main_loop_online json_loads fuel a s loop_fuel (mkPipeline (negb false) a)
                0 w Hd) as Hl.
  destruct (main_loop json_loads fuel a s loop_fuel (mkPipeline (negb false) a) 0 w)
    as [[[] | e |] w1]; simpl in Hl; try discriminate Hl.
  reflexivity.
Qed.

(** C4, as stated, fails at a sample world: the tracker is down and both
    items of the queue end failed after three attempts each.  [run]
    returns the two failures and logs them; the round of [main] that ran
    them asks for another round, and whatever the number of rounds
    allowed, [main] has no exit status, zero or not.  And with a base wait
    that [time.sleep] refuses, [run] does raise: the first failure of the
    first item ends it with [OverflowError], nothing recorded and the
    second item never tried. *)
Lemma failed_items_give_no_exit_status :
  fst (run sample_loads 5 patient_pipeline sample_items world_down) = Raise OverflowError /\
  fst (run sample_loads 5 sample_pipeline sample_items world_down) =
    Ok [("S01-T02", not_found); ("S01-T03", not_found)] /\
  fst (main_round sample_loads 5 sample_args sample_setup sample_pipeline 1 world_down) =
    Ok false /\
  In (EvLog ERROR (LogFailedItem "S01-T02" not_found))
    (trace (snd (main_round sample_loads 5 sample_args sample_setup sample_pipeline 1
                   world_down))) /\
  forall loop_fuel,
    exit_status (fst (main sample_loads 5 sample_args sample_setup loop_fuel world_down)) =
    None.
Proof.
  split; [vm_compute; reflexivity |].
  split; [vm_compute; reflexivity |]. split; [vm_compute; reflexivity |]. split.
  - vm_compute. repeat (try (left; reflexivity); right).
  - intros loop_fuel.
    rewrite (main_running sample_loads 5 sample_args sample_setup loop_fuel world_down).
    + reflexivity.
    + reflexivity.
    + vm_compute; discriminate.
    + vm_compute; discriminate.
    + vm_compute; discriminate.
    + vm_compute; discriminate.
    + vm_compute; reflexivity.
    + vm_compute; reflexivity.
    + reflexivity.
    + reflexivity.
Qed.

(** *** C6 *)

Definition outline_item : WorkItem :=
  mkWorkItem "id-123" 1 "Write the outline" "Stage-01_Outline.todos.md"
    [mkTodoItem "id-123" 1 "Write the outline" [] "Stage-01_Outline.todos.md"] None None.

Definition unassignable : proc_outcome :=
  CalledProcessError 1 "could not assign user: not found".

(** Open ticket 7 is titled [[id-123] Write the outline] and has no
    assignee; the tracker refuses every spelling of the agent for ticket
    7, then creates ticket 8 and accepts the agent for it. *)
Definition world_unassignable : world :=
  world_of [Completed 1 "OPEN_LIST"; Completed 1 "ISSUE_OPEN";
            unassignable; unassignable; unassignable; unassignable; unassignable;
            Completed 1 "https://github.com/owner/story/issues/8"; Completed 1 ""] 0.

(** C6 at the failing input: the open ticket 7 carries the identifier of
    the item and its details are read, yet [_ensure_issue] returns 8, a
    ticket it has just created: the refusal to assign the agent to ticket
    7 is caught by the handler that stands for a failure to read the
    ticket, and is logged as such. *)
Lemma ensure_issue_duplicate_ticket :
  find_issue_by_todo sample_loads "id-123" world_unassignable =
    (Ok (Some 7), snd (find_issue_by_todo sample_loads "id-123" world_unassignable)) /\
  get_issue sample_loads 7 (snd (find_issue_by_todo sample_loads "id-123" world_unassignable)) =
    (Ok (sample_issue "open" []),
     snd (get_issue sample_loads 7
            (snd (find_issue_by_todo sample_loads "id-123" world_unassignable)))) /\
  fst (_ensure_issue sample_loads sample_pipeline outline_item world_unassignable) = Ok 8 /\
  commands (snd (_ensure_issue sample_loads sample_pipeline outline_item world_unassignable)) =
    [GhIssueListOpen "[id-123]"; GhIssueView 7;
     GhIssueAddAssignee 7 "@copilot"; GhIssueAddAssignee 7 "copilot";
     GhIssueAddAssignee 7 "Copilot"; GhIssueAddAssignee 7 "github-copilot";
     GhIssueAddAssignee 7 "github-copilot[bot]";
     GhIssueCreate "[id-123] Write the outline" (FullIssueBody outline_item);
     GhIssueAddAssignee 8 "@copilot"] /\
  In (EvLog WARNING
        (LogIssueDetailsFailed 7
           (RuntimeError (MsgAssignAllFailed 7 5
                            (RuntimeError (MsgGhFatal "could not assign user: not found"))))))
    (trace (snd (_ensure_issue sample_loads sample_pipeline outline_item world_unassignable))).
Proof.
  split; [vm_compute; reflexivity |].
  split; [vm_compute; reflexivity |].
  split; [vm_compute; reflexivity |].
  split; [vm_compute; reflexivity |].
  vm_compute. repeat (try (left; reflexivity); right).
Qed.

(* ================================================================== *)
(** * Further properties of the client, the scanner and the entry point *)

Local Open Scope list_scope.

(** ** GitHubClient._run_gh *)

(** A value [_run_gh] returns is the stripped output of a run that
    completed, and every run before it failed in a way that is retried. *)
Lemma run_gh_loop_returns (cmd : gh_cmd) (retries remaining attempt : nat) (w : world)
    (s : string) (w' : world) :
  run_gh_loop cmd retries remaining attempt w = (Ok s, w') ->
  exists k d out,
    (k < remaining)%nat /\
    env w (ncalls w + k) = Completed d out /\
    s = PyStr.strip out /\
    ncalls w' = S (ncalls w + k) /\
    env w' = env w /\
    forall j, (j < k)%nat -> transient (env w (ncalls w + j)).
Proof.
  revert attempt w.
  induction remaining as [|rem IH]; intros attempt w H; [discriminate H |].
  destruct (env w (ncalls w)) as [d out | d | d raw | d] eqn:Eo.
  - cbn [run_gh_loop] in H. rewrite spawn_step, Eo in H. injection H as <- <-.
    exists O, d, out. rewrite Nat.add_0_r.
    repeat split; try assumption; try lia.
  - destruct (Nat.eq_dec attempt retries) as [-> | Hne].
    + cbn [run_gh_loop] in H. rewrite spawn_step, Eo, Nat.eqb_refl in H. discriminate H.
    + rewrite run_gh_loop_retry in H by (try rewrite Eo; try exact I; assumption).
      apply IH in H. destruct H as (k & d' & out & Hk & Ho & Hs & Hn & He & Hj).
      cbn [slept pushed spawned env ncalls] in Ho, Hn, He, Hj.
      exists (S k), d', out.
      replace (ncalls w + S k)%nat with (S (ncalls w) + k)%nat by lia.
      repeat split; try assumption; try lia.
      intros [|j] Hlt.
      * rewrite Nat.add_0_r, Eo. exact I.
      * replace (ncalls w + S j)%nat with (S (ncalls w) + j)%nat by lia.
        apply Hj. lia.
  - destruct (is_fatal_error (stderr_text raw)) eqn:Ef.
    + rewrite (run_gh_loop_fatal cmd retries rem attempt w d raw Eo Ef) in H. discriminate H.
    + destruct (Nat.eq_dec attempt retries) as [-> | Hne].
      * cbn [run_gh_loop] in H. rewrite spawn_step, Eo in H. cbv zeta in H.
        rewrite Nat.eqb_refl in H. discriminate H.
      * rewrite run_gh_loop_retry in H by (try rewrite Eo; assumption).
        apply IH in H. destruct H as (k & d' & out & Hk & Ho & Hs & Hn & He & Hj).
        cbn [slept pushed spawned env ncalls] in Ho, Hn, He, Hj.
        exists (S k), d', out.
        replace (ncalls w + S k)%nat with (S (ncalls w) + k)%nat by lia.
        repeat split; try assumption; try lia.
        intros [|j] Hlt.
        { rewrite Nat.add_0_r, Eo. exact Ef. }
        { replace (ncalls w + S j)%nat with (S (ncalls w) + j)%nat by lia.
          apply Hj. lia. }
  - cbn [run_gh_loop] in H. rewrite spawn_step, Eo in H. discriminate H.
Qed.

(** X1.  When [_run_gh] returns a string, that string is the stripped
    standard output of a run of the command that completed; it is the
    first run that completed, each run before it having timed out or
    failed with an error that is not fatal; and the command was run no
    more than [retries] times. *)
Theorem run_gh_returns_first_success (cmd : gh_cmd) (retries : nat) (w : world)
    (s : string) (w' : world) :
  _run_gh cmd retries w = (Ok s, w') ->
  exists k d out,
    (k < retries)%nat /\
    env w (ncalls w + k) = Completed d out /\
    s = PyStr.strip out /\
    ncalls w' = S (ncalls w + k) /\
    forall j, (j < k)%nat -> transient (env w (ncalls w + j)).
Proof.
  intros H. apply run_gh_loop_returns in H.
  destruct H as (k & d & out & Hk & Ho & Hs & Hn & _ & Hj).
  exists k, d, out. repeat split; assumption.
Qed.

(** The tracker is slow once, then answers with padded text. *)
Definition world_slow_once : world :=
  world_of [TimeoutExpired 180; Completed 2 "  https://github.com/owner/story/issues/8 "] 0.

Lemma run_gh_returns_first_success_witness :
  _run_gh (GhIssueView 7) 3 world_slow_once =
    (Ok "https://github.com/owner/story/issues/8",
     snd (_run_gh (GhIssueView 7) 3 world_slow_once)) /\
  exists k d out,
    (k < 3)%nat /\
    env world_slow_once (ncalls world_slow_once + k) = Completed d out /\
    "https://github.com/owner/story/issues/8"%string = PyStr.strip out /\
    ncalls (snd (_run_gh (GhIssueView 7) 3 world_slow_once)) =
      S (ncalls world_slow_once + k) /\
    forall j, (j < k)%nat -> transient (env world_slow_once (ncalls world_slow_once + j)).
Proof.
  assert (H : _run_gh (GhIssueView 7) 3 world_slow_once =
              (Ok "https://github.com/owner/story/issues/8",
               snd (_run_gh (GhIssueView 7) 3 world_slow_once)))
    by (vm_compute; reflexivity).
  split; [exact H |].
  exact (run_gh_returns_first_success (GhIssueView 7) 3 world_slow_once _ _ H).
Defined.

(** The events [_run_gh] adds are runs of [cmd], sleeps and log lines. *)
Definition runs_only (cmd : gh_cmd) (e : event) : Prop :=
  match e with
  | EvGh c => c = cmd
  | _ => True
  end.

Lemma run_gh_loop_bounded (cmd : gh_cmd) (retries remaining attempt : nat) (w : world) :
  let r := run_gh_loop cmd retries remaining attempt w in
  fst r <> Diverge /\
  (ncalls w <= ncalls (snd r) <= ncalls w + remaining)%nat /\
  ((0 < remaining)%nat -> (ncalls w < ncalls (snd r))%nat) /\
  now w <= now (snd r) /\
  exists d, trace (snd r) = d ++ trace w /\ Forall (runs_only cmd) d.
Proof.
  cbv zeta. revert attempt w.
  induction remaining as [|rem IH]; intros attempt w.
  - cbn. repeat split; try discriminate; try lia.
    exists []. split; [reflexivity | constructor].
  - assert (Hnext : forall secs m,
               0 <= secs ->
               let w2 := slept secs (pushed (EvLog WARNING m) (spawned cmd w)) in
               let r := run_gh_loop cmd retries rem (S attempt) w2 in
               fst r <> Diverge /\
               (ncalls w <= ncalls (snd r) <= ncalls w + S rem)%nat /\
               ((0 < S rem)%nat -> (ncalls w < ncalls (snd r))%nat) /\
               now w <= now (snd r) /\
               exists d, trace (snd r) = d ++ trace w /\ Forall (runs_only cmd) d).
    { intros secs m Hs. cbv zeta.
      destruct (IH (S attempt) (slept secs (pushed (EvLog WARNING m) (spawned cmd w))))
        as (Hd & Hc & _ & Hn & d & Ht & Hf).
      cbn [slept pushed spawned ncalls now trace] in Hc, Hn, Ht.
      repeat split; try assumption; try lia.
      exists (d ++ [EvSleep secs; EvLog WARNING m; EvGh cmd]). split.
      - rewrite Ht, <- app_assoc. reflexivity.
      - apply Forall_app. split; [exact Hf |]. repeat constructor. }
    assert (Hstop : forall (A : Type) (o : outcome A) m,
               o <> Diverge ->
               let w2 := pushed (EvLog ERROR m) (spawned cmd w) in
               o <> Diverge /\
               (ncalls w <= ncalls w2 <= ncalls w + S rem)%nat /\
               ((0 < S rem)%nat -> (ncalls w < ncalls w2)%nat) /\
               now w <= now w2 /\
               exists d, trace w2 = d ++ trace w /\ Forall (runs_only cmd) d).
    { intros A o m Ho. cbv zeta. cbn [pushed spawned ncalls now trace].
      repeat split; try assumption; try lia.
      exists [EvLog ERROR m; EvGh cmd]. split; [reflexivity | repeat constructor]. }
    assert (Hone : forall (A : Type) (o : outcome A),
               o <> Diverge ->
               let w2 := spawned cmd w in
               o <> Diverge /\
               (ncalls w <= ncalls w2 <= ncalls w + S rem)%nat /\
               ((0 < S rem)%nat -> (ncalls w < ncalls w2)%nat) /\
               now w <= now w2 /\
               exists d, trace w2 = d ++ trace w /\ Forall (runs_only cmd) d).
    { intros A o Ho. cbv zeta. cbn [spawned ncalls now trace].
      repeat split; try assumption; try lia.
      exists [EvGh cmd]. split; [reflexivity | repeat constructor]. }
    pose proof (network_wait_bounds attempt) as Hn.
    pose proof (generic_wait_bounds attempt) as Hg.
    assert (Hr : 0 <= rate_limit_wait attempt <= 1800) by (unfold rate_limit_wait; lia).
    cbn [run_gh_loop]. rewrite spawn_step.
    destruct (env w (ncalls w)) as [d out | d | d raw | d].
    + apply Hone. discriminate.
    + destruct (attempt =? retries)%nat.
      * rewrite log_step. apply Hstop. discriminate.
      * rewrite log_step, sleep_step by lia. apply Hnext. lia.
    + cbv zeta. destruct (attempt =? retries)%nat.
      * rewrite log_step. apply Hstop. discriminate.
      * destruct (is_fatal_error (stderr_text raw)).
        { rewrite log_step. apply Hstop. discriminate. }
        destruct (is_rate_limit_error (stderr_text raw));
          [| destruct (is_network_error (stderr_text raw))];
          rewrite log_step, sleep_step by lia; apply Hnext; lia.
    + apply Hone. discriminate.
Qed.

(** X2.  Whatever the tracker answers, [_run_gh] ends; it runs the
    command at most [retries] times, and at least once when [retries] is
    positive; it runs no other command and never turns the clock back.
    With [retries = 0] it raises the "unknown error" without running
    anything. *)
Theorem run_gh_bounded (cmd : gh_cmd) (retries : nat) (w : world) :
  fst (_run_gh cmd retries w) <> Diverge /\
  (ncalls w <= ncalls (snd (_run_gh cmd retries w)) <= ncalls w + retries)%nat /\
  ((0 < retries)%nat -> (ncalls w < ncalls (snd (_run_gh cmd retries w)))%nat) /\
  now w <= now (snd (_run_gh cmd retries w)) /\
  (exists d, trace (snd (_run_gh cmd retries w)) = d ++ trace w /\
             Forall (runs_only cmd) d) /\
  _run_gh cmd 0 w = (Raise (RuntimeError (MsgGhUnknown 0)), w).
Proof.
  destruct (run_gh_loop_bounded cmd retries retries 1 w) as (H1 & H2 & H3 & H4 & H5).
  repeat split; try assumption; apply H2.
Qed.

(** ** Decimal numerals and [int()] *)

From Stdlib Require DecimalPos.

Fixpoint all_chars (f : ascii -> bool) (s : string) : bool :=
  match s with
  | EmptyString => true
  | String c t => (f c && all_chars f t)%bool
  end.

Lemma digits_digit (acc : Z) (b : bool) (c : ascii) (t : string) :
  PyStr.is_digit c = true ->
  PyStr.digits acc b (String c t) = PyStr.digits (acc * 10 + PyStr.digit_val c) true t.
Proof. intros H. cbn [PyStr.digits]. rewrite H. reflexivity. Qed.

Lemma digits_of_uint_acc (d : Decimal.uint) (acc : positive) :
  PyStr.digits (Z.pos acc) true (NilEmpty.string_of_uint d) =
  Some (Z.pos (Pos.of_uint_acc d acc)).
Proof.
  revert acc.
  induction d; intros acc; cbn [NilEmpty.string_of_uint Pos.of_uint_acc];
    [reflexivity | ..];
    rewrite digits_digit by reflexivity;
    match goal with
    | |- PyStr.digits ?a true _ = Some (Z.pos (Pos.of_uint_acc _ ?p)) =>
        replace a with (Z.pos p) by (vm_compute PyStr.digit_val; lia)
    end;
    apply IHd.
Qed.

Lemma digits_of_uint (d : Decimal.uint) :
  PyStr.digits 0 true (NilEmpty.string_of_uint d) = Some (Z.of_N (Pos.of_uint d)).
Proof.
  induction d; cbn [NilEmpty.string_of_uint Pos.of_uint];
    [reflexivity | ..];
    rewrite digits_digit by reflexivity;
    [exact IHd | ..];
    match goal with
    | |- PyStr.digits ?a true _ = Some (Z.of_N (N.pos (Pos.of_uint_acc _ ?p))) =>
        replace a with (Z.pos p) by (vm_compute; reflexivity)
    end;
    apply digits_of_uint_acc.
Qed.

Lemma digits_first (b : bool) (s : string) :
  s <> EmptyString -> all_chars PyStr.is_digit s = true ->
  PyStr.digits 0 b s = PyStr.digits 0 true s.
Proof.
  destruct s as [|c t]; [congruence |]. intros _ H. cbn [all_chars] in H.
  apply andb_prop in H. destruct H as (Hc & _).
  rewrite !digits_digit by exact Hc. reflexivity.
Qed.

Lemma string_of_uint_digits (d : Decimal.uint) :
  all_chars PyStr.is_digit (NilEmpty.string_of_uint d) = true.
Proof. induction d; cbn [NilEmpty.string_of_uint all_chars]; [reflexivity | ..]; exact IHd. Qed.








Lemma dec_digits (n : Z) :
  0 <= n ->
  dec n <> EmptyString /\ all_chars PyStr.is_digit (dec n) = true /\
  PyStr.digits 0 true (dec n) = Some n.
Proof.
  intros Hn. unfold dec. destruct n as [|p|p]; [repeat split; discriminate | | lia].
  cbn [Z.to_int NilZero.string_of_int].
  pose proof (DecimalPos.Unsigned.of_to p) as Hp.
  assert (Hs : NilZero.string_of_uint (Pos.to_uint p) = NilEmpty.string_of_uint (Pos.to_uint p)).
  { destruct (Pos.to_uint p); [discriminate Hp | reflexivity..]. }
  rewrite Hs. split; [| split].
  - destruct (Pos.to_uint p); [discriminate Hp | discriminate..].
  - apply string_of_uint_digits.
  - rewrite digits_of_uint, Hp. reflexivity.
Qed.


(** ** GitHubClient.api_request *)

(** X3.  What [api_request] answers follows from what the command does.
    When the command prints nothing the answer is the empty object, and
    when it prints JSON the answer is the decoded value.  When the command
    fails, or prints text that is not JSON, [silent_fail=True] answers the
    empty object without a warning; [silent_fail=False] logs one warning
    and raises the failure again unchanged (the failure of the command,
    or the JSON decoding error).  Nothing else is run, and with
    [silent_fail=True] the call never raises. *)
Theorem api_request_failure_modes (json_loads : string -> option json) (method : string)
    (path : api_path) (headers : list string) (silent : bool) (w : world) :
  let fetch := _run_gh (GhApi path method headers) 3 w in
  let answer := api_request json_loads method path headers silent w in
  (forall output,
      fst fetch = Ok output -> PyStr.is_empty output = true ->
      answer = (Ok (JObj []), snd fetch)) /\
  (forall output j,
      fst fetch = Ok output -> PyStr.is_empty output = false ->
      json_loads output = Some j ->
      answer = (Ok j, snd fetch)) /\
  (forall output,
      fst fetch = Ok output -> PyStr.is_empty output = false ->
      json_loads output = None ->
      answer = if silent then (Ok (JObj []), snd fetch)
               else (Raise JSONDecodeError,
                     pushed (EvLog WARNING (LogApiFailed JSONDecodeError)) (snd fetch))) /\
  (forall e,
      fst fetch = Raise e ->
      answer = if silent then (Ok (JObj []), snd fetch)
               else (Raise e, pushed (EvLog WARNING (LogApiFailed e)) (snd fetch))) /\
  fst fetch <> Diverge /\
  (silent = true -> exists j, fst answer = Ok j).
Proof.
  cbv zeta.
  pose proof (total_run_gh (GhApi path method headers) 3 w) as Ht.
  unfold api_request. rewrite try_except_unfold, bind_unfold.
  destruct (_run_gh (GhApi path method headers) 3 w) as [[out | e0 |] w1];
    cbn [fst snd] in *; [| | congruence].
  - unfold loads_or, loads.
    split; [intros output H Hb; injection H as <-; rewrite Hb; reflexivity |].
    split; [intros output j H Hb Hj; injection H as <-; rewrite Hb, Hj; reflexivity |].
    split.
    { intros output H Hb Hj. injection H as <-. rewrite Hb, Hj.
      destruct silent; reflexivity. }
    split; [intros e H; discriminate H |]. split; [discriminate |].
    intros ->. destruct (PyStr.is_empty out); [eexists; reflexivity |].
    destruct (json_loads out); eexists; reflexivity.
  - split; [intros output H; discriminate H |].
    split; [intros output j H; discriminate H |].
    split; [intros output H; discriminate H |].
    split; [intros e H; injection H as <-; destruct silent; reflexivity |].
    split; [discriminate |]. intros ->. eexists; reflexivity.
Qed.

(** ** GitHubClient.create_issue *)



Lemma split_no_sep (sep : ascii) (s : string) :
  all_chars (fun c => negb (Ascii.eqb c sep)) s = true -> PyStr.split sep s = [s].
Proof.
  induction s as [|c t IH]; [reflexivity |]. cbn [all_chars PyStr.split]. intros H.
  apply andb_prop in H. destruct H as (Hc & Ht). rewrite (IH Ht).
  destruct (Ascii.eqb c sep); [discriminate Hc | reflexivity].
Qed.








(** ** GitHubClient.add_assignees and remove_assignees *)

(** A call with the default three attempts runs the command once, twice
    or three times. *)
Lemma run_gh_default_calls (cmd : gh_cmd) (w : world) :
  (ncalls w < ncalls (snd (_run_gh cmd 3 w)) <= ncalls w + 3)%nat.
Proof.
  destruct (run_gh_loop_bounded cmd 3 3 1 w) as (_ & Hb & Hc & _).
  unfold _run_gh. split; [apply Hc; lia | apply Hb].
Qed.

Lemma commands_spawned (cmd : gh_cmd) (w : world) :
  commands (spawned cmd w) = commands w ++ [cmd].
Proof.
  unfold commands, history. cbn [spawned trace rev].
  rewrite flat_map_app. cbn [flat_map]. rewrite app_nil_r. reflexivity.
Qed.

Lemma commands_pushed (lvl : level) (m : log_msg) (w : world) :
  commands (pushed (EvLog lvl m) w) = commands w.
Proof.
  unfold commands, history. cbn [pushed trace rev].
  rewrite flat_map_app. cbn [flat_map]. rewrite app_nil_r. reflexivity.
Qed.

Lemma commands_slept (secs : Z) (w : world) : commands (slept secs w) = commands w.
Proof.
  unfold commands, history. cbn [slept trace rev].
  rewrite flat_map_app. cbn [flat_map]. rewrite app_nil_r. reflexivity.
Qed.

(** The commands a call of [_run_gh] adds to a run are its own, one for
    each subprocess it starts. *)
Lemma run_gh_loop_commands (cmd : gh_cmd) (retries remaining attempt : nat) (w : world) :
  commands (snd (run_gh_loop cmd retries remaining attempt w)) =
  commands w ++ repeat cmd (ncalls (snd (run_gh_loop cmd retries remaining attempt w))
                            - ncalls w).
Proof.
  revert attempt w. induction remaining as [|rem IH]; intros attempt w.
  - cbn. rewrite Nat.sub_diag. cbn [repeat]. rewrite app_nil_r. reflexivity.
  - assert (Hone : commands (spawned cmd w) =
                   commands w ++ repeat cmd (ncalls (spawned cmd w) - ncalls w)).
    { rewrite commands_spawned. cbn [spawned ncalls].
      replace (S (ncalls w) - ncalls w)%nat with 1%nat by lia. reflexivity. }
    assert (Hstop : forall m,
               commands (pushed (EvLog ERROR m) (spawned cmd w)) =
               commands w ++ repeat cmd (ncalls (pushed (EvLog ERROR m) (spawned cmd w))
                                         - ncalls w)).
    { intros m. rewrite commands_pushed. exact Hone. }
    assert (Hnext : forall secs m,
               let w2 := slept secs (pushed (EvLog WARNING m) (spawned cmd w)) in
               commands (snd (run_gh_loop cmd retries rem (S attempt) w2)) =
               commands w ++
               repeat cmd (ncalls (snd (run_gh_loop cmd retries rem (S attempt) w2))
                           - ncalls w)).
    { intros secs m. cbv zeta. rewrite IH.
      destruct (run_gh_loop_bounded cmd retries rem (S attempt)
                  (slept secs (pushed (EvLog WARNING m) (spawned cmd w))))
        as (_ & (Hle & _) & _).
      rewrite commands_slept, commands_pushed, commands_spawned.
      cbn [slept pushed spawned ncalls] in *.
      set (c' := ncalls (snd (run_gh_loop cmd retries rem (S attempt)
                   (slept secs (pushed (EvLog WARNING m) (spawned cmd w)))))) in *.
      replace (c' - ncalls w)%nat with (S (c' - S (ncalls w)))%nat by lia.
      cbn [repeat]. rewrite <- app_assoc. reflexivity. }
    pose proof (network_wait_bounds attempt) as Hn.
    pose proof (generic_wait_bounds attempt) as Hg.
    assert (Hr : 0 <= rate_limit_wait attempt <= 1800) by (unfold rate_limit_wait; lia).
    cbn [run_gh_loop]. rewrite spawn_step.
    destruct (env w (ncalls w)) as [d out | d | d raw | d].
    + exact Hone.
    + destruct (attempt =? retries)%nat.
      * rewrite log_step. apply Hstop.
      * rewrite log_step, sleep_step by lia. apply Hnext.
    + cbv zeta. destruct (attempt =? retries)%nat.
      * rewrite log_step. apply Hstop.
      * destruct (is_fatal_error (stderr_text raw)).
        { rewrite log_step. apply Hstop. }
        destruct (is_rate_limit_error (stderr_text raw));
          [| destruct (is_network_error (stderr_text raw))];
          rewrite log_step, sleep_step by lia; apply Hnext.
    + exact Hone.
Qed.

(** The commands of [names], each run as often as [ks] says. *)
Definition runs_of (cmd_of : string -> gh_cmd) (names : list string) (ks : list nat)
  : list gh_cmd :=
  List.concat (map (fun p => repeat (cmd_of (fst p)) (snd p)) (combine names ks)).

(** One call with three attempts: its own command, one to three times. *)
Lemma run_gh_default_commands (cmd : gh_cmd) (w : world) :
  exists k, (1 <= k <= 3)%nat /\
            ncalls (snd (_run_gh cmd 3 w)) = (ncalls w + k)%nat /\
            commands (snd (_run_gh cmd 3 w)) = commands w ++ repeat cmd k.
Proof.
  pose proof (run_gh_default_calls cmd w) as Hc.
  exists (ncalls (snd (_run_gh cmd 3 w)) - ncalls w)%nat.
  split; [lia |]. split; [lia |]. apply run_gh_loop_commands.
Qed.

(** The candidates [names] were tried for ticket [n] one after the
    other, each from the world the one before had left, and every one
    failed. *)
Inductive tried_in_vain (n : Z) : list string -> world -> world -> Prop :=
| tried_none (w : world) : tried_in_vain n [] w w
| tried_next (a : string) (rest : list string) (w w1 w' : world) (e : exn) :
    _run_gh (GhIssueAddAssignee n a) 3 w = (Raise e, w1) ->
    tried_in_vain n rest w1 w' ->
    tried_in_vain n (a :: rest) w w'.

Lemma tried_in_vain_snoc (n : Z) (before : list string) (a : string) (w w0 w' : world)
    (e : exn) :
  tried_in_vain n before w w0 ->
  _run_gh (GhIssueAddAssignee n a) 3 w0 = (Raise e, w') ->
  tried_in_vain n (before ++ [a]) w w'.
Proof.
  induction 1 as [w | b rest w w1 w0 e0 Hr _ IH]; intros Ha; cbn [app].
  - econstructor; [exact Ha | constructor].
  - econstructor; [exact Hr | apply IH, Ha].
Qed.

Lemma tried_in_vain_commands (n : Z) (before : list string) (w w0 : world) :
  tried_in_vain n before w w0 ->
  exists ks,
    List.length ks = List.length before /\
    Forall (fun k => (1 <= k <= 3)%nat) ks /\
    commands w0 = commands w ++ runs_of (GhIssueAddAssignee n) before ks.
Proof.
  induction 1 as [w | a rest w w1 w0 e Hr _ (ks & Hl & Hf & Hc)].
  - exists []. repeat split; [constructor | unfold runs_of; cbn; rewrite app_nil_r; reflexivity].
  - destruct (run_gh_default_commands (GhIssueAddAssignee n a) w) as (k & Hk & _ & Hck).
    rewrite Hr in Hck. cbn [snd] in Hck.
    exists (k :: ks). split; [cbn [List.length]; rewrite Hl; reflexivity |].
    split; [constructor; assumption |].
    rewrite Hc, Hck. unfold runs_of. cbn [combine map List.concat fst snd].
    rewrite <- app_assoc. reflexivity.
Qed.

(** [add_assignees] returns right after the first candidate the tracker
    accepts, every candidate before it having failed. *)
Lemma add_assignees_from_ok (n : Z) (tried : nat) (names : list string)
    (last_error : option exn) (w w' : world) :
  add_assignees_from n tried names last_error w = (Ok tt, w') ->
  (names = [] /\ last_error = None /\ w' = w) \/
  exists before a after w0 out,
    names = before ++ a :: after /\
    tried_in_vain n before w w0 /\
    _run_gh (GhIssueAddAssignee n a) 3 w0 = (Ok out, w').
Proof.
  revert last_error w.
  induction names as [|a rest IH]; intros last_error w H.
  - cbn [add_assignees_from] in H. destruct last_error; [discriminate H |].
    injection H as <-. left. repeat split.
  - rewrite add_assignees_from_step in H. right.
    destruct (_run_gh (GhIssueAddAssignee n a) 3 w) as [[out | e |] w1] eqn:Er;
      [| | discriminate H].
    + injection H as <-. exists [], a, rest, w, out.
      split; [reflexivity |]. split; [constructor | exact Er].
    + apply IH in H.
      destruct H as [(-> & Hl & _) | (before & b & after & w0 & out & -> & Hv & Hr)];
        [discriminate Hl |].
      exists (a :: before), b, after, w0, out. split; [reflexivity |].
      split; [econstructor; [exact Er | exact Hv] | exact Hr].
Qed.

(** It raises only after the last candidate has failed, with the failure
    of that candidate inside; by then every candidate has been tried. *)
Lemma add_assignees_from_raise (n : Z) (tried : nat) (names : list string)
    (last_error : option exn) (w : world) (e : exn) (w' : world) :
  add_assignees_from n tried names last_error w = (Raise e, w') ->
  exists cause,
    e = RuntimeError (MsgAssignAllFailed n tried cause) /\
    ((names = [] /\ last_error = Some cause /\ w' = w) \/
     exists before a w0,
       names = before ++ [a] /\
       tried_in_vain n before w w0 /\
       _run_gh (GhIssueAddAssignee n a) 3 w0 = (Raise cause, w')).
Proof.
  revert last_error w.
  induction names as [|a rest IH]; intros last_error w H.
  - cbn [add_assignees_from] in H. destruct last_error as [c |]; [| discriminate H].
    injection H as <- <-. exists c. split; [reflexivity |]. left. repeat split.
  - rewrite add_assignees_from_step in H.
    destruct (_run_gh (GhIssueAddAssignee n a) 3 w) as [[out | e0 |] w1] eqn:Er;
      try discriminate H.
    apply IH in H. destruct H as (cause & -> & Hlast).
    exists cause. split; [reflexivity |].
    right. destruct Hlast as [(-> & Hl & ->) | (before & b & w0 & -> & Hv & Hr)].
    + injection Hl as <-. exists [], a, w. split; [reflexivity |].
      split; [constructor | exact Er].
    + exists (a :: before), b, w0. split; [reflexivity |].
      split; [econstructor; [exact Er | exact Hv] | exact Hr].
Qed.

(** The other way round: candidates that fail are passed, and the first
    that is accepted ends the call. *)
Lemma add_assignees_from_accepts (n : Z) (tried : nat) (before : list string) (a : string)
    (after : list string) (last_error : option exn) (w w0 w' : world) (out : string) :
  tried_in_vain n before w w0 ->
  _run_gh (GhIssueAddAssignee n a) 3 w0 = (Ok out, w') ->
  add_assignees_from n tried (before ++ a :: after) last_error w = (Ok tt, w').
Proof.
  intros Hv Ha. revert last_error.
  induction Hv as [w | b rest w w1 w0 e Hr _ IH]; intros last_error; cbn [app];
    rewrite add_assignees_from_step.
  - rewrite Ha. reflexivity.
  - rewrite Hr. apply IH, Ha.
Qed.

(** X5.  [add_assignees] tries the candidate names in the order of the
    list, each with a call of its own, and returns right after the first
    one the tracker accepts: every name before it has been tried and has
    failed, no name after it is tried, and the commands run are those of
    the names tried, in their order, one to three times each.  The other
    way round, whenever the names before [a] fail and [a] is accepted, the
    call returns at [a].  It raises only when the list is not empty and
    every candidate has failed, and the failure carries the ticket, the
    number of candidates and the failure of the last one.  With an empty
    list it returns without running anything. *)
Theorem add_assignees_first_success (n : Z) (names : list string) (w : world) :
  add_assignees n [] w = (Ok tt, w) /\
  fst (add_assignees n names w) <> Diverge /\
  (forall w',
      add_assignees n names w = (Ok tt, w') ->
      names <> [] ->
      exists before a after w0 out ks k,
        names = before ++ a :: after /\
        tried_in_vain n before w w0 /\
        _run_gh (GhIssueAddAssignee n a) 3 w0 = (Ok out, w') /\
        List.length ks = List.length before /\
        Forall (fun j => (1 <= j <= 3)%nat) ks /\
        (1 <= k <= 3)%nat /\
        commands w' = commands w ++ runs_of (GhIssueAddAssignee n) before ks
                                 ++ repeat (GhIssueAddAssignee n a) k) /\
  (forall before a after w0 out w',
      names = before ++ a :: after ->
      tried_in_vain n before w w0 ->
      _run_gh (GhIssueAddAssignee n a) 3 w0 = (Ok out, w') ->
      add_assignees n names w = (Ok tt, w')) /\
  (forall e w',
      add_assignees n names w = (Raise e, w') ->
      exists cause before a w0 ks,
        e = RuntimeError (MsgAssignAllFailed n (List.length names) cause) /\
        names = before ++ [a] /\
        tried_in_vain n before w w0 /\
        _run_gh (GhIssueAddAssignee n a) 3 w0 = (Raise cause, w') /\
        List.length ks = List.length names /\
        Forall (fun j => (1 <= j <= 3)%nat) ks /\
        commands w' = commands w ++ runs_of (GhIssueAddAssignee n) names ks).
Proof.
  split; [reflexivity |]. split; [apply total_add_assignees |]. split; [| split].
  - intros w' H Hne. unfold add_assignees in H. apply add_assignees_from_ok in H.
    destruct H as [(Hn & _) | (before & a & after & w0 & out & Hs & Hv & Hr)];
      [contradiction |].
    destruct (tried_in_vain_commands n before w w0 Hv) as (ks & Hl & Hf & Hc).
    destruct (run_gh_default_commands (GhIssueAddAssignee n a) w0) as (k & Hk & _ & Hck).
    rewrite Hr in Hck. cbn [snd] in Hck.
    exists before, a, after, w0, out, ks, k.
    repeat split; try assumption; try apply Hk.
    rewrite Hck, Hc, <- app_assoc. reflexivity.
  - intros before a after w0 out w' -> Hv Hr. unfold add_assignees.
    exact (add_assignees_from_accepts n _ before a after None w w0 w' out Hv Hr).
  - intros e w' H. unfold add_assignees in H. apply add_assignees_from_raise in H.
    destruct H as (cause & -> & [(_ & Hl & _) | (before & a & w0 & Hn & Hv & Hr)]);
      [discriminate Hl |].
    destruct (tried_in_vain_commands n names w w'
                ltac:(rewrite Hn; exact (tried_in_vain_snoc n before a w w0 w' cause Hv Hr)))
      as (ks & Hl & Hf & Hc).
    exists cause, before, a, w0, ks. repeat split; assumption.
Qed.

(** X6.  [remove_assignees] never raises: it runs the removal for every
    name of the list, in the order of the list and whether or not the
    removals before it failed, each one to three times, and it runs no
    other command. *)
Theorem remove_assignees_tries_all (n : Z) (names : list string) (w : world) :
  fst (remove_assignees n names w) = Ok tt /\
  exists ks,
    List.length ks = List.length names /\
    Forall (fun k => (1 <= k <= 3)%nat) ks /\
    commands (snd (remove_assignees n names w)) =
      commands w ++ runs_of (GhIssueRemoveAssignee n) names ks /\
    ncalls (snd (remove_assignees n names w)) = (ncalls w + list_sum ks)%nat.
Proof.
  revert w. induction names as [|a rest IH]; intros w; cbn [remove_assignees].
  - split; [reflexivity |]. exists [].
    repeat split; [constructor | unfold runs_of; cbn; rewrite app_nil_r; reflexivity
                  | cbn; lia].
  - rewrite bind_unfold, attempt_unfold.
    pose proof (total_run_gh (GhIssueRemoveAssignee n a) 3 w) as Ht.
    destruct (run_gh_default_commands (GhIssueRemoveAssignee n a) w) as (k & Hk & Hn & Hc).
    assert (Hgo : forall w1,
               ncalls w1 = (ncalls w + k)%nat ->
               commands w1 = commands w ++ repeat (GhIssueRemoveAssignee n a) k ->
               fst (remove_assignees n rest w1) = Ok tt /\
               exists ks,
                 List.length ks = List.length (a :: rest) /\
                 Forall (fun k => (1 <= k <= 3)%nat) ks /\
                 commands (snd (remove_assignees n rest w1)) =
                   commands w ++ runs_of (GhIssueRemoveAssignee n) (a :: rest) ks /\
                 ncalls (snd (remove_assignees n rest w1)) = (ncalls w + list_sum ks)%nat).
    { intros w1 Hn1 Hc1. destruct (IH w1) as (Hok & ks & Hl & Hf & Hcs & Hns).
      split; [exact Hok |]. exists (k :: ks).
      split; [cbn [List.length]; rewrite Hl; reflexivity |].
      split; [constructor; assumption |]. split.
      - rewrite Hcs, Hc1. unfold runs_of. cbn [combine map List.concat fst snd].
        rewrite <- app_assoc. reflexivity.
      - rewrite Hns, Hn1. unfold list_sum. cbn [fold_right]. lia. }
    destruct (_run_gh (GhIssueRemoveAssignee n a) 3 w) as [[out | e |] w1];
      simpl in Ht; try congruence; cbn [snd] in Hn, Hc; apply Hgo; assumption.
Qed.

(** ** GitHubClient.get_pull *)

Lemma assoc_set_key_same (k : string) (v : json) (l : list (string * json)) :
  Py.assoc k (Py.set_key k v l) = Some v.
Proof.
  induction l as [|[k' v'] r IH]; cbn [Py.set_key Py.assoc].
  - rewrite String.eqb_refl. reflexivity.
  - destruct (String.eqb k k') eqn:E; cbn [Py.assoc].
    + rewrite String.eqb_refl. reflexivity.
    + rewrite E. exact IH.
Qed.

Lemma assoc_set_key_other (k k' : string) (v : json) (l : list (string * json)) :
  k' <> k -> Py.assoc k' (Py.set_key k v l) = Py.assoc k' l.
Proof.
  intros Hne. apply String.eqb_neq in Hne.
  induction l as [|[k2 v2] r IH]; cbn [Py.set_key Py.assoc].
  - rewrite Hne. reflexivity.
  - destruct (String.eqb k k2) eqn:E; cbn [Py.assoc].
    + apply String.eqb_eq in E. subst k2. rewrite Hne. reflexivity.
    + destruct (String.eqb k' k2); [reflexivity | exact IH].
Qed.

Lemma assoc_remove_key_same (k : string) (l : list (string * json)) :
  Py.assoc k (Py.remove_key k l) = None.
Proof.
  induction l as [|[k' v'] r IH]; cbn [Py.remove_key Py.assoc]; [reflexivity |].
  destruct (String.eqb k k') eqn:E; [exact IH |].
  cbn [Py.assoc]. rewrite E. exact IH.
Qed.

Lemma assoc_remove_key_other (k k' : string) (l : list (string * json)) :
  k' <> k -> Py.assoc k' (Py.remove_key k l) = Py.assoc k' l.
Proof.
  intros Hne. apply String.eqb_neq in Hne.
  induction l as [|[k2 v2] r IH]; cbn [Py.remove_key Py.assoc]; [reflexivity |].
  destruct (String.eqb k k2) eqn:E.
  - apply String.eqb_eq in E. subst k2. rewrite Hne. exact IH.
  - cbn [Py.assoc]. destruct (String.eqb k' k2); [reflexivity | exact IH].
Qed.

(** The fields of a dict after [if old in d: d[new] = d.pop(old)]. *)
Definition renamed (old new : string) (l : list (string * json)) : list (string * json) :=
  match Py.assoc old l with
  | Some v => Py.set_key new v (Py.remove_key old l)
  | None => l
  end.

Lemma rename_key_obj (old new : string) (l : list (string * json)) :
  rename_key old new (JObj l) = Success (JObj (renamed old new l)).
Proof.
  unfold rename_key, renamed. cbn [Py.contains_str rbind].
  destruct (Py.assoc old l); reflexivity.
Qed.

Lemma renamed_fields (old new : string) (l : list (string * json)) :
  old <> new ->
  Py.assoc old (renamed old new l) = None /\
  Py.assoc new (renamed old new l) =
    match Py.assoc old l with Some v => Some v | None => Py.assoc new l end /\
  forall k, k <> old -> k <> new -> Py.assoc k (renamed old new l) = Py.assoc k l.
Proof.
  intros Hne. unfold renamed. destruct (Py.assoc old l) as [v |] eqn:E.
  - split; [| split].
    + rewrite assoc_set_key_other by exact Hne. apply assoc_remove_key_same.
    + apply assoc_set_key_same.
    + intros k Ho Hn. rewrite assoc_set_key_other by exact Hn.
      apply assoc_remove_key_other. exact Ho.
  - split; [exact E |]. split; reflexivity.
Qed.

(** X7.  When [gh pr view] prints a JSON object, [get_pull] returns that
    object with [mergedAt] renamed to [merged_at] and [isDraft] to
    [draft]: the old names are gone, the new names hold what the old ones
    held (or what they held before, when the old name is absent), and
    every other field is as printed. *)
Theorem get_pull_renames (json_loads : string -> option json) (pr : json) (w : world)
    (output : string) (w1 : world) (l : list (string * json)) :
  _run_gh (GhPrView pr) 3 w = (Ok output, w1) ->
  PyStr.is_empty output = false ->
  json_loads output = Some (JObj l) ->
  exists l',
    get_pull json_loads pr w = (Ok (JObj l'), w1) /\
    Py.assoc "mergedAt" l' = None /\
    Py.assoc "isDraft" l' = None /\
    Py.assoc "merged_at" l' =
      match Py.assoc "mergedAt" l with Some v => Some v | None => Py.assoc "merged_at" l end /\
    Py.assoc "draft" l' =
      match Py.assoc "isDraft" l with Some v => Some v | None => Py.assoc "draft" l end /\
    forall k, k <> "mergedAt"%string -> k <> "isDraft"%string ->
              k <> "merged_at"%string -> k <> "draft"%string ->
              Py.assoc k l' = Py.assoc k l.
Proof.
  intros Hrun Hne Hj.
  exists (renamed "isDraft" "draft" (renamed "mergedAt" "merged_at" l)).
  destruct (renamed_fields "mergedAt" "merged_at" l ltac:(discriminate)) as (A1 & A2 & A3).
  destruct (renamed_fields "isDraft" "draft" (renamed "mergedAt" "merged_at" l)
              ltac:(discriminate)) as (B1 & B2 & B3).
  split; [| split; [| split; [| split; [| split]]]].
  - unfold get_pull. rewrite bind_unfold, Hrun, bind_unfold, try_except_unfold.
    unfold loads_or, loads. rewrite Hne, Hj. cbn [ret].
    rewrite bind_unfold, rename_key_obj. unfold lift at 1, ret. cbv beta iota.
    rewrite rename_key_obj. reflexivity.
  - rewrite B3 by discriminate. exact A1.
  - exact B1.
  - rewrite B3 by discriminate. exact A2.
  - rewrite B2. rewrite !A3 by discriminate. reflexivity.
  - intros k H1 H2 H3 H4. rewrite B3 by assumption. apply A3; assumption.
Qed.

Definition world_pull : world := world_of [Completed 1 "PR_OPEN"] 0.

Lemma get_pull_renames_witness :
  get_pull sample_loads (JNum 12) world_pull =
    (Ok sample_pull, spawned (GhPrView (JNum 12)) world_pull) /\
  exists l',
    get_pull sample_loads (JNum 12) world_pull =
      (Ok (JObj l'), spawned (GhPrView (JNum 12)) world_pull) /\
    Py.assoc "mergedAt" l' = None /\
    Py.assoc "isDraft" l' = None /\
    Py.assoc "merged_at" l' = Some JNull /\
    Py.assoc "draft" l' = Some (JBool true) /\
    forall k, k <> "mergedAt"%string -> k <> "isDraft"%string ->
              k <> "merged_at"%string -> k <> "draft"%string ->
              Py.assoc k l' =
              Py.assoc k [("number", JNum 12); ("state", JStr "open"); ("mergedAt", JNull);
                          ("isDraft", JBool true)].
Proof.
  split; [vm_compute; reflexivity |].
  exact (get_pull_renames sample_loads (JNum 12) world_pull "PR_OPEN"
           (spawned (GhPrView (JNum 12)) world_pull)
           [("number", JNum 12); ("state", JStr "open"); ("mergedAt", JNull);
            ("isDraft", JBool true)]
           eq_refl eq_refl eq_refl).
Defined.

(** ** GitHubClient.find_issue_by_todo *)

(** An entry of the list that the scan returns: a dict whose title holds
    the tag and whose number is an integer. *)
Definition issue_hit (tag : string) (issue : json) (n : Z) : Prop :=
  exists ttl,
    Py.is_dict issue = true /\
    Py.get issue "title" (JStr "") = Success ttl /\
    Py.contains_str tag ttl = Success true /\
    Py.get issue "number" JNull = Success (JNum n).

(** An entry the scan passes over: not a dict, or a dict whose title
    does not hold the tag, or whose number is not an integer. *)
Definition issue_passed (tag : string) (issue : json) : Prop :=
  Py.is_dict issue = false \/
  exists ttl num,
    Py.get issue "title" (JStr "") = Success ttl /\
    Py.get issue "number" JNull = Success num /\
    (Py.contains_str tag ttl = Success false \/
     Py.contains_str tag ttl = Success true /\ forall n, num <> JNum n).

(** The number of the entry is not a JSON boolean.  [gh] prints numbers;
    Python takes [True] and [False] for integers, which the scan, with
    ticket numbers in [Z], does not follow. *)
Definition number_not_bool (issue : json) : Prop :=
  forall b, Py.get issue "number" JNull <> Success (JBool b).

Lemma find_issue_scan_one (tag : string) (issue : json) (n : Z) :
  find_issue_scan tag [issue] = Success (Some n) -> issue_hit tag issue n.
Proof.
  cbn [find_issue_scan]. destruct (Py.is_dict issue) eqn:Hd; cbn [negb]; [| discriminate].
  destruct (Py.get issue "title" (JStr "")) as [ttl | e] eqn:Ht; [| discriminate]. cbn [rbind].
  destruct (Py.get issue "number" JNull) as [num | e] eqn:Hn; [| discriminate]. cbn [rbind].
  destruct (Py.contains_str tag ttl) as [[|] | e] eqn:Hc; cbn [rbind]; try discriminate.
  destruct num; try discriminate. intros H. injection H as <-.
  exists ttl. repeat split; assumption.
Qed.

Lemma find_issue_scan_none (tag : string) (issue : json) :
  find_issue_scan tag [issue] = Success None -> issue_passed tag issue.
Proof.
  cbn [find_issue_scan]. destruct (Py.is_dict issue) eqn:Hd; cbn [negb];
    [| intros _; left; exact Hd].
  destruct (Py.get issue "title" (JStr "")) as [ttl | e] eqn:Ht; [| discriminate]. cbn [rbind].
  destruct (Py.get issue "number" JNull) as [num | e] eqn:Hn; [| discriminate]. cbn [rbind].
  destruct (Py.contains_str tag ttl) as [[|] | e] eqn:Hc; cbn [rbind]; try discriminate.
  - intros H. right. exists ttl, num. split; [exact Ht |]. split; [exact Hn |].
    right. split; [exact Hc |]. intros k ->. discriminate H.
  - intros _. right. exists ttl, num. split; [exact Ht |]. split; [exact Hn |].
    left. exact Hc.
Qed.

Lemma find_issue_scan_some (tag : string) (issues : list json) (n : Z) :
  find_issue_scan tag issues = Success (Some n) ->
  exists before issue after,
    issues = before ++ issue :: after /\
    Forall (issue_passed tag) before /\
    issue_hit tag issue n.
Proof.
  induction issues as [|x r IH]; [discriminate |].
  rewrite find_issue_scan_cons.
  destruct (find_issue_scan tag [x]) as [[k |] | e] eqn:E; cbn [rbind]; [| | discriminate].
  - intros H. injection H as <-.
    exists [], x, r. split; [reflexivity |]. split; [constructor |].
    apply find_issue_scan_one, E.
  - intros H. destruct (IH H) as (before & issue & after & -> & Hb & Hi).
    exists (x :: before), issue, after. split; [reflexivity |].
    split; [constructor; [apply find_issue_scan_none, E | assumption] | exact Hi].
Qed.

(** X8.  [find_issue_by_todo] asks nothing of the tracker for an empty
    or blank identifier and answers [None]; it answers [None], after a
    warning, when the search command fails.  A number it returns comes
    from a list the command printed, and when no entry of that list has a
    JSON boolean for its number, it is the number of the first entry that
    is a dict, has the tag [[identifier]] in its title and an integer
    number: every entry before it is not a dict, or lacks the tag, or has
    a number that is not an integer. *)
Theorem find_issue_by_todo_result (json_loads : string -> option json) (todo_id : string)
    (w : world) :
  let tag := ("[" ++ todo_id ++ "]")%string in
  fst (find_issue_by_todo json_loads todo_id w) <> Diverge /\
  ((PyStr.is_empty todo_id || PyStr.is_empty (PyStr.strip todo_id))%bool = true ->
   find_issue_by_todo json_loads todo_id w = (Ok None, w)) /\
  (forall e w1,
      (PyStr.is_empty todo_id || PyStr.is_empty (PyStr.strip todo_id))%bool = false ->
      _run_gh (GhIssueListOpen tag) 2 w = (Raise e, w1) ->
      find_issue_by_todo json_loads todo_id w =
      (Ok None, pushed (EvLog WARNING (LogFindIssueFailed e)) w1)) /\
  (forall n w',
      find_issue_by_todo json_loads todo_id w = (Ok (Some n), w') ->
      exists output issues,
        _run_gh (GhIssueListOpen tag) 2 w = (Ok output, w') /\
        json_loads output = Some (JArr issues) /\
        (Forall number_not_bool issues ->
         exists before issue after,
           issues = before ++ issue :: after /\
           Forall (issue_passed tag) before /\
           issue_hit tag issue n)).
Proof.
  cbv zeta. split; [apply total_find_issue_by_todo |]. split; [| split].
  - intros Hb. unfold find_issue_by_todo. rewrite Hb. reflexivity.
  - intros e w1 Hb Hr. unfold find_issue_by_todo. rewrite Hb.
    rewrite bind_unfold, attempt_unfold, Hr. reflexivity.
  - intros n w' H. unfold find_issue_by_todo in H.
    destruct (PyStr.is_empty todo_id || PyStr.is_empty (PyStr.strip todo_id))%bool;
      [discriminate H |].
    rewrite bind_unfold, attempt_unfold in H.
    destruct (_run_gh (GhIssueListOpen ("[" ++ todo_id ++ "]")) 2 w)
      as [[output | e |] w1]; [| discriminate H | discriminate H].
    rewrite bind_unfold, attempt_unfold in H. unfold loads_or, loads in H.
    destruct (PyStr.is_empty output).
    + cbn in H. discriminate H.
    + destruct (json_loads output) as [j |] eqn:Hj; [| discriminate H].
      cbn [ret] in H. destruct j as [| b | z | t | issues | fields]; try discriminate H.
      unfold lift in H.
      destruct (find_issue_scan ("[" ++ todo_id ++ "]") issues) as [[k |] | e] eqn:Hs;
        try discriminate H.
      injection H as <- <-.
      exists output, issues. split; [reflexivity |]. split; [exact Hj |].
      intros _. exact (find_issue_scan_some _ _ _ Hs).
Qed.

(** ** GitHubClient.mark_pr_ready *)

(** X9.  [mark_pr_ready] never raises, whatever [gh pr ready] does, and
    runs no other command.  When the command fails with an error text, a
    warning is logged unless the text, case ignored, says "already" or
    "not a draft". *)
Theorem mark_pr_ready_never_raises (pr : json) (w : world) :
  fst (mark_pr_ready pr w) = Ok tt /\
  (ncalls w < ncalls (snd (mark_pr_ready pr w)) <= ncalls w + 3)%nat /\
  (exists d, trace (snd (mark_pr_ready pr w)) = d ++ trace w /\
             Forall (runs_only (GhPrReady pr)) d) /\
  (forall s w1,
      _run_gh (GhPrReady pr) 3 w = (Raise (RuntimeError (MsgGhFailed s)), w1) \/
      _run_gh (GhPrReady pr) 3 w = (Raise (RuntimeError (MsgGhFatal s)), w1) ->
      (PyStr.contains "already" (PyStr.lower s) = true \/
       PyStr.contains "not a draft" (PyStr.lower s) = true ->
       snd (mark_pr_ready pr w) = w1) /\
      (PyStr.contains "already" (PyStr.lower s) = false ->
       PyStr.contains "not a draft" (PyStr.lower s) = false ->
       exists e, snd (mark_pr_ready pr w) = pushed (EvLog WARNING (LogMarkReadyFailed pr e)) w1)).
Proof.
  pose proof (total_run_gh (GhPrReady pr) 3 w) as Ht.
  pose proof (run_gh_default_calls (GhPrReady pr) w) as Hc.
  destruct (run_gh_loop_bounded (GhPrReady pr) 3 3 1 w) as (_ & _ & _ & _ & d & Hd & Hf).
  change (run_gh_loop (GhPrReady pr) 3 3 1 w) with (_run_gh (GhPrReady pr) 3 w) in Hd.
  unfold mark_pr_ready. rewrite bind_unfold, attempt_unfold.
  destruct (_run_gh (GhPrReady pr) 3 w) as [[out | e |] w1]; simpl in Ht; try congruence;
    cbn [snd] in Hc, Hd.
  - split; [reflexivity |]. split; [exact Hc |]. split; [exists d; split; assumption |].
    intros s w2 [H | H]; discriminate H.
  - cbv zeta.
    destruct (PyStr.contains "already" (PyStr.lower (exn_text e)) ||
              PyStr.contains "not a draft" (PyStr.lower (exn_text e)))%bool eqn:Hq.
    + split; [reflexivity |]. split; [exact Hc |]. split; [exists d; split; assumption |].
      intros s w2 H.
      assert (Hs : exn_text e = s /\ w1 = w2)
        by (destruct H as [H | H]; injection H as -> ->; split; reflexivity).
      destruct Hs as (Hs & ->). rewrite Hs in Hq.
      split; [reflexivity |]. intros H1 H2. rewrite H1, H2 in Hq. discriminate Hq.
    + split; [reflexivity |]. split; [exact Hc |]. split.
      * exists (EvLog WARNING (LogMarkReadyFailed pr e) :: d). cbn [log emit pushed trace snd].
        split; [rewrite Hd; reflexivity | constructor; [exact I | exact Hf]].
      * intros s w2 H.
        assert (Hs : exn_text e = s /\ w1 = w2)
          by (destruct H as [H | H]; injection H as -> ->; split; reflexivity).
        destruct Hs as (Hs & ->). rewrite Hs in Hq.
        apply orb_false_elim in Hq. destruct Hq as (Hq1 & Hq2).
        split; [intros [H1 | H1]; congruence |].
        intros _ _. exists e. reflexivity.
Qed.

(** ** Pipeline.get_recent_completed_todos *)

(** An identifier the progress scan takes from a closed ticket: the
    stripped text between the first pair of brackets of its title. *)
Definition completed_from (issue : json) (todo_id : string) : Prop :=
  exists ttl g,
    Py.get issue "title" (JStr "") = Success (JStr ttl) /\
    bracket_search ttl = Some g /\
    todo_id = PyStr.strip g /\
    PyStr.is_empty todo_id = false.

Lemma completed_scan_ids (issues : list json) (acc ids : list string) :
  completed_scan issues acc = Success ids ->
  forall todo_id, In todo_id ids ->
    In todo_id acc \/ exists issue, In issue issues /\ completed_from issue todo_id.
Proof.
  revert acc. induction issues as [|x r IH]; intros acc H todo_id Hin.
  - cbn in H. injection H as <-. left. exact Hin.
  - assert (Hskip : completed_scan r acc = Success ids ->
                    In todo_id acc \/
                    exists issue, In issue (x :: r) /\ completed_from issue todo_id).
    { intros H'. destruct (IH acc H' todo_id Hin) as [Ha | (issue & Hi & Hc)];
        [left; exact Ha | right; exists issue; split; [right; exact Hi | exact Hc]]. }
    cbn [completed_scan] in H.
    destruct (negb (Py.is_dict x)); [exact (Hskip H) |].
    destruct (Py.get x "title" (JStr "")) as [ttl | e] eqn:Ht; [| discriminate H].
    cbn [rbind] in H.
    destruct (negb (Py.truthy ttl)); [exact (Hskip H) |].
    destruct ttl as [| b | z | t | items | fields]; try discriminate H.
    destruct (bracket_search t) as [g |] eqn:Hg; [| exact (Hskip H)].
    cbv zeta in H.
    destruct (PyStr.is_empty (PyStr.strip g)) eqn:He; [exact (Hskip H) |].
    destruct (IH _ H todo_id Hin) as [Ha | (issue & Hi & Hc)].
    + apply in_app_or in Ha. destruct Ha as [Ha | [<- | []]]; [left; exact Ha |].
      right. exists x. split; [left; reflexivity |].
      exists t, g. repeat split; assumption.
    + right. exists issue. split; [right; exact Hi | exact Hc].
Qed.

(** X10.  [get_recent_completed_todos] never raises: every failure of
    the tracker or of the data gives the empty set.  Without a client it
    asks nothing.  Every identifier it returns is the non-empty, stripped
    text between the first pair of brackets in the title of one of the
    closed tickets the tracker listed. *)
Theorem completed_todos_from_titles (json_loads : string -> option json) (self : Pipeline)
    (limit : Z) (w : world) :
  (exists ids, fst (get_recent_completed_todos json_loads self limit w) = Ok ids) /\
  (github self = false ->
   get_recent_completed_todos json_loads self limit w = (Ok [], w)) /\
  (forall todo_id ids w',
      get_recent_completed_todos json_loads self limit w = (Ok ids, w') ->
      In todo_id ids ->
      exists issues issue,
        list_closed_issues json_loads limit w = (Ok issues, w') /\
        In issue issues /\
        completed_from issue todo_id).
Proof.
  pose proof (total_list_closed_issues json_loads limit w) as Ht.
  split; [| split].
  - unfold get_recent_completed_todos, _require_github.
    destruct (github self); cbn [negb]; [| eexists; reflexivity].
    rewrite try_except_unfold, ret_step, bind_unfold.
    destruct (list_closed_issues json_loads limit w) as [[issues | e |] w1];
      simpl in Ht; try congruence.
    + destruct issues as [|x r]; [eexists; reflexivity |].
      unfold lift. destruct (completed_scan (x :: r) []) as [ids | e];
        [eexists; reflexivity |].
      cbn [raise]. destruct (is_json_decode_error e); eexists; reflexivity.
    + destruct (is_json_decode_error e); eexists; reflexivity.
  - intros Hg. unfold get_recent_completed_todos. rewrite Hg. reflexivity.
  - intros todo_id ids w' H Hin. unfold get_recent_completed_todos, _require_github in H.
    destruct (github self); cbn [negb] in H;
      [| injection H as <- _; destruct Hin].
    rewrite try_except_unfold, ret_step, bind_unfold in H.
    destruct (list_closed_issues json_loads limit w) as [[issues | e |] w1];
      simpl in Ht; try congruence.
    + destruct issues as [|x r]; [injection H as <- _; destruct Hin |].
      unfold lift in H. destruct (completed_scan (x :: r) []) as [ids' | e] eqn:Hs.
      * injection H as <- <-.
        destruct (completed_scan_ids _ _ _ Hs todo_id Hin) as [[] | (issue & Hi & Hc)].
        exists (x :: r), issue. repeat split; assumption.
      * cbn [raise] in H.
        destruct (is_json_decode_error e); injection H as <- _; destruct Hin.
    + destruct (is_json_decode_error e); injection H as <- _; destruct Hin.
Qed.

(** ** parse_stage_structure *)

(** What one line contributes to the list of TODOs: the stripped
    identifier and title of a TODO line that is not ticked. *)
Definition todo_of_line (line : string) : list (string * string) :=
  match todo_line_match line with
  | Some (status, todo_id, ttl) =>
      if Ascii.eqb (PyStr.lower_ascii status) "x" then []
      else [(PyStr.strip todo_id, PyStr.strip ttl)]
  | None => []
  end.

Lemma span_meta_spec (lines meta rest : list string) :
  span_meta lines = (meta, rest) ->
  lines = meta ++ rest /\
  Forall (fun l => is_boundary l = false) meta /\
  (List.length rest <= List.length lines)%nat.
Proof.
  revert meta rest. induction lines as [|l r IH]; intros meta rest H.
  - cbn in H. injection H as <- <-. repeat split; constructor.
  - cbn [span_meta] in H. destruct (is_boundary l) eqn:Hb.
    + injection H as <- <-. repeat split; [constructor | lia].
    + destruct (span_meta r) as [m rest'] eqn:Hs. injection H as <- <-.
      destruct (IH m rest' eq_refl) as (Hl & Hf & Hn).
      split; [cbn [app]; rewrite <- Hl; reflexivity |].
      split; [constructor; assumption | cbn [List.length]; lia].
Qed.

Lemma meta_has_no_todo (meta : list string) :
  Forall (fun l => is_boundary l = false) meta -> flat_map todo_of_line meta = [].
Proof.
  induction 1 as [|l r Hl _ IH]; [reflexivity |]. cbn [flat_map]. rewrite IH, app_nil_r.
  unfold is_boundary in Hl. apply orb_false_elim in Hl. destruct Hl as (Hl & _).
  unfold is_todo_line in Hl. unfold todo_of_line.
  destruct (todo_line_match l); [discriminate Hl | reflexivity].
Qed.

Lemma parse_loop_spec (fuel : nat) (stage_num : Z) (path : string) (lines : list string) :
  (List.length lines <= fuel)%nat ->
  map (fun t => (todo_id_full t, todo_title t)) (parse_loop fuel stage_num path lines) =
    flat_map todo_of_line lines /\
  Forall (fun t => todo_stage_number t = stage_num /\ todo_file_path t = path)
    (parse_loop fuel stage_num path lines).
Proof.
  revert lines. induction fuel as [|fuel IH]; intros lines Hlen.
  - destruct lines; [split; [reflexivity | constructor] | cbn in Hlen; lia].
  - destruct lines as [|line rest]; [split; [reflexivity | constructor] |].
    cbn [List.length] in Hlen. cbn [parse_loop flat_map]. unfold todo_of_line at 1.
    destruct (todo_line_match line) as [[[status todo_id] ttl] |].
    + destruct (span_meta rest) as [meta rest'] eqn:Hs.
      destruct (span_meta_spec rest meta rest' Hs) as (Hr & Hm & Hn).
      destruct (IH rest' ltac:(lia)) as (IH1 & IH2).
      assert (Hflat : flat_map todo_of_line rest = flat_map todo_of_line rest').
      { rewrite Hr, flat_map_app, (meta_has_no_todo meta Hm). reflexivity. }
      rewrite Hflat.
      destruct (Ascii.eqb (PyStr.lower_ascii status) "x").
      * split; [exact IH1 | exact IH2].
      * cbn [map app]. rewrite IH1. split; [reflexivity |].
        constructor; [split; reflexivity | exact IH2].
    + cbn [app]. apply IH. lia.
Qed.

(** X11.  For a stage file of ASCII text, [parse_stage_structure]
    returns, in the order of the file, one TODO for every line that matches
    the TODO pattern with a status other than [x] or [X], and nothing else:
    ticked entries never come back.
    Each TODO carries the stripped identifier and title of its line, the
    stage number of the file name and the file.  A file that is missing,
    is not a regular file or cannot be read gives no TODO; a name that
    does not match the stage pattern raises [ValueError]. *)
Theorem parse_stage_structure_spec (f : stage_file) :
  ascii_file f = true ->
  (stage_file_match (sf_name f) = None -> parse_stage_structure f = Failure ValueError) /\
  (forall n todo_list,
      parse_stage_structure f = Success (n, todo_list) ->
      stage_file_match (sf_name f) = Some n /\
      map (fun t => (todo_id_full t, todo_title t)) todo_list =
        match sf_state f with
        | FileLines lines => flat_map todo_of_line lines
        | _ => []
        end /\
      Forall (fun t => todo_stage_number t = n /\ todo_file_path t = sf_name f) todo_list).
Proof.
  intros _. unfold parse_stage_structure, extract_stage_number_from_filename. split.
  - intros ->. reflexivity.
  - intros n todo_list H.
    destruct (stage_file_match (sf_name f)) as [k |]; [| discriminate H]. cbn [rbind] in H.
    destruct (sf_state f) as [| | | lines]; injection H as <- <-;
      try (repeat split; constructor).
    destruct (parse_loop_spec (List.length lines) k (sf_name f) lines (le_n _)) as (H1 & H2).
    repeat split; assumption.
Qed.

Definition outline_file : stage_file :=
  mkStageFile "Stage-01_Outline.todos.md"
    (FileLines ["# Stage 1"; "### - [x] [S01-T01] Collect notes"; "- goal: done";
                "### - [ ] [S01-T02] Write the outline"; "- goal: an outline"; "";
                "---"; "### - [X] [S01-T04] Pick a title";
                "### - [ ] [S01-T03] Review the outline"]).

Definition outline_todos : list TodoItem :=
  match parse_stage_structure outline_file with
  | Success (_, l) => l
  | Failure _ => []
  end.

Lemma parse_stage_structure_spec_witness :
  parse_stage_structure outline_file = Success (1, outline_todos) /\
  map (fun t => (todo_id_full t, todo_title t)) outline_todos =
    [("S01-T02", "Write the outline"); ("S01-T03", "Review the outline")]%string /\
  Forall (fun t => todo_stage_number t = 1 /\
                   todo_file_path t = "Stage-01_Outline.todos.md"%string) outline_todos.
Proof.
  assert (H : parse_stage_structure outline_file = Success (1, outline_todos))
    by (vm_compute; reflexivity).
  split; [exact H |].
  assert (Hascii : ascii_file outline_file = true) by (vm_compute; reflexivity).
  destruct (proj2 (parse_stage_structure_spec outline_file Hascii) 1 outline_todos H)
    as (_ & Hmap & Hall).
  split; [rewrite Hmap; vm_compute; reflexivity | exact Hall].
Defined.

(** ** iter_work_items *)

Lemma pending_spec (completed_ids : list string) (item : WorkItem) :
  pending completed_ids item = true ->
  mem_string (id_full item) completed_ids = false /\
  (is_batch item = true ->
   exists todo, In todo (todos item) /\ mem_string (todo_id_full todo) completed_ids = false).
Proof.
  unfold pending. destruct (mem_string (id_full item) completed_ids); [discriminate |].
  intros H. split; [reflexivity |]. intros Hb. rewrite Hb in H. cbn [andb] in H.
  destruct (forallb _ (todos item)) eqn:Hf; [discriminate H |].
  clear H Hb. induction (todos item) as [|t r IH]; [discriminate Hf |].
  cbn [forallb] in Hf. destruct (mem_string (todo_id_full t) completed_ids) eqn:Ht.
  - destruct (IH Hf) as (todo & Hin & Hm). exists todo. split; [right; exact Hin | exact Hm].
  - exists t. split; [left; reflexivity | exact Ht].
Qed.

Lemma file_pending_is_pending (bs : nat) (completed_ids : list string) (f : stage_file) :
  Forall (fun item => pending completed_ids item = true) (file_pending bs completed_ids f).
Proof.
  unfold file_pending. destruct (parse_stage_structure f) as [[n l] | e]; [| constructor].
  apply Forall_forall. intros item Hin. apply filter_In in Hin. apply Hin.
Qed.

Lemma iter_work_items_pending (todo_root : dir_state) (batch_size : Z)
    (completed_ids : list string) (items : list WorkItem) :
  iter_work_items todo_root batch_size completed_ids = Success items ->
  Forall (fun item => pending completed_ids item = true) items.
Proof.
  unfold iter_work_items. destruct todo_root as [| | files].
  - intros H. injection H as <-. constructor.
  - intros H. injection H as <-. constructor.
  - destruct (sorted_files files) as [ordered | e]; cbn [rbind]; [| discriminate].
    intros H. apply scan_files_spec in H.
    destruct H as [(-> & _) | (before & f & after & _ & _ & -> & _)]; [constructor |].
    apply file_pending_is_pending.
Qed.

(** X12.  No work item [iter_work_items] returns has its identifier
    among the completed ones, and a batch it returns has at least one
    TODO whose identifier is not completed.  A todo directory that is
    missing or is not a directory gives no work item. *)
Theorem iter_work_items_skips_completed (todo_root : dir_state) (batch_size : Z)
    (completed_ids : list string) (items : list WorkItem) :
  iter_work_items todo_root batch_size completed_ids = Success items ->
  Forall (fun item =>
            mem_string (id_full item) completed_ids = false /\
            (is_batch item = true ->
             exists todo, In todo (todos item) /\
                          mem_string (todo_id_full todo) completed_ids = false)) items /\
  (todo_root = DirMissing \/ todo_root = NotADir -> items = []).
Proof.
  intros H. split.
  - eapply Forall_impl; [| exact (iter_work_items_pending _ _ _ _ H)].
    intros item. apply pending_spec.
  - intros [-> | ->]; cbn in H; injection H as <-; reflexivity.
Qed.

Lemma iter_work_items_skips_completed_witness :
  iter_work_items sample_dir 1 ["S01-T02"] =
    Success (tl sample_items) /\
  Forall (fun item =>
            mem_string (id_full item) ["S01-T02"] = false /\
            (is_batch item = true ->
             exists todo, In todo (todos item) /\
                          mem_string (todo_id_full todo) ["S01-T02"] = false))
    (tl sample_items) /\
  map id_full (tl sample_items) = ["S01-T03"]%string.
Proof.
  assert (H : iter_work_items sample_dir 1 ["S01-T02"] = Success (tl sample_items))
    by (vm_compute; reflexivity).
  split; [exact H |].
  split; [exact (proj1 (iter_work_items_skips_completed _ _ _ _ H)) | reflexivity].
Defined.

(** X14.  A file of the listing whose name is ASCII and does not match
    the stage pattern makes [iter_work_items] raise [ValueError], whatever
    the other files hold: the sort key is computed for every file before
    any is read. *)
Theorem iter_work_items_bad_name (files : list stage_file) (batch_size : Z)
    (completed_ids : list string) (f : stage_file) :
  In f files ->
  PyStr.is_ascii (sf_name f) = true ->
  stage_file_match (sf_name f) = None ->
  iter_work_items (Dir files) batch_size completed_ids = Failure ValueError.
Proof.
  intros Hin _ Hbad.
  assert (Hk : keyed files = Failure ValueError).
  { induction files as [|g r IH]; [destruct Hin |].
    cbn [keyed]. unfold extract_stage_number_from_filename.
    destruct (stage_file_match (sf_name g)) as [n |] eqn:Eg; cbn [rbind]; [| reflexivity].
    destruct Hin as [-> | Hin]; [congruence |].
    rewrite (IH Hin). reflexivity. }
  unfold iter_work_items, sorted_files. rewrite Hk. reflexivity.
Qed.

Definition stray_file : stage_file :=
  mkStageFile "Stage-A_Notes.todos.md" (FileLines ["### - [ ] [A-1] Sort the notes"]).

Lemma iter_work_items_bad_name_witness :
  iter_work_items (Dir [outline_file; stray_file]) 1 [] = Failure ValueError.
Proof.
  apply (iter_work_items_bad_name [outline_file; stray_file] 1 [] stray_file).
  - right. left. reflexivity.
  - reflexivity.
  - reflexivity.
Defined.

Lemma chunks_spec {A} (fuel n : nat) (l : list A) :
  (1 <= n)%nat -> (List.length l <= fuel)%nat ->
  List.concat (chunks fuel n l) = l /\
  Forall (fun c => (1 <= List.length c <= n)%nat) (chunks fuel n l).
Proof.
  intros Hn. revert l. induction fuel as [|fuel IH]; intros l Hl.
  - destruct l; [split; [reflexivity | constructor] | cbn in Hl; lia].
  - destruct l as [|x r]; [split; [reflexivity | constructor] |].
    cbn [chunks]. remember (x :: r) as l eqn:El.
    assert (Hlen : (1 <= List.length l)%nat) by (subst l; cbn; lia).
    destruct (IH (skipn n l)) as (Hc & Hf).
    { rewrite length_skipn. lia. }
    split.
    + cbn [List.concat]. rewrite Hc. apply firstn_skipn.
    + constructor; [| exact Hf]. rewrite length_firstn. lia.
Qed.

(** A single TODO keeps its identifier and title; a batch is numbered. *)
Definition batch_shape (item : WorkItem) : Prop :=
  match todos item with
  | [t] =>
      id_full item = todo_id_full t /\ title item = todo_title t /\
      batch_index item = None /\ batch_total item = None
  | _ =>
      exists i total,
        batch_index item = Some i /\ batch_total item = Some total /\ 1 <= i /\
        id_full item = ("S" ++ dec2 (stage_number item) ++ "-BATCH-" ++ dec2 i)%string
  end.

Lemma stage_items_from_spec (stage_num : Z) (path : string) (nbatches : nat) (i : Z)
    (batches : list (list TodoItem)) :
  1 <= i ->
  map todos (stage_items_from stage_num path nbatches i batches) = batches /\
  Forall batch_shape (stage_items_from stage_num path nbatches i batches).
Proof.
  revert i. induction batches as [|batch rest IH]; intros i Hi; cbn [stage_items_from].
  - split; [reflexivity | constructor].
  - destruct (IH (i + 1) ltac:(lia)) as (Hm & Hf).
    split.
    + cbn [map]. rewrite Hm. destruct batch as [|t [|t' r]]; reflexivity.
    + constructor; [| exact Hf].
      destruct batch as [|t [|t' r]]; unfold batch_shape; cbn [todos].
      * exists i, (Z.of_nat nbatches). repeat split. exact Hi.
      * repeat split.
      * exists i, (Z.of_nat nbatches). repeat split. exact Hi.
Qed.

Lemma stage_work_items_spec (size : nat) (stage_num : Z) (path : string)
    (todo_list : list TodoItem) :
  (1 <= size)%nat ->
  List.concat (map todos (stage_work_items size stage_num path todo_list)) = todo_list /\
  Forall (fun item => (1 <= List.length (todos item) <= size)%nat /\ batch_shape item)
    (stage_work_items size stage_num path todo_list).
Proof.
  intros Hs. unfold stage_work_items.
  destruct (chunks_spec (List.length todo_list) size todo_list Hs (le_n _)) as (Hc & Hf).
  destruct (stage_items_from_spec stage_num path
              (List.length (chunks (List.length todo_list) size todo_list)) 1
              (chunks (List.length todo_list) size todo_list) ltac:(lia)) as (Hm & Hb).
  split; [rewrite Hm; exact Hc |].
  apply Forall_forall. intros item Hin. split.
  - rewrite Forall_forall in Hf. apply Hf. rewrite <- Hm. apply in_map, Hin.
  - rewrite Forall_forall in Hb. apply Hb, Hin.
Qed.

(** X13.  The work items [iter_work_items] returns are what is left,
    after the completed ones are filtered out, of the batches of one
    file's TODOs: cutting the TODOs into batches loses none and keeps
    their order, every batch holds between one and [max(1, batch_size)]
    TODOs, a batch of one keeps the identifier and title of its TODO, and
    a larger batch is numbered from 1 and named [S<stage>-BATCH-<index>]. *)
Theorem iter_work_items_batches (todo_root : dir_state) (batch_size : Z)
    (completed_ids : list string) (items : list WorkItem) :
  iter_work_items todo_root batch_size completed_ids = Success items ->
  let size := Z.to_nat (Z.max 1 batch_size) in
  Forall (fun item => (1 <= List.length (todos item) <= size)%nat /\ batch_shape item) items /\
  (items <> [] ->
   exists files f n todo_list,
     todo_root = Dir files /\ In f files /\
     parse_stage_structure f = Success (n, todo_list) /\
     items = filter (pending completed_ids) (stage_work_items size n (sf_name f) todo_list) /\
     List.concat (map todos (stage_work_items size n (sf_name f) todo_list)) = todo_list).
Proof.
  intros H. cbv zeta.
  assert (Hs : (1 <= Z.to_nat (Z.max 1 batch_size))%nat) by lia.
  unfold iter_work_items in H. destruct todo_root as [| | files];
    try (injection H as <-; split; [constructor | congruence]).
  destruct (sorted_files files) as [ordered | e] eqn:Eo; cbn [rbind] in H; [| discriminate H].
  apply scan_files_spec in H.
  destruct H as [(-> & _) | (before & f & after & Ho & _ & Hi & Hne)];
    [split; [constructor | congruence] |].
  unfold file_pending in Hi.
  destruct (parse_stage_structure f) as [[n todo_list] |] eqn:Ep; [| congruence].
  destruct (stage_work_items_spec (Z.to_nat (Z.max 1 batch_size)) n (sf_name f) todo_list Hs)
    as (Hc & Hf).
  split.
  - subst items. apply Forall_forall. intros item Hin. apply filter_In in Hin.
    rewrite Forall_forall in Hf. apply Hf, Hin.
  - intros _. exists files, f, n, todo_list.
    split; [reflexivity |]. split.
    + destruct (sorted_files_spec files ordered Eo) as (Hp & _).
      apply (Permutation_in f (Permutation_sym Hp)). rewrite Ho.
      apply in_or_app. right. left. reflexivity.
    + repeat split; assumption.
Qed.

Definition outline_batches : list WorkItem :=
  match iter_work_items (Dir [outline_file]) 2 [] with
  | Success l => l
  | Failure _ => []
  end.

Lemma iter_work_items_batches_witness :
  iter_work_items (Dir [outline_file]) 2 [] = Success outline_batches /\
  map id_full outline_batches = ["S01-BATCH-01"]%string /\
  map (fun item => map todo_id_full (todos item)) outline_batches =
    [["S01-T02"; "S01-T03"]]%string /\
  Forall (fun item => (1 <= List.length (todos item) <= 2)%nat /\ batch_shape item)
    outline_batches.
Proof.
  assert (H : iter_work_items (Dir [outline_file]) 2 [] = Success outline_batches)
    by (vm_compute; reflexivity).
  split; [exact H |]. split; [vm_compute; reflexivity |]. split; [vm_compute; reflexivity |].
  exact (proj1 (iter_work_items_batches (Dir [outline_file]) 2 [] outline_batches H)).
Defined.

(** ** main *)

(** X15.  [main] rejects a poll interval under one second, a ticket
    time-out under sixty seconds, a batch size under one and a retry
    count under one: it logs one error and returns 1, having run no
    command and slept not at all.  So does a [--repo] value without a
    slash, when the numbers are valid. *)
Theorem main_rejects_bad_arguments (json_loads : string -> option json) (fuel : nat)
    (a : Args) (s : Setup) (loop_fuel : nat) (w : world) :
  poll_interval a < 1 \/ issue_max_wait a < 60 \/ issue_batch_size a < 1 \/
  task_max_retries a < 1 \/
  (PyStr.is_empty (repo_arg s) = false /\ PyStr.contains "/" (repo_arg s) = false) ->
  exists m,
    main json_loads fuel a s loop_fuel w = (Ok 1, pushed (EvLog ERROR m) w) /\
    In m [LogBadPollInterval; LogBadIssueMaxWait; LogBadBatchSize; LogBadMaxRetries;
          LogBadRepoFormat].
Proof.
  intros H. unfold main.
  destruct (Z.ltb_spec (poll_interval a) 1);
    [eexists; split; [reflexivity | cbn; tauto] |].
  destruct (Z.ltb_spec (issue_max_wait a) 60);
    [eexists; split; [reflexivity | cbn; tauto] |].
  destruct (Z.ltb_spec (issue_batch_size a) 1);
    [eexists; split; [reflexivity | cbn; tauto] |].
  destruct (Z.ltb_spec (task_max_retries a) 1);
    [eexists; split; [reflexivity | cbn; tauto] |].
  destruct H as [H | [H | [H | [H | (He & Hc)]]]]; try lia.
  rewrite He, Hc. cbn [negb]. eexists; split; [reflexivity | cbn; tauto].
Qed.

Lemma main_rejects_bad_arguments_witness :
  exists m,
    main sample_loads 5
      (mkArgs 0 DEFAULT_MAX_WAIT DEFAULT_BATCH_SIZE DEFAULT_TASK_MAX_RETRIES
         DEFAULT_TASK_RETRY_WAIT false false)
      sample_setup 3 world_down =
    (Ok 1, pushed (EvLog ERROR m) world_down) /\
    In m [LogBadPollInterval; LogBadIssueMaxWait; LogBadBatchSize; LogBadMaxRetries;
          LogBadRepoFormat].
Proof.
  apply main_rejects_bad_arguments. left. reflexivity.
Defined.








(** ** Pipeline._ensure_issue *)

Lemma copilot_assigned_by (n : Z) (w w' : world) :
  add_assignees n COPILOT_ASSIGNEES w = (Ok tt, w') ->
  exists a w0 out,
    In a COPILOT_ASSIGNEES /\
    _run_gh (GhIssueAddAssignee n a) 3 w0 = (Ok out, w').
Proof.
  intros H. unfold add_assignees in H. apply add_assignees_from_ok in H.
  destruct H as [(Hn & _) | (before & a & after & w0 & out & Hn & _ & Hr)];
    [discriminate Hn |].
  exists a, w0, out. split; [| exact Hr].
  rewrite Hn. apply in_or_app. right. left. reflexivity.
Qed.

(** The ticket was read, is open and has the agent among its assignees. *)
Definition seen_assigned (json_loads : string -> option json) (n : Z) (w' : world) : Prop :=
  exists w0 data state logins,
    get_issue json_loads n w0 = (Ok data, w') /\
    Py.get data "state" JNull = Success state /\
    Py.eq_str state "open" = true /\
    assignee_logins data = Success logins /\
    mem_string COPILOT_USERNAME logins = true.

(** The last command run added the agent to the ticket, and succeeded. *)
Definition just_assigned (n : Z) (w' : world) : Prop :=
  exists a w0 out,
    In a COPILOT_ASSIGNEES /\
    _run_gh (GhIssueAddAssignee n a) 3 w0 = (Ok out, w').

Lemma reuse_issue_assigned (json_loads : string -> option json) (n k : Z) (w w' : world) :
  reuse_issue json_loads n w = (Ok (Some k), w') ->
  k = n /\ (seen_assigned json_loads n w' \/ just_assigned n w').
Proof.
  unfold reuse_issue. rewrite bind_unfold.
  destruct (get_issue json_loads n w) as [[data | e |] w1] eqn:Hg; try discriminate.
  rewrite bind_unfold. unfold lift at 1.
  destruct (Py.get data "state" JNull) as [state | e] eqn:Hs; [| discriminate].
  cbn [ret]. destruct (Py.eq_str state "open") eqn:Ho; [| discriminate].
  rewrite bind_unfold. unfold lift at 1.
  destruct (assignee_logins data) as [logins | e] eqn:Hl; [| discriminate].
  cbn [ret]. rewrite bind_unfold.
  destruct (mem_string COPILOT_USERNAME logins) eqn:Hm; cbn [negb].
  - cbn [ret]. intros H. injection H as <- <-. split; [reflexivity |].
    left. exists w, data, state, logins. repeat split; assumption.
  - destruct (add_assignees n COPILOT_ASSIGNEES w1) as [[[] | e |] w2] eqn:Ha; try discriminate.
    cbn [ret]. intros H. injection H as <- <-. split; [reflexivity |].
    right. apply copilot_assigned_by in Ha. exact Ha.
Qed.

Lemma create_and_assign_assigned (item : WorkItem) (n : Z) (w w' : world) :
  create_and_assign item w = (Ok n, w') -> 0 < n /\ just_assigned n w'.
Proof.
  unfold create_and_assign. rewrite bind_unfold.
  destruct (create_issue (issue_title item) (FullIssueBody item) w) as [[k | e |] w1] eqn:Hc;
    try discriminate.
  rewrite bind_unfold, try_except_unfold.
  destruct (add_assignees k COPILOT_ASSIGNEES w1) as [[[] | e |] w2] eqn:Ha.
  - cbn [ret]. intros H. injection H as <- <-. split.
    + unfold create_issue in Hc. rewrite bind_unfold in Hc.
      destruct (_run_gh _ 3 w) as [[output | e |] w0]; try discriminate Hc.
      destruct (PyStr.to_int _) as [z |]; [| discriminate Hc].
      destruct (Z.leb_spec z 0); [discriminate Hc |]. injection Hc as <- _. assumption.
    + apply copilot_assigned_by in Ha. exact Ha.
  - rewrite !log_step. discriminate.
  - discriminate.
Qed.

(** X19.  On line, a ticket number [_ensure_issue] returns is never 0,
    and the agent is assigned to that ticket as far as the tracker has
    said: either the last thing done was to read the ticket, open and with
    the agent among its assignees, or the last command run added the
    agent to that ticket and succeeded.  In dry-run mode it returns 0 and
    does nothing. *)
Theorem ensure_issue_assigned (json_loads : string -> option json) (self : Pipeline)
    (item : WorkItem) (w : world) (n : Z) (w' : world) :
  _ensure_issue json_loads self item w = (Ok n, w') ->
  (dry_run (args self) = true -> n = 0 /\ w' = w) /\
  (dry_run (args self) = false ->
   n <> 0 /\ (seen_assigned json_loads n w' \/ just_assigned n w')).
Proof.
  intros H. unfold _ensure_issue, _require_github in H.
  destruct (dry_run (args self)).
  - injection H as <- <-. split; [intros _; split; reflexivity | discriminate].
  - split; [discriminate |]. intros _.
    assert (Hcreate : forall w0, create_and_assign item w0 = (Ok n, w') ->
                      n <> 0 /\ (seen_assigned json_loads n w' \/ just_assigned n w')).
    { intros w0 Hc. apply create_and_assign_assigned in Hc.
      destruct Hc as (Hp & Hj). split; [lia | right; exact Hj]. }
    destruct (github self); [| discriminate H]. rewrite ret_step, bind_unfold in H.
    destruct (find_issue_by_todo json_loads (id_full item) w) as [[[k |] | e |] w1];
      try discriminate H; [| exact (Hcreate _ H)].
    destruct (Z.eqb_spec k 0) as [-> | Hk]; [exact (Hcreate _ H) |].
    rewrite bind_unfold, attempt_unfold in H.
    destruct (reuse_issue json_loads k w1) as [[[k' |] | e |] w2] eqn:Hr;
      try discriminate H.
    + cbn [ret] in H. injection H as <- <-.
      apply reuse_issue_assigned in Hr. destruct Hr as (-> & Hr).
      split; [exact Hk | exact Hr].
    + exact (Hcreate _ H).
    + rewrite log_step in H. exact (Hcreate _ H).
Qed.

Lemma ensure_issue_assigned_witness :
  fst (_ensure_issue sample_loads sample_pipeline outline_item world_unassignable) = Ok 8 /\
  8 <> 0 /\
  (seen_assigned sample_loads 8
     (snd (_ensure_issue sample_loads sample_pipeline outline_item world_unassignable)) \/
   just_assigned 8
     (snd (_ensure_issue sample_loads sample_pipeline outline_item world_unassignable))).
Proof.
  assert (H : _ensure_issue sample_loads sample_pipeline outline_item world_unassignable =
              (Ok 8, snd (_ensure_issue sample_loads sample_pipeline outline_item
                            world_unassignable)))
    by (vm_compute; reflexivity).
  split; [rewrite H; reflexivity |].
  exact (proj2 (ensure_issue_assigned sample_loads sample_pipeline outline_item
                  world_unassignable 8 _ H) eq_refl).
Defined.

(** ** Pipeline._wait_and_merge *)

(** The commands the monitoring of ticket [n] may run: reading ticket
    [n], adding or removing a candidate name on ticket [n], reading a
    timeline, and reading, commenting, marking ready, merging or closing
    a change-request.  Creating and listing tickets are not among them. *)
Definition monitor_cmd (n : Z) (c : gh_cmd) : bool :=
  match c with
  | GhIssueView m => m =? n
  | GhIssueAddAssignee m a => ((m =? n) && mem_string a COPILOT_ASSIGNEES)%bool
  | GhIssueRemoveAssignee m a => ((m =? n) && mem_string a COPILOT_ASSIGNEES)%bool
  | GhApi _ _ _ | GhIssueComment _ _ | GhPrView _ | GhPrMerge _ | GhPrClose _ _
  | GhPrReady _ => true
  | GhIssueCreate _ _ | GhIssueListClosed _ | GhIssueListOpen _ => false
  end.

(** One step along the program text of a goal [keeps P m]. *)
Ltac keeps_walk :=
  lazymatch goal with
  | |- keeps _ (ret _) => apply keeps_ret
  | |- keeps _ (raise _) => apply keeps_raise
  | |- keeps _ (lift _) => apply keeps_lift
  | |- keeps _ time => apply keeps_time
  | |- keeps _ (bind _ _) => apply keeps_bind; [| intros ?; cbv beta zeta]
  | |- keeps _ (try_except _ _) => apply keeps_try_except; [| intros ?; cbv beta zeta]
  | |- keeps _ (attempt _) => apply keeps_attempt
  | |- keeps _ (sleep _) => apply keeps_sleep; exact I
  | |- keeps _ (log _ _) => apply keeps_log; simpl; auto
  | |- keeps _ (match ?x with _ => _ end) => destruct x
  end.

Section Watch.

Variable json_loads : string -> option json.
Variable max_pr_resets : Z.
Variable self : Pipeline.
Variable issue_num : Z.

Let W := only (monitor_cmd issue_num) any_log.

Lemma watch_logs : forall m, is_client_log m = true -> any_log m = true.
Proof. reflexivity. Qed.

Lemma watch_reset_issue : keeps W (_reset_issue json_loads issue_num).
Proof.
  eapply keeps_weaken; [| apply keeps_reset_issue].
  intros [c | secs | lvl m]; cbn [only]; try exact (fun H => H).
  destruct c; cbn [reset_cmd monitor_cmd]; try discriminate; exact (fun H => H).
Qed.

Ltac watch_keeps :=
  repeat
    lazymatch goal with
    | |- keeps _ (get_issue _ _) =>
        apply keeps_get_issue; [exact watch_logs | apply Z.eqb_refl]
    | |- keeps _ (get_pull _ _) =>
        apply keeps_get_pull; [exact watch_logs | reflexivity]
    | |- keeps _ (merge_pull _) =>
        apply keeps_merge_pull; [exact watch_logs | reflexivity]
    | |- keeps _ (close_pr _ _) =>
        apply keeps_close_pr; [exact watch_logs | reflexivity]
    | |- keeps _ (comment_issue _ _) =>
        apply keeps_comment_issue; [exact watch_logs | reflexivity]
    | |- keeps _ (mark_pr_ready _) =>
        apply keeps_mark_pr_ready; [exact watch_logs | reflexivity]
    | |- keeps _ (check_copilot_signal _ _) =>
        apply keeps_check_copilot_signal; [exact watch_logs | reflexivity]
    | |- keeps _ (latest_pr_from_timeline _ _) =>
        apply keeps_latest_pr_from_timeline; [exact watch_logs | reflexivity]
    | |- keeps _ (_reset_issue _ _) => apply watch_reset_issue
    | |- keeps _ (log _ _) => apply keeps_log; reflexivity
    | |- _ => keeps_walk
    end.

Lemma watch_after_reset st keep : keeps W (after_reset st keep).
Proof. unfold after_reset. watch_keeps. Qed.

Lemma watch_end_of_pass st : keeps W (end_of_pass self st).
Proof. unfold end_of_pass. watch_keeps. Qed.

Lemma watch_promote pr : keeps W (promote pr).
Proof. unfold promote. watch_keeps. Qed.

Ltac watch_keeps' :=
  repeat
    lazymatch goal with
    | |- keeps _ (after_reset _ _) => apply watch_after_reset
    | |- keeps _ (end_of_pass _ _) => apply watch_end_of_pass
    | |- keeps _ (promote _) => apply watch_promote
    | |- _ => progress watch_keeps
    end.

Lemma watch_pr_timeout_check st pr :
  keeps W (pr_timeout_check json_loads max_pr_resets self issue_num st pr).
Proof. unfold pr_timeout_check. watch_keeps'. Qed.

Lemma watch_signal_path st pr :
  keeps W (signal_path json_loads max_pr_resets issue_num st pr).
Proof. unfold signal_path, recheck_merged. watch_keeps'. Qed.

Lemma watch_pr_block st pr :
  keeps W (pr_block json_loads max_pr_resets self issue_num st pr).
Proof.
  unfold pr_block.
  repeat
    lazymatch goal with
    | |- keeps _ (signal_path _ _ _ _ _) => apply watch_signal_path
    | |- keeps _ (pr_timeout_check _ _ _ _ _ _) => apply watch_pr_timeout_check
    | |- _ => progress watch_keeps'
    end.
Qed.

Lemma watch_no_pr_block st :
  keeps W (no_pr_block json_loads max_pr_resets self issue_num st).
Proof. unfold no_pr_block. watch_keeps'. Qed.

Lemma watch_issue_closed_check st : keeps W (issue_closed_check json_loads issue_num st).
Proof. unfold issue_closed_check. watch_keeps. Qed.

Lemma watch_tick st : keeps W (tick json_loads max_pr_resets self issue_num st).
Proof.
  unfold tick.
  repeat
    lazymatch goal with
    | |- keeps _ (issue_closed_check _ _ _) => apply watch_issue_closed_check
    | |- keeps _ (no_pr_block _ _ _ _ _) => apply watch_no_pr_block
    | |- keeps _ (pr_block _ _ _ _ _ _) => apply watch_pr_block
    | |- _ => progress watch_keeps
    end.
Qed.

Lemma watch_wait_loop fuel st :
  keeps W (wait_loop json_loads max_pr_resets self issue_num fuel st).
Proof.
  revert st. induction fuel as [|fuel IH]; intros st; cbn [wait_loop].
  - intros w. apply advances_refl.
  - apply keeps_bind; [apply watch_tick |].
    intros [st' |]; [apply IH | apply keeps_ret].
Qed.

Lemma watch_monitor fuel : keeps W (monitor json_loads max_pr_resets self issue_num fuel).
Proof.
  unfold monitor, _require_github.
  repeat
    lazymatch goal with
    | |- keeps _ (wait_loop _ _ _ _ _ _) => apply watch_wait_loop
    | |- _ => progress watch_keeps
    end.
Qed.

End Watch.

(** X18.  While it monitors a ticket, [_wait_and_merge] never creates a
    ticket and never lists tickets; the only ticket it reads, and the
    only one whose assignees it changes (and then only by the candidate
    names of the agent), is the one it monitors.  The world outside is
    untouched and the clock never goes back. *)
Theorem wait_and_merge_commands (json_loads : string -> option json) (fuel : nat)
    (self : Pipeline) (item : WorkItem) (issue_num : Z) (w : world) :
  advances (only (monitor_cmd issue_num) any_log) w
    (snd (_wait_and_merge json_loads fuel self item issue_num w)).
Proof.
  unfold _wait_and_merge.
  apply (keeps_bind (only (monitor_cmd issue_num) any_log)); [apply watch_monitor |].
  intros st. apply keeps_ret.
Qed.

(** X17.  With a poll interval of at least one second, the monitoring of
    a ticket ends, by returning or by raising, within
    [max(0, issue_max_wait) + 1] passes of its loop: every pass that goes
    on sleeps at least a second, and the ceiling on the waiting time is
    tested at the start of every pass.  Without a client it raises at
    once; in dry-run mode it returns at once. *)
Theorem wait_and_merge_ends (json_loads : string -> option json) (fuel : nat)
    (self : Pipeline) (item : WorkItem) (issue_num : Z) (w : world) :
  1 <= poll_interval (args self) ->
  Z.max 0 (issue_max_wait (args self)) < Z.of_nat fuel ->
  fst (_wait_and_merge json_loads fuel self item issue_num w) <> Diverge /\
  (dry_run (args self) = true ->
   _wait_and_merge json_loads fuel self item issue_num w = (Ok tt, w)) /\
  (dry_run (args self) = false -> github self = false ->
   _wait_and_merge json_loads fuel self item issue_num w =
   (Raise (RuntimeError MsgNoGithub), w)).
Proof.
  intros Hp Hf. split; [| split].
  - pose proof (monitor_terminates json_loads fuel self Hp Hf DEFAULT_MAX_PR_RESETS
                  issue_num w) as Ht.
    unfold _wait_and_merge. rewrite bind_unfold.
    destruct (monitor json_loads DEFAULT_MAX_PR_RESETS self issue_num fuel w)
      as [[st | e |] w1]; simpl in Ht; try congruence; discriminate.
  - intros Hd. unfold _wait_and_merge, monitor. rewrite Hd. reflexivity.
  - intros Hd Hg. unfold _wait_and_merge, monitor, _require_github. rewrite Hd, Hg.
    reflexivity.
Qed.

Lemma wait_and_merge_ends_witness :
  fst (_wait_and_merge sample_loads 61 quick_pipeline sample_item 7 (world_no_pr 0)) =
    Raise (RuntimeError (MsgIssueTimeout 7 60)) /\
  fst (_wait_and_merge sample_loads 61 quick_pipeline sample_item 7 (world_no_pr 0)) <>
    Diverge.
Proof.
  split; [vm_compute; reflexivity |].
  apply (wait_and_merge_ends sample_loads 61 quick_pipeline sample_item 7 (world_no_pr 0));
    vm_compute; [discriminate | reflexivity].
Defined.

(** ** The patterns of the scanner on well-formed text *)

Lemma strip_prefix_app (p s : string) : strip_prefix p (p ++ s) = Some s.
Proof.
  induction p as [|c p IH]; cbn [append strip_prefix]; [destruct s; reflexivity |].
  rewrite Ascii.eqb_refl. exact IH.
Qed.

Lemma span_chars_app (f : ascii -> bool) (a : string) (c : ascii) (t : string) :
  all_chars f a = true -> f c = false ->
  span_chars f (a ++ String c t) = (a, String c t).
Proof.
  intros Ha Hc. induction a as [|x a IH]; cbn [append span_chars].
  - rewrite Hc. reflexivity.
  - cbn [all_chars] in Ha. apply andb_prop in Ha. destruct Ha as (Hx & Ha).
    rewrite Hx, (IH Ha). reflexivity.
Qed.

Lemma length_app_string (a b : string) :
  String.length (a ++ b) = (String.length a + String.length b)%nat.
Proof.
  induction a as [|c a IH]; cbn [append String.length]; [reflexivity |].
  rewrite IH. reflexivity.
Qed.

Lemma substring_all (s : string) : String.substring 0 (String.length s) s = s.
Proof. induction s as [|c s IH]; [reflexivity |]. cbn. rewrite IH. reflexivity. Qed.

Lemma substring_skip (a b : string) :
  String.substring (String.length a) (String.length b) (a ++ b) = b.
Proof.
  induction a as [|c a IH]; cbn [append String.length].
  - apply substring_all.
  - cbn [String.substring]. exact IH.
Qed.

Lemma ends_with_app (a suffix : string) : ends_with suffix (a ++ suffix) = true.
Proof.
  unfold ends_with. rewrite length_app_string.
  replace (String.length a + String.length suffix - String.length suffix)%nat
    with (String.length a) by lia.
  rewrite substring_skip, String.eqb_refl, Bool.andb_true_r.
  apply Nat.leb_le. lia.
Qed.

Lemma dec2_digits (n : Z) :
  0 <= n ->
  dec2 n <> EmptyString /\ all_chars PyStr.is_digit (dec2 n) = true /\
  PyStr.digits 0 false (dec2 n) = Some n.
Proof.
  intros Hn. destruct (dec_digits n Hn) as (Hne & Hd & Hv). unfold dec2.
  destruct (String.length (dec n) <? 2)%nat.
  - split; [discriminate |]. split; [exact Hd |].
    cbn [append]. rewrite digits_digit by reflexivity. exact Hv.
  - split; [exact Hne |]. split; [exact Hd |].
    rewrite (digits_first false (dec n) Hne Hd). exact Hv.
Qed.

Lemma has_newline_app (a b : string) :
  has_newline (a ++ b) = (has_newline a || has_newline b)%bool.
Proof.
  induction a as [|c a IH]; cbn [append has_newline]; [reflexivity |].
  rewrite IH. apply Bool.orb_assoc.
Qed.

(** Text without a line feed is what [$] sees it as. *)
Lemma chop_newline_plain (s : string) : has_newline s = false -> chop_newline s = s.
Proof.
  induction s as [|c t IH]; [reflexivity |]. cbn [has_newline chop_newline]. intros H.
  apply orb_false_elim in H. destruct H as (Hc & Ht).
  destruct t as [|d t']; [rewrite Hc; reflexivity |].
  rewrite (IH Ht). reflexivity.
Qed.

(** X20.  A file name written [Stage-<NN>_<name>.todos.md], with the
    stage number in decimal (padded to two digits or not, and of at most
    4300 digits, the most [int] converts) and a name that is
    not empty and holds no line feed, is accepted by
    [extract_stage_number_from_filename], which returns the number; a
    name that does not begin with [Stage-] raises [ValueError]. *)
Theorem stage_number_of_filename (n : Z) (name : string) :
  0 <= n < INT_STR_MAX -> name <> EmptyString -> has_newline name = false ->
  extract_stage_number_from_filename ("Stage-" ++ dec2 n ++ "_" ++ name ++ ".todos.md") =
    Success n /\
  extract_stage_number_from_filename ("Stage-" ++ dec n ++ "_" ++ name ++ ".todos.md") =
    Success n /\
  forall other, strip_prefix "Stage-" other = None ->
                extract_stage_number_from_filename other = Failure ValueError.
Proof.
  intros (Hn & _) Hname Hline.
  assert (Hgen : forall ds, ds <> EmptyString -> all_chars PyStr.is_digit ds = true ->
            PyStr.digits 0 false ds = Some n ->
            extract_stage_number_from_filename ("Stage-" ++ ds ++ "_" ++ name ++ ".todos.md") =
            Success n).
  { intros ds Hne Hd Hv. unfold extract_stage_number_from_filename, stage_file_match.
    rewrite strip_prefix_app.
    change (ds ++ "_" ++ name ++ ".todos.md")%string
      with (ds ++ String "_" (name ++ ".todos.md"))%string.
    rewrite (span_chars_app PyStr.is_digit ds "_" _ Hd eq_refl).
    destruct ds as [|c ds']; [congruence |].
    assert (Hplain : has_newline (name ++ ".todos.md") = false)
      by (rewrite has_newline_app, Hline; reflexivity).
    cbv zeta. rewrite (chop_newline_plain _ Hplain), Hplain.
    rewrite ends_with_app, length_app_string. cbn [andb negb String.length].
    destruct name as [|x name']; [congruence |]. cbn [String.length].
    replace (9 <? S (String.length name') + 9)%nat with true
      by (symmetry; apply Nat.ltb_lt; lia).
    rewrite Hv. reflexivity. }
  destruct (dec2_digits n Hn) as (H1 & H2 & H3).
  destruct (dec_digits n Hn) as (H4 & H5 & H6).
  split; [apply Hgen; assumption |].
  split; [apply Hgen; try assumption; rewrite (digits_first false _ H4 H5); exact H6 |].
  intros other Ho. unfold extract_stage_number_from_filename, stage_file_match.
  rewrite Ho. reflexivity.
Qed.

Lemma stage_number_of_filename_witness :
  extract_stage_number_from_filename "Stage-07_Draft.todos.md" = Success 7 /\
  extract_stage_number_from_filename "Stage-7_Draft.todos.md" = Success 7 /\
  extract_stage_number_from_filename "Notes.md" = Failure ValueError.
Proof.
  assert (Hn : 0 <= 7 < INT_STR_MAX).
  { split; [discriminate |]. apply Z.lt_le_trans with (10 ^ 1); [reflexivity |].
    apply Z.pow_le_mono_r; [reflexivity | discriminate]. }
  destruct (stage_number_of_filename 7 "Draft" Hn ltac:(discriminate) eq_refl)
    as (H1 & H2 & H3).
  split; [exact H1 |]. split; [exact H2 |]. apply H3. reflexivity.
Defined.

Lemma until_close_app (a b : string) :
  all_chars (fun c => negb (Ascii.eqb c "]")) a = true ->
  until_close (a ++ String "]" b) = Some (a, b).
Proof.
  intros Ha. induction a as [|c a IH]; cbn [append until_close]; [reflexivity |].
  cbn [all_chars] in Ha. apply andb_prop in Ha. destruct Ha as (Hc & Ha).
  destruct (Ascii.eqb c "]"); [discriminate Hc |]. rewrite (IH Ha). reflexivity.
Qed.

Lemma span_one_space (c : ascii) (t : string) :
  PyStr.is_space c = false ->
  span_chars PyStr.is_space (String " " (String c t)) = (String " " EmptyString, String c t).
Proof.
  intros H. cbn [span_chars]. change (PyStr.is_space " ") with true. cbv iota.
  cbn [span_chars]. rewrite H. reflexivity.
Qed.

(** A title that starts right after the white space and runs to the end
    of the line. *)
Lemma spaces_plus_title_plain (c : ascii) (t : string) :
  PyStr.is_space c = false -> has_newline t = false ->
  spaces_plus_title (String " " (String c t)) = Some (String c t).
Proof.
  intros Hc Ht.
  assert (Hlf : Ascii.eqb c LF = false).
  { destruct (Ascii.eqb c LF) eqn:E; [| reflexivity].
    apply Ascii.eqb_eq in E. subst c. discriminate Hc. }
  assert (Hplain : has_newline (String c t) = false)
    by (cbn [has_newline]; rewrite Hlf, Ht; reflexivity).
  unfold spaces_plus_title. change (PyStr.is_space " ") with true. cbv iota.
  cbn [spaces_title]. rewrite Hc. unfold dot_plus_end.
  rewrite (chop_newline_plain _ Hplain), Hplain. reflexivity.
Qed.

(** X21.  A line written [### - [s] [ID] Title], where [s] is a blank,
    [x] or [X], the identifier is not empty and holds no closing bracket,
    and the title begins with an ASCII character that is not white space
    and holds no line feed, matches the TODO pattern with exactly these
    three groups; a line that does not begin with [###] does not match. *)
Theorem todo_line_canonical (status : ascii) (todo_id : string) (t0 : ascii) (rest : string) :
  (status = " " \/ status = "x" \/ status = "X")%char ->
  todo_id <> EmptyString ->
  all_chars (fun c => negb (Ascii.eqb c "]")) todo_id = true ->
  (nat_of_ascii t0 < 128)%nat ->
  PyStr.is_space t0 = false ->
  has_newline rest = false ->
  todo_line_match ("### - [" ++ String status ("] [" ++ todo_id ++ "] " ++ String t0 rest)) =
    Some (status, todo_id, String t0 rest) /\
  forall line, strip_prefix "###" line = None -> todo_line_match line = None.
Proof.
  intros Hs Hne Hid _ Ht Hrest. split.
  - assert (Hst : (Ascii.eqb status " " || Ascii.eqb status "x" || Ascii.eqb status "X")%bool
                  = true)
      by (destruct Hs as [-> | [-> | ->]]; reflexivity).
    unfold todo_line_match. cbn [append strip_prefix]. rewrite !Ascii.eqb_refl.
    unfold skip_spaces.
    rewrite (span_one_space "-" _ eq_refl). cbn [andb PyStr.is_empty].
    rewrite (span_one_space "[" _ eq_refl). rewrite Hst.
    rewrite (span_one_space "[" _ eq_refl). cbn [andb PyStr.is_empty].
    rewrite (until_close_app todo_id _ Hid).
    destruct todo_id as [|c id']; [congruence |].
    rewrite (spaces_plus_title_plain t0 rest Ht Hrest). reflexivity.
  - intros line Hl. unfold todo_line_match. rewrite Hl. reflexivity.
Qed.

Lemma todo_line_canonical_witness :
  todo_line_match "### - [ ] [S01-T02] Write the outline" =
    Some (" "%char, "S01-T02", "Write the outline")%string /\
  todo_line_match "- goal: an outline" = None.
Proof.
  assert (Hascii : (nat_of_ascii "W" < 128)%nat) by (vm_compute; repeat constructor).
  destruct (todo_line_canonical " " "S01-T02" "W" "rite the outline"
              (or_introl eq_refl) ltac:(discriminate) eq_refl Hascii eq_refl eq_refl)
    as (H1 & H2).
  split; [exact H1 | apply H2; reflexivity].
Defined.

(** What the loop that skips blank lines and separators leaves. *)
Lemma drop_filler_spec (l : list string) :
  exists skipped,
    l = skipped ++ drop_filler l /\
    Forall (fun x => is_filler x = true) skipped /\
    match drop_filler l with
    | [] => True
    | x :: _ => is_filler x = false
    end.
Proof.
  induction l as [|x r (skipped & Hl & Hs & Hd)]; cbn [drop_filler].
  - exists []. repeat split. constructor.
  - destruct (is_filler x) eqn:Hx.
    + exists (x :: skipped). split; [cbn [app]; rewrite <- Hl; reflexivity |].
      split; [constructor; assumption | exact Hd].
    + exists []. split; [reflexivity |]. split; [constructor | exact Hx].
Qed.

(** What [while meta and (...): meta.pop()] leaves. *)
Lemma trim_meta_spec (meta : list string) :
  (trim_meta meta = [] \/ is_filler (last (trim_meta meta) EmptyString) = false) /\
  exists dropped,
    meta = trim_meta meta ++ dropped /\ Forall (fun x => is_filler x = true) dropped.
Proof.
  unfold trim_meta. destruct (drop_filler_spec (rev meta)) as (skipped & Hl & Hs & Hd).
  split.
  - destruct (drop_filler (rev meta)) as [|x r]; [left; reflexivity |].
    right. cbn [rev]. rewrite last_last. exact Hd.
  - exists (rev skipped). split.
    + rewrite <- rev_app_distr, <- Hl, rev_involutive. reflexivity.
    + apply Forall_rev. exact Hs.
Qed.

Definition meta_ok (t : TodoItem) : Prop :=
  (todo_meta_lines t = [] \/
   is_filler (last (todo_meta_lines t) EmptyString) = false) /\
  Forall (fun l => is_boundary l = false) (todo_meta_lines t).

Lemma parse_loop_meta (fuel : nat) (stage_num : Z) (path : string) (lines : list string) :
  Forall meta_ok (parse_loop fuel stage_num path lines).
Proof.
  revert lines. induction fuel as [|fuel IH]; intros lines; [constructor |].
  destruct lines as [|line rest]; [constructor |]. cbn [parse_loop].
  destruct (todo_line_match line) as [[[status todo_id] ttl] |]; [| apply IH].
  destruct (span_meta rest) as [meta rest'] eqn:Hs.
  destruct (Ascii.eqb (PyStr.lower_ascii status) "x"); [apply IH |].
  constructor; [| apply IH].
  destruct (span_meta_spec rest meta rest' Hs) as (_ & Hb & _).
  destruct (trim_meta_spec meta) as (Hlast & dropped & Hm & _).
  split; cbn [todo_meta_lines]; [exact Hlast |].
  rewrite Hm in Hb. apply Forall_app in Hb. apply Hb.
Qed.

(** X22.  For a stage file of ASCII text, the detail lines
    [parse_stage_structure] attaches to a TODO never end with a blank line
    or a [---] separator, and none of them is a TODO line or a group
    header: the block of a TODO stops at the next TODO or group header and
    its trailing filler is dropped. *)
Theorem parse_stage_structure_meta (f : stage_file) (n : Z) (todo_list : list TodoItem) :
  ascii_file f = true ->
  parse_stage_structure f = Success (n, todo_list) ->
  Forall meta_ok todo_list.
Proof.
  unfold parse_stage_structure. intros _ H.
  destruct (extract_stage_number_from_filename (sf_name f)) as [k | e]; [| discriminate H].
  cbn [rbind] in H.
  destruct (sf_state f) as [| | | lines]; injection H as <- <-; try constructor.
  apply parse_loop_meta.
Qed.

Lemma parse_stage_structure_meta_witness :
  map todo_meta_lines outline_todos = [["- goal: an outline"]; []]%string /\
  Forall meta_ok outline_todos.
Proof.
  split; [vm_compute; reflexivity |].
  apply (parse_stage_structure_meta outline_file 1 outline_todos);
    vm_compute; reflexivity.
Defined.

(** ** The owner and the name of the repository *)

(** [s.lstrip(c)], [s.rstrip(c)] and [s.strip(c)] for one character [c]. *)
Fixpoint lstrip_char (c : ascii) (s : string) : string :=
  match s with
  | EmptyString => EmptyString
  | String x t => if Ascii.eqb x c then lstrip_char c t else s
  end.

Fixpoint rstrip_char (c : ascii) (s : string) : string :=
  match s with
  | EmptyString => EmptyString
  | String x t =>
      match rstrip_char c t with
      | EmptyString => if Ascii.eqb x c then EmptyString else String x EmptyString
      | t' => String x t'
      end
  end.

Definition strip_char (c : ascii) (s : string) : string :=
  rstrip_char c (lstrip_char c s).

(** [_extract_owner_repo]: the last two non-empty segments of a path. *)
Definition _extract_owner_repo (path : string) : option (string * string) :=
  let parts :=
    filter (fun segment => negb (PyStr.is_empty segment))
           (PyStr.split "/" (strip_char "/" path)) in
  if (2 <=? List.length parts)%nat
  then Some (nth (List.length parts - 2) parts EmptyString,
             nth (List.length parts - 1) parts EmptyString)
  else None.

(** The non-empty segments of a path. *)
Definition segments (path : string) : list string :=
  filter (fun segment => negb (PyStr.is_empty segment)) (PyStr.split "/" path).

Fixpoint slashes (k : nat) : string :=
  match k with
  | O => EmptyString
  | S k' => String "/" (slashes k')
  end.

Definition slash_free (s : string) : bool :=
  all_chars (fun c => negb (Ascii.eqb c "/")) s.

Lemma split_app_sep (sep : ascii) (a b : string) :
  PyStr.split sep (a ++ String sep b) = (PyStr.split sep a ++ PyStr.split sep b)%list.
Proof.
  induction a as [|c a IH]; cbn [append PyStr.split].
  - rewrite Ascii.eqb_refl. reflexivity.
  - rewrite IH. destruct (Ascii.eqb c sep); [reflexivity |].
    destruct (PyStr.split sep a) as [|h r] eqn:E; [| reflexivity].
    destruct a as [|x a]; cbn [PyStr.split] in E; [discriminate E |].
    destruct (Ascii.eqb x sep); [discriminate E |].
    destruct (PyStr.split sep a); discriminate E.
Qed.

Lemma segments_app (a b : string) :
  segments (a ++ String "/" b) = (segments a ++ segments b)%list.
Proof. unfold segments. rewrite split_app_sep, filter_app. reflexivity. Qed.

Lemma segments_slash (s : string) : segments (String "/" s) = segments s.
Proof. reflexivity. Qed.

Lemma segments_lstrip (s : string) : segments (lstrip_char "/" s) = segments s.
Proof.
  induction s as [|x t IH]; [reflexivity |]. cbn [lstrip_char].
  destruct (Ascii.eqb x "/") eqn:E; [| reflexivity].
  apply Ascii.eqb_eq in E. subst x. rewrite segments_slash. exact IH.
Qed.

Lemma segments_slashes (k : nat) : segments (slashes k) = [].
Proof. induction k as [|k IH]; [reflexivity |]. cbn [slashes]. rewrite segments_slash. exact IH. Qed.

Lemma string_app_nil (s : string) : (s ++ EmptyString)%string = s.
Proof. induction s as [|c s IH]; [reflexivity |]. cbn [append]. rewrite IH. reflexivity. Qed.

Lemma segments_trailing (s : string) (k : nat) : segments (s ++ slashes k) = segments s.
Proof.
  destruct k as [|k]; cbn [slashes]; [rewrite string_app_nil; reflexivity |].
  rewrite segments_app, segments_slashes, app_nil_r. reflexivity.
Qed.

(** What [rstrip] takes away is a run of the character. *)
Lemma rstrip_char_spec (s : string) :
  exists k, s = (rstrip_char "/" s ++ slashes k)%string.
Proof.
  induction s as [|x t (k & Hk)]; [exists O; reflexivity |]. cbn [rstrip_char].
  destruct (rstrip_char "/" t) as [|y r] eqn:E.
  - cbn [append] in Hk. destruct (Ascii.eqb x "/") eqn:Ex.
    + apply Ascii.eqb_eq in Ex. subst x. exists (S k). cbn [append slashes]. rewrite <- Hk. reflexivity.
    + exists k. cbn [append]. rewrite <- Hk. reflexivity.
  - exists k. cbn [append]. cbn [append] in Hk. rewrite <- Hk. reflexivity.
Qed.

Lemma segments_strip (s : string) : segments (strip_char "/" s) = segments s.
Proof.
  unfold strip_char. destruct (rstrip_char_spec (lstrip_char "/" s)) as (k & Hk).
  rewrite <- (segments_lstrip s). rewrite Hk at 2. rewrite segments_trailing. reflexivity.
Qed.

Lemma segments_one (s : string) :
  s <> EmptyString -> slash_free s = true -> segments s = [s].
Proof.
  intros Hne Hs. unfold segments. rewrite (split_no_sep "/" s Hs). cbn [filter].
  destruct s; [destruct (Hne eq_refl) | reflexivity].
Qed.

Lemma last_two (l : list string) (o r : string) :
  let parts := (l ++ [o; r])%list in
  (2 <=? List.length parts)%nat = true /\
  nth (List.length parts - 2) parts EmptyString = o /\
  nth (List.length parts - 1) parts EmptyString = r.
Proof.
  cbv zeta. rewrite length_app. cbn [List.length].
  split; [apply Nat.leb_le; lia |]. split.
  - replace (List.length l + 2 - 2)%nat with (List.length l + 0)%nat by lia.
    rewrite app_nth2_plus. reflexivity.
  - replace (List.length l + 2 - 1)%nat with (List.length l + 1)%nat by lia.
    rewrite app_nth2_plus. reflexivity.
Qed.

Lemma extract_from_segments (path : string) (l : list string) (o r : string) :
  segments path = (l ++ [o; r])%list -> _extract_owner_repo path = Some (o, r).
Proof.
  intros H. unfold _extract_owner_repo. cbv zeta.
  change (filter _ (PyStr.split "/" (strip_char "/" path)))
    with (segments (strip_char "/" path)).
  rewrite segments_strip, H.
  destruct (last_two l o r) as (H2 & Ho & Hr). cbv zeta in H2, Ho, Hr.
  rewrite H2, Ho, Hr. reflexivity.
Qed.

(** X23.  [_extract_owner_repo] reads the owner and the repository name off
    the end of a path: for a non-empty owner and name without [/], the path
    [owner/name], and any path that ends in [/owner/name], gives the pair
    (owner, name), whatever comes before and however many [/] follow; a
    path of one segment gives None. *)
Theorem extract_owner_repo_spec (before owner repo : string) (k : nat) :
  owner <> EmptyString -> repo <> EmptyString ->
  slash_free owner = true -> slash_free repo = true ->
  _extract_owner_repo (owner ++ "/" ++ repo ++ slashes k) = Some (owner, repo) /\
  _extract_owner_repo (before ++ "/" ++ owner ++ "/" ++ repo ++ slashes k)
    = Some (owner, repo) /\
  _extract_owner_repo (slashes k ++ repo ++ slashes k) = None.
Proof.
  intros Ho Hr Hso Hsr.
  assert (Hrepo : segments (repo ++ slashes k) = [repo])
    by (rewrite segments_trailing; apply segments_one; assumption).
  assert (Htwo : segments (owner ++ "/" ++ repo ++ slashes k) = [owner; repo]).
  { cbn [append]. rewrite segments_app, Hrepo, (segments_one owner Ho Hso). reflexivity. }
  split; [apply (extract_from_segments _ []); exact Htwo |].
  split.
  - apply (extract_from_segments _ (segments before)).
    cbn [append]. cbn [append] in Htwo. rewrite segments_app, Htwo. reflexivity.
  - unfold _extract_owner_repo. cbv zeta.
    change (filter _ (PyStr.split "/" (strip_char "/" ?p))) with (segments (strip_char "/" p)).
    rewrite segments_strip.
    assert (Hlead : forall j s, segments (slashes j ++ s) = segments s).
    { induction j as [|j IH]; intros s; [reflexivity |].
      cbn [slashes append]. rewrite segments_slash. apply IH. }
    rewrite Hlead, Hrepo. reflexivity.
Qed.

Lemma extract_owner_repo_spec_witness :
  _extract_owner_repo "azzon/story4/" = Some ("azzon", "story4")%string /\
  _extract_owner_repo "https://github.com/azzon/story4/" = Some ("azzon", "story4")%string /\
  _extract_owner_repo "/story4/" = None.
Proof.
  apply (extract_owner_repo_spec "https://github.com" "azzon" "story4" 1);
    [discriminate | discriminate | reflexivity | reflexivity].
Defined.
